(** * Circuit crossing verifier (ps3/circuit2/circuit2.py)

    A shallow embedding of the wire model, the composite range-index keys,
    the pointer-based AVL range index and the sweep-line cross verifier,
    together with the properties established about them.

    Modelling conventions.
    - Coordinates are Python numbers; they are modelled as unbounded
      integers [Z].
    - Python exceptions are values of [exn]; every operation that can raise
      returns an [outcome] that carries the state reached when it raised.
    - [BSTnode] objects live in a store indexed by their identity; all
      attribute reads and writes go through that store, so aliasing between
      a node, its parent and its children is the aliasing of the program.
    - An attribute that was never assigned is [None] in the record that
      models the object, and reading it raises [AttributeError]. *)

From Stdlib Require Import ZArith Lia Sorted Permutation.
From stdpp Require Import gmap strings list fin_maps sorting.

Local Open Scope Z_scope.

(** ** Exceptions and outcomes *)

Inductive exn : Set :=
  | ValueError
  | AttributeError
  | RuntimeError
  | TypeError.

(** The result of running a command from a state of type [S]: normal return
    with a value, an exception, exhaustion of the iteration budget given to
    a [while] loop, or a reference to an object identity that was never
    allocated (which no run of the program produces). *)
Inductive outcome (S A : Type) : Type :=
  | Ret (a : A) (s : S)
  | Raise (e : exn) (s : S)
  | OutOfFuel
  | Dangling.

Arguments Ret {S A} a s.
Arguments Raise {S A} e s.
Arguments OutOfFuel {S A}.
Arguments Dangling {S A}.

Definition M (S A : Type) : Type := S → outcome S A.

#[global] Instance M_ret {S} : MRet (M S) := λ A a s, Ret a s.
#[global] Instance M_bind {S} : MBind (M S) := λ A B k c s,
  match c s with
  | Ret a s' => k a s'
  | Raise e s' => Raise e s'
  | OutOfFuel => OutOfFuel
  | Dangling => Dangling
  end.

Definition raise {S A} (e : exn) : M S A := λ s, Raise e s.
Definition get_state {S} : M S S := λ s, Ret s s.

(** ** Wires *)

Module Wire.

Record t : Set := mk {
  name : string;
  x1 : Z; y1 : Z;
  x2 : Z; y2 : Z;
  object_id : Z
}.

(** [Wire.next_object_id]: the state is the class attribute [_next_id]. *)
Definition next_object_id : M Z Z :=
  fun _next_id => Ret _next_id (_next_id + 1).

Definition is_horizontal (self : t) : bool := y1 self =? y2 self.
Definition is_vertical (self : t) : bool := x1 self =? x2 self.

(** [Wire.__init__].  The identifier is drawn before the orientation test,
    so a rejected construction still advances the counter. *)
Definition __init__ (name : string) (x1 y1 x2 y2 : Z) : M Z t :=
  let '(x1, x2) := if x1 >? x2 then (x2, x1) else (x1, x2) in
  let '(y1, y2) := if y1 >? y2 then (y2, y1) else (y1, y2) in
  id ← next_object_id;
  let self := mk name x1 y1 x2 y2 id in
  if negb (is_horizontal self || is_vertical self)
  then raise ValueError
  else mret self.

(** Identity of wire objects.  Every wire draws its own [object_id], so
    two references denote the same object exactly when all fields agree. *)
Definition same_object (a b : t) : bool :=
  String.eqb (name a) (name b)
  && (x1 a =? x1 b) && (y1 a =? y1 b) && (x2 a =? x2 b) && (y2 a =? y2 b)
  && (object_id a =? object_id b).

Definition intersects (self other_wire : t) : bool :=
  if Bool.eqb (is_horizontal self) (is_horizontal other_wire) then false
  else
    let '(h, v) := if is_horizontal self then (self, other_wire)
                   else (other_wire, self) in
    (y1 v <=? y1 h) && (y1 h <=? y2 v) && (x1 h <=? x1 v) && (x1 v <=? x2 h).

End Wire.

(** ** Composite keys of the range index *)

Module KeyWirePair.

Record t : Set := mk {
  key : Z;
  wire : option Wire.t;
  wire_id : Z
}.

Definition __init__ (key : Z) (wire : option Wire.t) : exn + t :=
  match wire with
  | None => inl ValueError
  | Some w => inr (mk key (Some w) (Wire.object_id w))
  end.

Definition __lt__ (self other : t) : bool :=
  (key self <? key other)
  || ((key self =? key other) && (wire_id self <? wire_id other)).

Definition __le__ (self other : t) : bool :=
  (key self <? key other)
  || ((key self =? key other) && (wire_id self <=? wire_id other)).

Definition __gt__ (self other : t) : bool :=
  (key self >? key other)
  || ((key self =? key other) && (wire_id self >? wire_id other)).

Definition __ge__ (self other : t) : bool :=
  (key self >? key other)
  || ((key self =? key other) && (wire_id self >=? wire_id other)).

Definition __eq__ (self other : t) : bool :=
  (key self =? key other) && (wire_id self =? wire_id other).

Definition __ne__ (self other : t) : bool :=
  negb (key self =? key other) && negb (wire_id self =? wire_id other).

End KeyWirePair.

(** [KeyWirePairL] and [KeyWirePairH] are subclasses that only replace the
    constructor. *)
Definition KeyWirePairL (key : Z) : KeyWirePair.t :=
  KeyWirePair.mk key None (-1000000000).

Definition KeyWirePairH (key : Z) : KeyWirePair.t :=
  KeyWirePair.mk key None 1000000000.

(** ** Search-tree nodes *)

(** The identity of a [BSTnode] object. *)
Abbreviation addr := nat (only parsing).

Module BSTnode.

(** [height] and [number_below] are not assigned by the constructor; they
    are [None] until [update_height] / [update_number_below] assign them. *)
Record t : Set := mk {
  key : KeyWirePair.t;
  left : option addr;
  right : option addr;
  parent : option addr;
  height : option Z;
  number_below : option Z
}.

Definition set_left (v : option addr) (n : t) : t :=
  mk (key n) v (right n) (parent n) (height n) (number_below n).
Definition set_right (v : option addr) (n : t) : t :=
  mk (key n) (left n) v (parent n) (height n) (number_below n).
Definition set_parent (v : option addr) (n : t) : t :=
  mk (key n) (left n) (right n) v (height n) (number_below n).
Definition set_height (v : Z) (n : t) : t :=
  mk (key n) (left n) (right n) (parent n) (Some v) (number_below n).
Definition set_number_below (v : Z) (n : t) : t :=
  mk (key n) (left n) (right n) (parent n) (height n) (Some v).

Definition disconnect (self : t) : t :=
  set_parent None (set_right None (set_left None self)).

Definition __init__ (key_wire : KeyWirePair.t) : t :=
  disconnect (mk key_wire None None None None None).

End BSTnode.

(** The state on which the range index works: the attributes of the
    [RangeIndex] object ([root], and [data], which no method assigns) and
    the [BSTnode] objects allocated so far. *)
Record index_state : Type := mk_index_state {
  root : option addr;
  data : option (list KeyWirePair.t);
  cells : gmap nat BSTnode.t;
  next_addr : addr
}.

Definition set_root (v : option addr) : M index_state unit :=
  λ s, Ret tt (mk_index_state v (data s) (cells s) (next_addr s)).

(** Allocation of a new [BSTnode] object. *)
Definition alloc (n : BSTnode.t) : M index_state addr :=
  λ s, Ret (next_addr s)
           (mk_index_state (root s) (data s)
              (<[next_addr s := n]> (cells s)) (S (next_addr s))).

(** [node.f]: reading an attribute of [None] raises [AttributeError]. *)
Definition getattr {A} (f : BSTnode.t → A) (node : option addr)
  : M index_state A :=
  λ s, match node with
       | None => Raise AttributeError s
       | Some a => match cells s !! a with
                   | Some n => Ret (f n) s
                   | None => Dangling
                   end
       end.

(** [node.f] for an attribute that may not have been assigned yet. *)
Definition getattr_opt {A} (f : BSTnode.t → option A) (node : option addr)
  : M index_state A :=
  v ← getattr f node;
  match v with
  | Some x => mret x
  | None => raise AttributeError
  end.

(** [node.f = v]. *)
Definition setattr (upd : BSTnode.t → BSTnode.t) (node : option addr)
  : M index_state unit :=
  λ s, match node with
       | None => Raise AttributeError s
       | Some a => match cells s !! a with
                   | Some n =>
                       Ret tt (mk_index_state (root s) (data s)
                                 (<[a := upd n]> (cells s)) (next_addr s))
                   | None => Dangling
                   end
       end.

Definition height (node : option addr) : M index_state Z :=
  match node with
  | None => mret (-1)
  | Some _ => getattr_opt BSTnode.height node
  end.

Definition update_height (node : option addr) : M index_state unit :=
  r ← getattr BSTnode.right node;
  hr ← height r;
  l ← getattr BSTnode.left node;
  hl ← height l;
  setattr (BSTnode.set_height (Z.max hr hl + 1)) node.

Definition number_below (right left : option addr) : M index_state Z :=
  match right, left with
  | Some _, Some _ =>
      nl ← getattr_opt BSTnode.number_below left;
      nr ← getattr_opt BSTnode.number_below right;
      mret (nl + nr + 2)
  | Some _, None =>
      nr ← getattr_opt BSTnode.number_below right;
      mret (nr + 1)
  | None, Some _ =>
      nl ← getattr_opt BSTnode.number_below left;
      mret (nl + 1)
  | None, None => mret 0
  end.

Definition update_number_below (node : option addr) : M index_state unit :=
  r ← getattr BSTnode.right node;
  l ← getattr BSTnode.left node;
  v ← number_below r l;
  setattr (BSTnode.set_number_below v) node.

(** ** The range index *)

Module RangeIndex.

Definition __init__ : index_state := mk_index_state None None ∅ O.

(** The descent of [add]: the body of its [while True] loop. *)
Fixpoint add_loop (fuel : nat) (key : KeyWirePair.t) (new : addr)
    (node : option addr) : M index_state unit :=
  match fuel with
  | O => λ _, OutOfFuel
  | S fuel =>
      nk ← getattr BSTnode.key node;
      if KeyWirePair.__lt__ key nk then
        l ← getattr BSTnode.left node;
        match l with
        | None =>
            setattr (BSTnode.set_left (Some new)) node;;
            setattr (BSTnode.set_parent node) (Some new)
        | Some _ => add_loop fuel key new l
        end
      else
        r ← getattr BSTnode.right node;
        match r with
        | None =>
            setattr (BSTnode.set_right (Some new)) node;;
            setattr (BSTnode.set_parent node) (Some new)
        | Some _ => add_loop fuel key new r
        end
  end.

Definition left_rotate (x : option addr) : M index_state unit :=
  y ← getattr BSTnode.right x;
  xp ← getattr BSTnode.parent x;
  setattr (BSTnode.set_parent xp) y;;
  yp ← getattr BSTnode.parent y;
  match yp with
  | None => set_root y
  | Some _ =>
      ypl ← getattr BSTnode.left yp;
      if bool_decide (ypl = x) then setattr (BSTnode.set_left y) yp
      else
        ypr ← getattr BSTnode.right yp;
        if bool_decide (ypr = x) then setattr (BSTnode.set_right y) yp
        else mret tt
  end;;
  yl ← getattr BSTnode.left y;
  setattr (BSTnode.set_right yl) x;;
  xr ← getattr BSTnode.right x;
  match xr with
  | None => mret tt
  | Some _ => setattr (BSTnode.set_parent x) xr
  end;;
  setattr (BSTnode.set_left x) y;;
  setattr (BSTnode.set_parent y) x;;
  update_height x;;
  update_number_below x;;
  update_height y;;
  update_number_below y.

Definition right_rotate (y : option addr) : M index_state unit :=
  x ← getattr BSTnode.left y;
  yp ← getattr BSTnode.parent y;
  setattr (BSTnode.set_parent yp) x;;
  xp ← getattr BSTnode.parent x;
  match xp with
  | None => set_root x
  | Some _ =>
      xpl ← getattr BSTnode.left xp;
      if bool_decide (xpl = y) then setattr (BSTnode.set_left x) xp
      else
        xpr ← getattr BSTnode.right xp;
        if bool_decide (xpr = y) then setattr (BSTnode.set_right x) xp
        else mret tt
  end;;
  xr ← getattr BSTnode.right x;
  setattr (BSTnode.set_left xr) y;;
  yl ← getattr BSTnode.left y;
  match yl with
  | None => mret tt
  | Some _ => setattr (BSTnode.set_parent y) yl
  end;;
  setattr (BSTnode.set_right y) x;;
  setattr (BSTnode.set_parent x) y;;
  update_height y;;
  update_number_below y;;
  update_height x;;
  update_number_below x.

(** [node.left], [node.right] and their grandchildren, as the conditions of
    [rebalance] read them. *)
Definition left_of (node : option addr) : M index_state (option addr) :=
  getattr BSTnode.left node.
Definition right_of (node : option addr) : M index_state (option addr) :=
  getattr BSTnode.right node.

(** The body of the [while] loop of [rebalance], up to the step to the
    parent. *)
Definition rebalance_step (node : option addr) : M index_state unit :=
  update_height node;;
  update_number_below node;;
  l ← left_of node;
  r ← right_of node;
  if bool_decide (l ≠ None) || bool_decide (r ≠ None) then
    hl ← left_of node ≫= height;
    hr ← right_of node ≫= height;
    if hl >=? 2 + hr then
      hll ← ((left_of node ≫= left_of) ≫= height);
      hlr ← ((left_of node ≫= right_of) ≫= height);
      if hll >=? hlr then right_rotate node
      else
        (left_of node ≫= left_rotate);;
        right_rotate node
    else
      hr ← right_of node ≫= height;
      hl ← left_of node ≫= height;
      if hr >=? 2 + hl then
        hrr ← ((right_of node ≫= right_of) ≫= height);
        hrl ← ((right_of node ≫= left_of) ≫= height);
        if hrr >=? hrl then left_rotate node
        else
          (right_of node ≫= right_rotate);;
          left_rotate node
      else mret tt
  else mret tt.

Fixpoint rebalance (fuel : nat) (node : option addr) : M index_state unit :=
  match node with
  | None => mret tt
  | Some _ =>
      match fuel with
      | O => λ _, OutOfFuel
      | S fuel =>
          rebalance_step node;;
          p ← getattr BSTnode.parent node;
          rebalance fuel p
      end
  end.

Definition add (fuel : nat) (key : option KeyWirePair.t)
  : M index_state unit :=
  match key with
  | None => raise ValueError
  | Some key =>
      new ← alloc (BSTnode.__init__ key);
      r ← (λ s, Ret (root s) s);
      match r with
      | None => set_root (Some new)
      | Some _ => add_loop fuel key new r
      end;;
      rebalance fuel (Some new)
  end.

Fixpoint find_loop (fuel : nat) (key : KeyWirePair.t) (node : option addr)
  : M index_state (option addr) :=
  match node with
  | None => mret None
  | Some _ =>
      match fuel with
      | O => λ _, OutOfFuel
      | S fuel =>
          nk ← getattr BSTnode.key node;
          if KeyWirePair.__eq__ key nk then mret node
          else if KeyWirePair.__lt__ key nk then
            getattr BSTnode.left node ≫= find_loop fuel key
          else
            getattr BSTnode.right node ≫= find_loop fuel key
      end
  end.

Definition find (fuel : nat) (key : KeyWirePair.t)
  : M index_state (option addr) :=
  r ← (λ s, Ret (root s) s);
  find_loop fuel key r.

Definition pop_node (fuel : nat) (key : KeyWirePair.t)
  : M index_state (option addr) :=
  node ← find fuel key;
  parent ← getattr BSTnode.parent node;
  match node with
  | None => mret tt
  | Some _ =>
      np ← getattr BSTnode.parent node;
      match np with
      | Some _ =>
          nr ← getattr BSTnode.right node;
          setattr (BSTnode.set_left nr) np
      | None =>
          nr ← getattr BSTnode.right node;
          set_root nr
      end;;
      nr ← getattr BSTnode.right node;
      match nr with
      | None => mret tt
      | Some _ =>
          np ← getattr BSTnode.parent node;
          setattr (BSTnode.set_parent np) nr
      end
  end;;
  rebalance fuel parent;;
  setattr BSTnode.disconnect node;;
  mret node.

(** [self.data]: the attribute is read by [list] and [count]; neither
    [__init__] nor any other method of the class assigns it.  The two
    methods are the ones the file gives after an empty first [def list]. *)
Definition self_data : M index_state (list KeyWirePair.t) :=
  λ s, match data s with
       | Some d => Ret d s
       | None => Raise AttributeError s
       end.

Definition in_range (first_key last_key key : KeyWirePair.t) : bool :=
  KeyWirePair.__le__ first_key key && KeyWirePair.__le__ key last_key.

Definition list (first_key last_key : KeyWirePair.t)
  : M index_state (list KeyWirePair.t) :=
  d ← self_data;
  mret (filter (λ key, in_range first_key last_key key = true) d).

Definition count (first_key last_key : KeyWirePair.t) : M index_state Z :=
  d ← self_data;
  mret (fold_left
          (λ result key,
             if in_range first_key last_key key then result + 1 else result)
          d 0).

(** The loop of [LCA].  In its [else] branch the source compares [node]
    with [node.right] and discards the result, so [node] stays as it is. *)
Fixpoint LCA_loop (fuel : nat) (low high : KeyWirePair.t)
    (node : option addr) : M index_state (option addr) :=
  match node with
  | None => mret node
  | Some _ =>
      match fuel with
      | O => λ _, OutOfFuel
      | S fuel =>
          nk ← getattr BSTnode.key node;
          if KeyWirePair.__le__ low nk && KeyWirePair.__le__ nk high then
            lk ← getattr BSTnode.left node ≫= getattr BSTnode.key;
            if KeyWirePair.__lt__ low lk then
              l ← getattr BSTnode.left node;
              LCA_loop fuel low high l
            else
              nr ← getattr BSTnode.right node;
              let _ := bool_decide (node = nr) in
              LCA_loop fuel low high node
          else mret node
      end
  end.

Definition LCA (fuel : nat) (low high : KeyWirePair.t)
  : M index_state (option addr) :=
  r ← (λ s, Ret (root s) s);
  LCA_loop fuel low high r.

End RangeIndex.

(** ** Wire layers *)

Module WireLayer.

(** [wires] is a dict from names to wires; it is kept in insertion order,
    which is the order in which [values()] iterates. *)
Record t : Set := mk { wires : list (string * Wire.t) }.

Definition __init__ : t := mk [].

Definition values (self : t) : list Wire.t := (wires self).*2.

(** [add_wire]: the state is the layer together with [Wire._next_id]. *)
Definition add_wire (name : string) (x1 y1 x2 y2 : Z) : M (t * Z) unit :=
  λ '(self, _next_id),
    if bool_decide (name ∈ (wires self).*1) then
      Raise ValueError (self, _next_id)
    else
      match Wire.__init__ name x1 y1 x2 y2 _next_id with
      | Ret w _next_id' => Ret tt (mk (wires self ++ [(name, w)]), _next_id')
      | Raise e _next_id' => Raise e (self, _next_id')
      | OutOfFuel => OutOfFuel
      | Dangling => Dangling
      end.

End WireLayer.

(** ** Results *)

Module ResultSet.

Record t : Set := mk { crossings : list (list string) }.

Definition __init__ : t := mk [].

(** [sorted([a, b])]. *)
Definition sorted2 (a b : string) : list string :=
  if String.ltb b a then [b; a] else [a; b].

Definition add_crossing (wire1 wire2 : Wire.t) (self : t) : t :=
  mk (crossings self ++ [sorted2 (Wire.name wire1) (Wire.name wire2)]).

End ResultSet.

(** ** The sweep-line verifier *)

(** A sweep event is the list [[x, order, object_id, type, wire]]. *)
Record event : Set := mk_event {
  ev_x : Z;
  ev_order : Z;
  ev_id : Z;
  ev_type : string;
  ev_wire : Wire.t
}.

(** [e1 < e2] on event lists: lexicographic, deciding at the first
    position where the two lists differ.  Wires have no ordering, so two
    events that differ only in their wire raise [TypeError]. *)
Definition event_lt (e1 e2 : event) : exn + bool :=
  if negb (ev_x e1 =? ev_x e2) then inr (ev_x e1 <? ev_x e2)
  else if negb (ev_order e1 =? ev_order e2) then
    inr (ev_order e1 <? ev_order e2)
  else if negb (ev_id e1 =? ev_id e2) then inr (ev_id e1 <? ev_id e2)
  else if negb (String.eqb (ev_type e1) (ev_type e2)) then
    inr (String.ltb (ev_type e1) (ev_type e2))
  else if Wire.same_object (ev_wire e1) (ev_wire e2) then inr false
  else inl TypeError.

(** [list.sort()], as a stable insertion sort driven by [<]. *)
Fixpoint insert_event (e : event) (sorted : list event)
  : exn + list event :=
  match sorted with
  | [] => inr [e]
  | e' :: rest =>
      match event_lt e e' with
      | inl x => inl x
      | inr true => inr (e :: sorted)
      | inr false =>
          match insert_event e rest with
          | inl x => inl x
          | inr r => inr (e' :: r)
          end
      end
  end.

Definition sort_events (l : list event) : exn + list event :=
  fold_left
    (λ acc e, match acc with inl x => inl x | inr s => insert_event e s end)
    l (inr []).

(** [min(l)]; [None] stands for the [ValueError] raised on an empty list. *)
Definition min_list (l : list Z) : option Z :=
  match l with
  | [] => None
  | x :: l' => Some (fold_left Z.min l' x)
  end.

Inductive crossings_result : Set :=
  | CountResult (n : Z)
  | SetResult (r : ResultSet.t).

Module CrossVerifier.

Record t : Type := mk {
  events : list event;
  index : index_state;
  result_set : ResultSet.t;
  performed : bool
}.

Definition event_of_wire (left_edge : Z) (wire : Wire.t) : event :=
  if Wire.is_horizontal wire then
    mk_event left_edge 0 (Wire.object_id wire) "add" wire
  else
    mk_event (Wire.x1 wire) 1 (Wire.object_id wire) "query" wire.

(** [_events_from_layer]: appends one event per wire to [self.events]. *)
Definition _events_from_layer (layer : WireLayer.t) (events : list event)
  : exn + list event :=
  match min_list (Wire.x1 <$> WireLayer.values layer) with
  | None => inl ValueError
  | Some left_edge =>
      inr (fold_left (λ evs wire, evs ++ [event_of_wire left_edge wire])
             (WireLayer.values layer) events)
  end.

Definition __init__ (layer : WireLayer.t) : exn + t :=
  match _events_from_layer layer [] with
  | inl e => inl e
  | inr events =>
      match sort_events events with
      | inl e => inl e
      | inr events =>
          inr (mk events RangeIndex.__init__ ResultSet.__init__ false)
      end
  end.

(** Running a method of [self.index]. *)
Definition on_index {A} (c : M index_state A) : M t A :=
  λ s, match c (index s) with
       | Ret a i => Ret a (mk (events s) i (result_set s) (performed s))
       | Raise e i => Raise e (mk (events s) i (result_set s) (performed s))
       | OutOfFuel => OutOfFuel
       | Dangling => Dangling
       end.

Definition set_performed (b : bool) : M t unit :=
  λ s, Ret tt (mk (events s) (index s) (result_set s) b).

Definition record_crossing (wire1 wire2 : Wire.t) : M t unit :=
  λ s, Ret tt (mk (events s) (index s)
                 (ResultSet.add_crossing wire1 wire2 (result_set s))
                 (performed s)).

Definition trace_sweep_line (x : Z) : M t unit := mret tt.

(** The wires of the listed keys that intersect [wire]; a listed key
    without a wire makes [intersects] read an attribute of [None]. *)
Fixpoint cross_wires_of (wire : Wire.t) (kwps : list KeyWirePair.t)
  : M t (list Wire.t) :=
  match kwps with
  | [] => mret []
  | kwp :: rest =>
      match KeyWirePair.wire kwp with
      | None => raise AttributeError
      | Some w =>
          ws ← cross_wires_of wire rest;
          mret (if Wire.intersects wire w then w :: ws else ws)
      end
  end.

(** One iteration of the event loop of [_compute_crossings]; [result] is
    the running count, used when [count_only] holds. *)
Definition process_event (fuel : nat) (count_only : bool) (result : Z)
    (ev : event) : M t Z :=
  let event_x := ev_x ev in
  let event_type := ev_type ev in
  let wire := ev_wire ev in
  if String.eqb event_type "add" then
    match KeyWirePair.__init__ (Wire.y1 wire) (Some wire) with
    | inl e => raise e
    | inr kwp => on_index (RangeIndex.add fuel (Some kwp));; mret result
    end
  else if String.eqb event_type "query" then
    trace_sweep_line event_x;;
    kwps ← on_index (RangeIndex.list (KeyWirePairL (Wire.y1 wire))
                       (KeyWirePairH (Wire.y2 wire)));
    cross_wires ← cross_wires_of wire kwps;
    if count_only then mret (result + Z.of_nat (length cross_wires))
    else
      foldr (λ cross_wire rest, record_crossing wire cross_wire;; rest)
        (mret tt) cross_wires;;
      mret result
  else mret result.

Fixpoint event_loop (fuel : nat) (count_only : bool) (result : Z)
    (evs : list event) : M t Z :=
  match evs with
  | [] => mret result
  | ev :: rest =>
      result ← process_event fuel count_only result ev;
      event_loop fuel count_only result rest
  end.

Definition _compute_crossings (fuel : nat) (count_only : bool)
  : M t crossings_result :=
  s ← get_state;
  result ← event_loop fuel count_only 0 (events s);
  if count_only then mret (CountResult result)
  else s' ← get_state; mret (SetResult (result_set s')).

(** A bare [raise] with no active exception raises [RuntimeError]. *)
Definition count_crossings (fuel : nat) : M t crossings_result :=
  s ← get_state;
  (if performed s then raise RuntimeError else mret tt);;
  set_performed true;;
  _compute_crossings fuel true.

Definition wire_crossings (fuel : nat) : M t crossings_result :=
  s ← get_state;
  (if performed s then raise RuntimeError else mret tt);;
  set_performed true;;
  _compute_crossings fuel false.

End CrossVerifier.

(** ** Abstract view of the store *)

(** The tree of nodes reachable from a reference through [left] and
    [right]; each node is listed with its identity, its key and its cached
    [height] and [number_below]. *)
Inductive tree : Set :=
  | E
  | T (l : tree) (a : addr) (k : KeyWirePair.t) (h c : option Z) (r : tree).

Fixpoint tree_of (fuel : nat) (m : gmap nat BSTnode.t) (o : option addr)
  : option tree :=
  match o with
  | None => Some E
  | Some a =>
      match fuel with
      | O => None
      | S fuel =>
          n ← m !! a;
          l ← tree_of fuel m (BSTnode.left n);
          r ← tree_of fuel m (BSTnode.right n);
          Some (T l a (BSTnode.key n) (BSTnode.height n)
                  (BSTnode.number_below n) r)
      end
  end.

(** The tree stored in an index.  No path is longer than the number of
    allocated nodes unless the links form a cycle. *)
Definition index_tree (s : index_state) : option tree :=
  tree_of (next_addr s) (cells s) (root s).

Fixpoint inorder (t : tree) : list KeyWirePair.t :=
  match t with
  | E => []
  | T l _ k _ _ r => inorder l ++ k :: inorder r
  end.

Fixpoint subtree_height (t : tree) : Z :=
  match t with
  | E => -1
  | T l _ _ _ _ r => 1 + Z.max (subtree_height l) (subtree_height r)
  end.

Fixpoint subtree_count (t : tree) : Z :=
  match t with
  | E => 0
  | T l _ _ _ _ r => 1 + subtree_count l + subtree_count r
  end.

Definition kwp_lt (a b : KeyWirePair.t) : Prop := KeyWirePair.__lt__ a b = true.

Definition ascending (l : list KeyWirePair.t) : Prop := Sorted kwp_lt l.

Fixpoint height_balanced (t : tree) : Prop :=
  match t with
  | E => True
  | T l _ _ _ _ r =>
      height_balanced l ∧ height_balanced r
      ∧ Z.abs (subtree_height l - subtree_height r) ≤ 1
  end.

(** The count invariant in the two forms that are compared below: the
    cached value as the size of the subtree, and the cached value as the
    number of nodes strictly below the node. *)
Fixpoint count_is_subtree_size (t : tree) : Prop :=
  match t with
  | E => True
  | T l _ _ _ c r =>
      count_is_subtree_size l ∧ count_is_subtree_size r
      ∧ c = Some (1 + subtree_count l + subtree_count r)
  end.

Fixpoint count_is_number_below (t : tree) : Prop :=
  match t with
  | E => True
  | T l _ _ _ c r =>
      count_is_number_below l ∧ count_is_number_below r
      ∧ c = Some (subtree_count l + subtree_count r)
  end.

Fixpoint height_is_cached (t : tree) : Prop :=
  match t with
  | E => True
  | T l _ _ h _ r =>
      height_is_cached l ∧ height_is_cached r
      ∧ h = Some (subtree_height t)
  end.

(** Sequences of index operations. *)
Inductive op : Set :=
  | Add (key : KeyWirePair.t)
  | PopNode (key : KeyWirePair.t).

Definition run_op (fuel : nat) (o : op) : M index_state unit :=
  match o with
  | Add key => RangeIndex.add fuel (Some key)
  | PopNode key => RangeIndex.pop_node fuel key;; mret tt
  end.

Definition run_ops (fuel : nat) (ops : list op) : M index_state unit :=
  foldr (λ o rest, run_op fuel o;; rest) (mret tt) ops.

(** The identity of a key under [__eq__]. *)
Definition kwp_id (k : KeyWirePair.t) : Z * Z :=
  (KeyWirePair.key k, KeyWirePair.wire_id k).

(** [n] successive wire constructions. *)
Fixpoint make_wires (n : nat) : M Z unit :=
  match n with
  | O => mret tt
  | S n => make_wires n;; Wire.__init__ "w" 0 0 1 0;; mret tt
  end.


(** The invariants of the index as the specification words them, and with
    the count read as the code caches it. *)
Definition claimed_invariants (s : index_state) : Prop :=
  ∃ t, index_tree s = Some t
       ∧ ascending (inorder t) ∧ height_balanced t ∧ count_is_subtree_size t.

Definition index_invariants (s : index_state) : Prop :=
  ∃ t, index_tree s = Some t
       ∧ ascending (inorder t) ∧ height_balanced t ∧ count_is_number_below t.

(** Sample data: the wire numbered [n] is horizontal at height [n]. *)
Definition sample_wire (n : Z) : Wire.t := Wire.mk "w" 0 n 1 n n.
Definition sample_key (n : Z) : KeyWirePair.t :=
  KeyWirePair.mk n (Some (sample_wire n)) n.

(** The layer with the horizontal wire [h] from (0,0) to (10,0) and the
    vertical wire [v] from (5,-5) to (5,5). *)
Definition crossing_layer : outcome (WireLayer.t * Z) unit :=
  (WireLayer.add_wire "h" 0 0 10 0;; WireLayer.add_wire "v" 5 (-5) 5 5)
    (WireLayer.__init__, 0).

(** The layer with two horizontal wires that start at different x. *)
Definition staggered_layer : outcome (WireLayer.t * Z) unit :=
  (WireLayer.add_wire "h1" 0 0 10 0;; WireLayer.add_wire "h2" 5 1 8 1)
    (WireLayer.__init__, 0).

(** ** The store as a tree with a focus *)

Definition root_of (t : tree) : option addr :=
  match t with
  | E => None
  | T _ a _ _ _ _ => Some a
  end.

Fixpoint addrs (t : tree) : list addr :=
  match t with
  | E => []
  | T l a _ _ _ r => addrs l ++ a :: addrs r
  end.

(** [repr m par t]: in the store [m] the nodes of [t] are linked as [t]
    says, and the root of [t] has the parent link [par]. *)
Fixpoint repr (m : gmap nat BSTnode.t) (par : option addr) (t : tree)
  : Prop :=
  match t with
  | E => True
  | T l a k h c r =>
      m !! a = Some (BSTnode.mk k (root_of l) (root_of r) par h c)
      ∧ repr m (Some a) l ∧ repr m (Some a) r
  end.

(** What [height(node)] and [node.number_below] return at the root of a
    tree whose root has both attributes assigned. *)
Definition cached_height (t : tree) : Z :=
  match t with
  | E => -1
  | T _ _ _ h _ _ => default 0 h
  end.

Definition cached_below (t : tree) : Z :=
  match t with
  | E => 0
  | T _ _ _ _ c _ => default 0 c
  end.

Definition has_cache (t : tree) : Prop :=
  match t with
  | E => True
  | T _ _ _ h c _ => is_Some h ∧ is_Some c
  end.

(** [number_below(right, left)] on the two subtrees. *)
Definition below (l r : tree) : Z :=
  match r, l with
  | T _ _ _ _ _ _, T _ _ _ _ _ _ => cached_below l + cached_below r + 2
  | T _ _ _ _ _ _, E => cached_below r + 1
  | E, T _ _ _ _ _ _ => cached_below l + 1
  | E, E => 0
  end.

(** The node [a] over [l] and [r] after [update_height] and
    [update_number_below]. *)
Definition node (l : tree) (a : addr) (k : KeyWirePair.t) (r : tree) : tree :=
  T l a k (Some (Z.max (cached_height r) (cached_height l) + 1))
    (Some (below l r)) r.

(** [avl t]: every cached height and count of [t] is the one the update
    functions compute from the children, and the cached heights of the two
    children of every node differ by at most 1. *)
Fixpoint avl (t : tree) : Prop :=
  match t with
  | E => True
  | T l a k h c r =>
      avl l ∧ avl r
      ∧ h = Some (Z.max (cached_height r) (cached_height l) + 1)
      ∧ c = Some (below l r)
      ∧ Z.abs (cached_height l - cached_height r) ≤ 1
  end.

(** A frame is a node seen from one of its children: [InL] from the left
    child, with the right subtree [r] beside it, [InR] from the right
    child.  A context is the path of frames from a node up to the root. *)
Inductive frame : Set :=
  | InL (a : addr) (k : KeyWirePair.t) (h c : option Z) (r : tree)
  | InR (l : tree) (a : addr) (k : KeyWirePair.t) (h c : option Z).

Definition frame_addr (f : frame) : addr :=
  match f with
  | InL a _ _ _ _ => a
  | InR _ a _ _ _ => a
  end.

Definition ctx_parent (C : list frame) : option addr :=
  match C with
  | [] => None
  | f :: _ => Some (frame_addr f)
  end.

Fixpoint ctx_repr (m : gmap nat BSTnode.t) (rt hole : option addr)
    (C : list frame) : Prop :=
  match C with
  | [] => rt = hole
  | InL a k h c r :: C' =>
      m !! a = Some (BSTnode.mk k hole (root_of r) (ctx_parent C') h c)
      ∧ repr m (Some a) r ∧ ctx_repr m rt (Some a) C'
  | InR l a k h c :: C' =>
      m !! a = Some (BSTnode.mk k (root_of l) hole (ctx_parent C') h c)
      ∧ repr m (Some a) l ∧ ctx_repr m rt (Some a) C'
  end.

Fixpoint ctx_addrs (C : list frame) : list addr :=
  match C with
  | [] => []
  | InL a _ _ _ r :: C' => a :: addrs r ++ ctx_addrs C'
  | InR l a _ _ _ :: C' => a :: addrs l ++ ctx_addrs C'
  end.

Fixpoint plug (C : list frame) (t : tree) : tree :=
  match C with
  | [] => t
  | InL a k h c r :: C' => plug C' (T t a k h c r)
  | InR l a k h c :: C' => plug C' (T l a k h c t)
  end.

(** The keys before and after the hole of a context, in order. *)
Fixpoint ctx_before (C : list frame) : list KeyWirePair.t :=
  match C with
  | [] => []
  | InL _ _ _ _ _ :: C' => ctx_before C'
  | InR l _ k _ _ :: C' => ctx_before C' ++ inorder l ++ [k]
  end.

Fixpoint ctx_after (C : list frame) : list KeyWirePair.t :=
  match C with
  | [] => []
  | InL _ k _ _ r :: C' => k :: inorder r ++ ctx_after C'
  | InR _ _ _ _ _ :: C' => ctx_after C'
  end.

(** [at_focus s C t]: the index [s] stores [plug C t], with no node
    occurring twice. *)
Definition at_focus (s : index_state) (C : list frame) (t : tree) : Prop :=
  ctx_repr (cells s) (root s) (root_of t) C
  ∧ repr (cells s) (ctx_parent C) t
  ∧ NoDup (ctx_addrs C ++ addrs t).

(** [ctx_ok C h0]: the subtrees beside the path are AVL trees, and each
    is balanced against the height its sibling on the path had when the
    hole held a subtree of height [h0]. *)
Fixpoint ctx_ok (C : list frame) (h0 : Z) : Prop :=
  match C with
  | [] => True
  | InL _ _ _ _ r :: C' =>
      avl r ∧ Z.abs (h0 - cached_height r) ≤ 1
      ∧ ctx_ok C' (Z.max (cached_height r) h0 + 1)
  | InR l _ _ _ _ :: C' =>
      avl l ∧ Z.abs (cached_height l - h0) ≤ 1
      ∧ ctx_ok C' (Z.max h0 (cached_height l) + 1)
  end.

(** [index_ok s t]: the index [s] stores the AVL tree [t], its keys are in
    strictly ascending order, and every node of [t] was allocated. *)
Definition index_ok (s : index_state) (t : tree) : Prop :=
  at_focus s [] t ∧ avl t ∧ StronglySorted kwp_lt (inorder t)
  ∧ (∀ z, z ∈ addrs t → (z < next_addr s)%nat)
  ∧ data s = None.

Fixpoint depth (t : tree) : nat :=
  match t with
  | E => O
  | T l _ _ _ _ r => S (Nat.max (depth l) (depth r))
  end.

(** A command keeps a projection [f] of the state when [f] has the same
    value in every state the command ends in, normally or by raising. *)
Definition keeps {S A B} (f : S → B) (c : M S A) : Prop :=
  ∀ s, match c s with
       | Ret _ s' | Raise _ s' => f s' = f s
       | OutOfFuel | Dangling => True
       end.

(** ** Layers built by [add_wire] *)

(** What [add_wire] maintains: the dict keys are the names of the wires and
    are pairwise distinct, the identifiers are pairwise distinct and were
    handed out by the counter, and every wire is normalized and horizontal
    or vertical. *)
Definition wire_ok (w : Wire.t) : Prop :=
  Wire.x1 w ≤ Wire.x2 w ∧ Wire.y1 w ≤ Wire.y2 w
  ∧ (Wire.is_horizontal w = true ∨ Wire.is_vertical w = true).

Definition layer_ok (st : WireLayer.t * Z) : Prop :=
  NoDup (WireLayer.wires st.1).*1
  ∧ NoDup (Wire.object_id <$> WireLayer.values st.1)
  ∧ Forall (λ p, Wire.name p.2 = p.1 ∧ wire_ok p.2
                 ∧ 0 ≤ Wire.object_id p.2 < st.2) (WireLayer.wires st.1)
  ∧ 0 ≤ st.2.

(** Event lists in which every [add] event precedes every [query]
    event. *)
Definition adds_then_queries (l : list event) : Prop :=
  ∃ la lq, l = la ++ lq
           ∧ Forall (λ e, ev_type e = "add") la
           ∧ Forall (λ e, ev_type e = "query") lq.

(** The events of a layer whose left edge is [m]. *)
Definition event_ok (m : Z) (e : event) : Prop :=
  (ev_type e = "add" ∧ ev_x e = m ∧ ev_order e = 0)
  ∨ (ev_type e = "query" ∧ m ≤ ev_x e ∧ ev_order e = 1).


(** The key under which the sweep stores a horizontal wire. *)
Definition key_of_wire (w : Wire.t) : KeyWirePair.t :=
  KeyWirePair.mk (Wire.y1 w) (Some w) (Wire.object_id w).

(** The horizontal wires of a layer, in the order of [values()]. *)
Definition horizontal_wires (layer : WireLayer.t) : list Wire.t :=
  filter (λ w, Wire.is_horizontal w = true) (WireLayer.values layer).

(** The key of every [BSTnode] object allocated so far. *)
Definition node_keys (s : index_state) : gmap nat KeyWirePair.t :=
  BSTnode.key <$> cells s.

(** An index with the key 1 at the root, node 0, and the key 2 at its
    right child, node 1. *)
Definition right_chain : index_state :=
  mk_index_state (Some 0%nat) None
    (<[0%nat := BSTnode.mk (sample_key 1) None (Some 1%nat) None
                  (Some 1) (Some 1)]>
       (<[1%nat := BSTnode.mk (sample_key 2) None None (Some 0%nat)
                     (Some 0) (Some 0)]> ∅))
    2.

(** ** Tracing *)

(** The entries that the traced classes append to the trace. *)
Inductive trace_entry : Set :=
  | TraceAdd (id : string)
  | TraceList (from to : Z) (ids : list string)
  | TraceCrossing (id1 id2 : string)
  | TraceSweep (x : Z).

Module TracedCrossVerifier.

(** A traced verifier is a verifier with a trace; its index is a
    [TracedRangeIndex] and its result set a [TracedResultSet], and the
    three objects share the one list [trace]. *)
Record t : Type := mk {
  base : CrossVerifier.t;
  trace : list trace_entry
}.

Definition __init__ (layer : WireLayer.t) : exn + t :=
  match CrossVerifier.__init__ layer with
  | inl e => inl e
  | inr cv =>
      inr (mk (CrossVerifier.mk (CrossVerifier.events cv)
                 RangeIndex.__init__ ResultSet.__init__
                 (CrossVerifier.performed cv)) [])
  end.

(** Running an inherited method. *)
Definition on_base {A} (c : M CrossVerifier.t A) : M t A :=
  λ s, match c (base s) with
       | Ret a b => Ret a (mk b (trace s))
       | Raise e b => Raise e (mk b (trace s))
       | OutOfFuel => OutOfFuel
       | Dangling => Dangling
       end.

(** [self.trace.append(entry)]. *)
Definition trace_append (entry : trace_entry) : M t unit :=
  λ s, Ret tt (mk (base s) (trace s ++ [entry])).

(** [key.wire.name]. *)
Definition wire_name (key : KeyWirePair.t) : M t string :=
  match KeyWirePair.wire key with
  | None => raise AttributeError
  | Some w => mret (Wire.name w)
  end.

(** [[key.wire.name for key in result]]. *)
Fixpoint wire_names (result : list KeyWirePair.t) : M t (list string) :=
  match result with
  | [] => mret []
  | key :: rest =>
      id ← wire_name key;
      ids ← wire_names rest;
      mret (id :: ids)
  end.

(** [TracedRangeIndex.add]. *)
Definition index_add (fuel : nat) (key : KeyWirePair.t) : M t unit :=
  id ← wire_name key;
  trace_append (TraceAdd id);;
  on_base (CrossVerifier.on_index (RangeIndex.add fuel (Some key))).

(** [TracedRangeIndex.list]. *)
Definition index_list (first_key last_key : KeyWirePair.t)
  : M t (list KeyWirePair.t) :=
  result ← on_base (CrossVerifier.on_index
                      (RangeIndex.list first_key last_key));
  ids ← wire_names result;
  trace_append (TraceList (KeyWirePair.key first_key)
                  (KeyWirePair.key last_key) ids);;
  mret result.

(** [TracedResultSet.add_crossing]. *)
Definition add_crossing (wire1 wire2 : Wire.t) : M t unit :=
  trace_append (TraceCrossing (Wire.name wire1) (Wire.name wire2));;
  on_base (CrossVerifier.record_crossing wire1 wire2).

Definition trace_sweep_line (x : Z) : M t unit :=
  trace_append (TraceSweep x).

(** The inherited [_compute_crossings], [count_crossings] and
    [wire_crossings], with the overridden methods in place. *)
Definition process_event (fuel : nat) (count_only : bool) (result : Z)
    (ev : event) : M t Z :=
  let event_x := ev_x ev in
  let event_type := ev_type ev in
  let wire := ev_wire ev in
  if String.eqb event_type "add" then
    match KeyWirePair.__init__ (Wire.y1 wire) (Some wire) with
    | inl e => raise e
    | inr kwp => index_add fuel kwp;; mret result
    end
  else if String.eqb event_type "query" then
    trace_sweep_line event_x;;
    kwps ← index_list (KeyWirePairL (Wire.y1 wire))
              (KeyWirePairH (Wire.y2 wire));
    cross_wires ← on_base (CrossVerifier.cross_wires_of wire kwps);
    if count_only then mret (result + Z.of_nat (length cross_wires))
    else
      foldr (λ cross_wire rest, add_crossing wire cross_wire;; rest)
        (mret tt) cross_wires;;
      mret result
  else mret result.

Fixpoint event_loop (fuel : nat) (count_only : bool) (result : Z)
    (evs : list event) : M t Z :=
  match evs with
  | [] => mret result
  | ev :: rest =>
      result ← process_event fuel count_only result ev;
      event_loop fuel count_only result rest
  end.

Definition _compute_crossings (fuel : nat) (count_only : bool)
  : M t crossings_result :=
  s ← get_state;
  result ← event_loop fuel count_only 0 (CrossVerifier.events (base s));
  if count_only then mret (CountResult result)
  else s' ← get_state;
       mret (SetResult (CrossVerifier.result_set (base s'))).

Definition count_crossings (fuel : nat) : M t crossings_result :=
  s ← get_state;
  (if CrossVerifier.performed (base s) then raise RuntimeError else mret tt);;
  on_base (CrossVerifier.set_performed true);;
  _compute_crossings fuel true.

Definition wire_crossings (fuel : nat) : M t crossings_result :=
  s ← get_state;
  (if CrossVerifier.performed (base s) then raise RuntimeError else mret tt);;
  on_base (CrossVerifier.set_performed true);;
  _compute_crossings fuel false.

Definition trace_as_json (self : t) : list trace_entry := trace self.

End TracedCrossVerifier.

(** The entry that the sweep appends for an event: [add] for an [add]
    event, from the index, and [sweep] for a [query] event, from the
    verifier. *)
Definition entry_of_event (ev : event) : trace_entry :=
  if String.eqb (ev_type ev) "add" then TraceAdd (Wire.name (ev_wire ev))
  else TraceSweep (ev_x ev).

(** The events up to and including the first [query] event. *)
Fixpoint until_first_query (evs : list event) : list event :=
  match evs with
  | [] => []
  | ev :: rest =>
      if String.eqb (ev_type ev) "query" then [ev]
      else ev :: until_first_query rest
  end.

(** * Properties *)

(** ** Running commands *)

Lemma bind_Ret {S A B} (c : M S A) (k : A → M S B) s a s' :
  c s = Ret a s' → (c ≫= k) s = k a s'.
Proof. intros H. unfold mbind, M_bind. by rewrite H. Qed.

Ltac run := repeat progress (cbv [mbind M_bind mret M_ret raise]; cbn).

(** ** Wires *)

Lemma Wire_init_counter name x1 y1 x2 y2 n :
  (∃ w, Wire.__init__ name x1 y1 x2 y2 n = Ret w (n + 1)
        ∧ Wire.object_id w = n)
  ∨ Wire.__init__ name x1 y1 x2 y2 n = Raise ValueError (n + 1).
Proof.
  unfold Wire.__init__.
  destruct (x1 >? x2), (y1 >? y2); run;
    match goal with
    | |- context [if ?b then _ else _] => destruct b
    end; cbn; eauto.
Qed.

(** Every counter value is reached: identifiers are handed out from 0
    upward, one per construction. *)
Lemma make_wires_counter (n : nat) : make_wires n 0 = Ret tt (Z.of_nat n).
Proof.
  induction n as [|n IH]; [done|].
  cbn [make_wires]. erewrite bind_Ret by exact IH.
  run. replace (Z.of_nat n + 1) with (Z.of_nat (S n)) by lia. done.
Qed.

(** C6, as stated, fails: a degenerate point, for which both [x1 = x2] and
    [y1 = y2] hold, is constructed without error. *)
Lemma Wire_init_accepts_point :
  Wire.__init__ "p" 1 1 1 1 0 = Ret (Wire.mk "p" 1 1 1 1 0) 1.
Proof. reflexivity. Qed.

(** C6 (amended): construction succeeds exactly when at least one of
    [x1 = x2] and [y1 = y2] holds, a degenerate point included; a diagonal
    segment raises [ValueError], and [add_wire] then leaves the layer as it
    was. *)
Theorem Wire_init_spec (name : string) (x1 y1 x2 y2 n : Z)
    (layer : WireLayer.t) :
  (x1 = x2 ∨ y1 = y2 →
     Wire.__init__ name x1 y1 x2 y2 n
     = Ret (Wire.mk name (Z.min x1 x2) (Z.min y1 y2)
              (Z.max x1 x2) (Z.max y1 y2) n) (n + 1))
  ∧ (x1 ≠ x2 ∧ y1 ≠ y2 →
     Wire.__init__ name x1 y1 x2 y2 n = Raise ValueError (n + 1)
     ∧ ∃ n', WireLayer.add_wire name x1 y1 x2 y2 (layer, n)
             = Raise ValueError (layer, n')).
Proof.
  assert (Hinit : Wire.__init__ name x1 y1 x2 y2 n
    = if bool_decide (x1 = x2 ∨ y1 = y2)
      then Ret (Wire.mk name (Z.min x1 x2) (Z.min y1 y2)
                  (Z.max x1 x2) (Z.max y1 y2) n) (n + 1)
      else Raise ValueError (n + 1)).
  { unfold Wire.__init__, Wire.is_horizontal, Wire.is_vertical.
    destruct (Z.gtb_spec x1 x2), (Z.gtb_spec y1 y2); run;
      repeat match goal with
      | |- context [?a =? ?b] => destruct (Z.eqb_spec a b)
      end; cbn; case_bool_decide; try lia;
      try (f_equal; f_equal; lia). }
  split.
  - intros H. rewrite Hinit.
    by rewrite (bool_decide_eq_true_2 (x1 = x2 ∨ y1 = y2)).
  - intros [Hx Hy]. rewrite Hinit.
    rewrite (bool_decide_eq_false_2 (x1 = x2 ∨ y1 = y2)) by tauto.
    split; [done|].
    unfold WireLayer.add_wire.
    destruct (bool_decide (name ∈ (WireLayer.wires layer).*1));
      [eexists; reflexivity|].
    rewrite Hinit, (bool_decide_eq_false_2 (x1 = x2 ∨ y1 = y2)) by tauto.
    eexists; reflexivity.
Qed.

Lemma Wire_init_spec_witness :
  Wire.__init__ "h" 10 0 0 0 7 = Ret (Wire.mk "h" 0 0 10 0 7) 8
  ∧ Wire.__init__ "d" 0 0 1 1 7 = Raise ValueError 8.
Proof.
  split.
  - apply (Wire_init_spec "h" 10 0 0 0 7 WireLayer.__init__). right. reflexivity.
  - apply (Wire_init_spec "d" 0 0 1 1 7 WireLayer.__init__). split; discriminate.
Defined.

(** C4, as stated, fails on degenerate points, which are both horizontal
    and vertical: a vertical point on a horizontal wire is not reported,
    and a vertical point on a vertical wire is. *)
Lemma intersects_point_wires :
  let H := Wire.mk "H" 0 0 10 0 0 in
  let P := Wire.mk "P" 5 0 5 0 1 in
  let V := Wire.mk "V" 5 (-5) 5 5 2 in
  Wire.__init__ "H" 0 0 10 0 0 = Ret H 1
  ∧ Wire.__init__ "P" 5 0 5 0 1 = Ret P 2
  ∧ Wire.__init__ "V" 5 (-5) 5 5 2 = Ret V 3
  ∧ (Wire.is_horizontal H = true ∧ Wire.is_vertical P = true
     ∧ Wire.x1 H ≤ Wire.x1 P ≤ Wire.x2 H
     ∧ Wire.y1 P ≤ Wire.y1 H ≤ Wire.y2 P
     ∧ Wire.intersects H P = false)
  ∧ (Wire.is_vertical P = true ∧ Wire.is_vertical V = true
     ∧ Wire.intersects P V = true).
Proof. cbn. repeat split; (reflexivity || lia). Qed.

(** C4 (amended): for a horizontal wire [H] and a vertical wire [V] that is
    not also horizontal, [H.intersects(V)] holds exactly when [V]'s x lies
    in [H]'s closed x-span and [H]'s y lies in [V]'s closed y-span; two
    wires that agree on [is_horizontal] never intersect. *)
Theorem intersects_spec (H V A B : Wire.t) :
  (Wire.is_horizontal H = true → Wire.is_vertical V = true →
   Wire.is_horizontal V = false →
   (Wire.intersects H V = true
    ↔ (Wire.x1 H ≤ Wire.x1 V ≤ Wire.x2 H)
      ∧ (Wire.y1 V ≤ Wire.y1 H ≤ Wire.y2 V)))
  ∧ (Wire.is_horizontal A = Wire.is_horizontal B →
     Wire.intersects A B = false).
Proof.
  split.
  - intros HH _ HV. unfold Wire.intersects. rewrite HH, HV. cbn.
    rewrite !andb_true_iff, !Z.leb_le. lia.
  - intros HAB. unfold Wire.intersects. rewrite HAB.
    by destruct (Wire.is_horizontal B).
Qed.

Lemma intersects_spec_witness :
  let H := Wire.mk "H" 0 0 10 0 0 in
  let V := Wire.mk "V" 5 (-5) 5 5 1 in
  (Wire.intersects H V = true
   ↔ (Wire.x1 H ≤ Wire.x1 V ≤ Wire.x2 H)
     ∧ (Wire.y1 V ≤ Wire.y1 H ≤ Wire.y2 V))
  ∧ Wire.intersects H H = false.
Proof.
  intros H V. split.
  - apply (intersects_spec H V H H); reflexivity.
  - apply (intersects_spec H V H H). reflexivity.
Defined.

(** ** Keys *)

(** C10: [a != b] holds exactly when both the coordinates and the wire
    identifiers differ; two keys with the same coordinate and different
    wires are neither [==] nor [!=]. *)
Theorem KeyWirePair_ne_spec (a b : KeyWirePair.t) :
  (KeyWirePair.__ne__ a b = true
   ↔ KeyWirePair.key a ≠ KeyWirePair.key b
     ∧ KeyWirePair.wire_id a ≠ KeyWirePair.wire_id b)
  ∧ (KeyWirePair.key a = KeyWirePair.key b →
     KeyWirePair.wire_id a ≠ KeyWirePair.wire_id b →
     KeyWirePair.__eq__ a b = false ∧ KeyWirePair.__ne__ a b = false).
Proof.
  unfold KeyWirePair.__ne__, KeyWirePair.__eq__.
  destruct (Z.eqb_spec (KeyWirePair.key a) (KeyWirePair.key b)),
    (Z.eqb_spec (KeyWirePair.wire_id a) (KeyWirePair.wire_id b));
    cbn; intuition congruence.
Qed.

Lemma KeyWirePair_ne_spec_witness :
  let a := KeyWirePair.mk 3 (Some (Wire.mk "a" 0 3 5 3 0)) 0 in
  let b := KeyWirePair.mk 3 (Some (Wire.mk "b" 1 3 4 3 1)) 1 in
  KeyWirePair.__eq__ a b = false ∧ KeyWirePair.__ne__ a b = false.
Proof.
  intros a b. apply (KeyWirePair_ne_spec a b); [reflexivity | discriminate].
Defined.

(** C7, as stated, fails for the high sentinel: the wire built when the
    identifier counter stands at 1000000000 gets a key that
    [KeyWirePairH] does not exceed. *)
Lemma KeyWirePairH_not_above :
  let w := Wire.mk "w" 0 0 1 0 1000000000 in
  let k := KeyWirePair.mk 0 (Some w) 1000000000 in
  make_wires (Z.to_nat 1000000000) 0 = Ret tt 1000000000
  ∧ Wire.__init__ "w" 0 0 1 0 1000000000 = Ret w 1000000001
  ∧ KeyWirePair.__init__ 0 (Some w) = inr k
  ∧ KeyWirePair.__gt__ (KeyWirePairH 0) k = false
  ∧ KeyWirePair.__lt__ k (KeyWirePairH 0) = false.
Proof.
  cbv zeta. split; [|repeat split].
  rewrite make_wires_counter, Z2Nat.id by lia. reflexivity.
Qed.

(** C7 (amended): for a wire built while the identifier counter is at
    least 0 and below 1000000000, and every coordinate [c], the low
    sentinel is strictly below and the high sentinel strictly above the
    wire's key at [c]. *)
Theorem sentinel_order (c : Z) (name : string) (x1 y1 x2 y2 n n' : Z)
    (w : Wire.t) (k : KeyWirePair.t) :
  0 ≤ n < 1000000000 →
  Wire.__init__ name x1 y1 x2 y2 n = Ret w n' →
  KeyWirePair.__init__ c (Some w) = inr k →
  KeyWirePair.__lt__ (KeyWirePairL c) k = true
  ∧ KeyWirePair.__gt__ k (KeyWirePairL c) = true
  ∧ KeyWirePair.__gt__ (KeyWirePairH c) k = true
  ∧ KeyWirePair.__lt__ k (KeyWirePairH c) = true.
Proof.
  intros Hn Hw Hk.
  destruct (Wire_init_counter name x1 y1 x2 y2 n) as [(w' & Hw' & Hid)|Hw'];
    rewrite Hw' in Hw; [|done].
  injection Hw as -> _. cbn in Hk. injection Hk as <-.
  unfold KeyWirePair.__lt__, KeyWirePair.__gt__, KeyWirePairL, KeyWirePairH.
  cbn. rewrite Hid, Z.eqb_refl. cbn. rewrite !orb_true_iff.
  repeat split; right; lia.
Qed.

Lemma sentinel_order_witness :
  let w := Wire.mk "h" 0 4 9 4 5 in
  let k := KeyWirePair.mk 4 (Some w) 5 in
  KeyWirePair.__lt__ (KeyWirePairL 4) k = true
  ∧ KeyWirePair.__gt__ k (KeyWirePairL 4) = true
  ∧ KeyWirePair.__gt__ (KeyWirePairH 4) k = true
  ∧ KeyWirePair.__lt__ k (KeyWirePairH 4) = true.
Proof.
  intros w k.
  apply (sentinel_order 4 "h" 0 4 9 4 5 6 w k); [lia | reflexivity | reflexivity].
Defined.

(** ** Event generation *)

Lemma fold_left_snoc {A B} (f : A → B) (l : list A) (init : list B) :
  fold_left (λ acc x, acc ++ [f x]) l init = init ++ (f <$> l).
Proof.
  revert init. induction l as [|x l IH]; intros init; cbn.
  - by rewrite app_nil_r.
  - rewrite IH. by rewrite <- app_assoc.
Qed.

Lemma fold_left_min_le (l : list Z) (x : Z) :
  fold_left Z.min l x ≤ x ∧ ∀ y, y ∈ l → fold_left Z.min l x ≤ y.
Proof.
  revert x. induction l as [|z l IH]; intros x; cbn.
  - split; [lia|]. intros y Hy. by apply elem_of_nil in Hy.
  - destruct (IH (Z.min x z)) as [H1 H2]. split; [lia|].
    intros y [->|Hy]%elem_of_cons; [lia|auto].
Qed.

Lemma fold_left_min_elem (l : list Z) (x : Z) :
  fold_left Z.min l x ∈ x :: l.
Proof.
  revert x. induction l as [|z l IH]; intros x; cbn.
  - apply list_elem_of_here.
  - specialize (IH (Z.min x z)).
    apply elem_of_cons in IH as [IH|IH].
    + rewrite IH. destruct (Z.min_spec x z) as [[_ ->]|[_ ->]].
      * apply list_elem_of_here.
      * apply list_elem_of_further, list_elem_of_here.
    + by do 2 apply list_elem_of_further.
Qed.

Lemma min_list_spec (l : list Z) (m : Z) :
  min_list l = Some m → m ∈ l ∧ ∀ y, y ∈ l → m ≤ y.
Proof.
  destruct l as [|x l]; [done|]. cbn. intros [= <-]. split.
  - apply fold_left_min_elem.
  - destruct (fold_left_min_le l x) as [H1 H2].
    intros y [->|Hy]%elem_of_cons; auto.
Qed.

(** C3, as stated, fails: the second of two horizontal wires starts at
    x = 5, and its [add] event is placed at x = 0, the left edge of the
    layer. *)
Lemma add_event_not_at_own_x1 :
  let h1 := Wire.mk "h1" 0 0 10 0 0 in
  let h2 := Wire.mk "h2" 5 1 8 1 1 in
  let layer := WireLayer.mk [("h1", h1); ("h2", h2)] in
  staggered_layer = Ret tt (layer, 2)
  ∧ CrossVerifier._events_from_layer layer []
    = inr [mk_event 0 0 0 "add" h1; mk_event 0 0 1 "add" h2]
  ∧ Wire.is_horizontal h2 = true
  ∧ ¬ ∃ e, CrossVerifier._events_from_layer layer [] = inr [mk_event 0 0 0 "add" h1; e]
           ∧ ev_wire e = h2 ∧ ev_x e = Wire.x1 h2.
Proof.
  cbv zeta. split; [reflexivity|]. split; [reflexivity|].
  split; [reflexivity|].
  intros (e & He & _ & Hx). vm_compute in He. injection He as <-.
  discriminate Hx.
Qed.

(** C3 (amended): every horizontal wire gets an [add] event at the left
    edge of the layer, the least [x1] of all its wires, and every wire that
    is not horizontal gets a [query] event at its own x-coordinate. *)
Theorem events_from_layer_spec (layer : WireLayer.t) (evs : list event) :
  CrossVerifier._events_from_layer layer [] = inr evs →
  ∃ left_edge,
    left_edge ∈ Wire.x1 <$> WireLayer.values layer
    ∧ (∀ w, w ∈ WireLayer.values layer → left_edge ≤ Wire.x1 w)
    ∧ ∀ w, w ∈ WireLayer.values layer →
        (Wire.is_horizontal w = true →
           mk_event left_edge 0 (Wire.object_id w) "add" w ∈ evs)
        ∧ (Wire.is_horizontal w = false →
           mk_event (Wire.x1 w) 1 (Wire.object_id w) "query" w ∈ evs).
Proof.
  unfold CrossVerifier._events_from_layer.
  destruct (min_list (Wire.x1 <$> WireLayer.values layer)) as [m|] eqn:Hm;
    [|done].
  intros [= <-]. apply min_list_spec in Hm as [Hin Hle].
  exists m. split; [done|]. split.
  - intros w Hw. apply Hle. by apply list_elem_of_fmap_2.
  - intros w Hw. rewrite fold_left_snoc. cbn.
    apply (list_elem_of_fmap_2 (CrossVerifier.event_of_wire m)) in Hw.
    unfold CrossVerifier.event_of_wire in Hw at 1.
    split; intros Hh; by rewrite Hh in Hw.
Qed.

Lemma events_from_layer_spec_witness :
  let h := Wire.mk "h" 0 0 10 0 0 in
  let v := Wire.mk "v" 5 (-5) 5 5 1 in
  ∃ left_edge,
    left_edge ∈ Wire.x1 <$> [h; v]
    ∧ (∀ w, w ∈ [h; v] → left_edge ≤ Wire.x1 w)
    ∧ ∀ w, w ∈ [h; v] →
        (Wire.is_horizontal w = true →
           mk_event left_edge 0 (Wire.object_id w) "add" w
           ∈ [mk_event 0 0 0 "add" h; mk_event 5 1 1 "query" v])
        ∧ (Wire.is_horizontal w = false →
           mk_event (Wire.x1 w) 1 (Wire.object_id w) "query" w
           ∈ [mk_event 0 0 0 "add" h; mk_event 5 1 1 "query" v]).
Proof.
  intros h v.
  apply (events_from_layer_spec (WireLayer.mk [("h", h); ("v", v)])).
  reflexivity.
Defined.

(** Sorting only reorders the events. *)
Lemma insert_event_perm e s r :
  insert_event e s = inr r → r ≡ₚ e :: s.
Proof.
  revert r. induction s as [|e' s IH]; intros r; cbn.
  - by intros [= <-].
  - destruct (event_lt e e') as [|[|]]; [done| by intros [= <-] |].
    destruct (insert_event e s) as [|r']; [done|]. intros [= <-].
    rewrite (IH r' eq_refl). apply Permutation_swap.
Qed.

Lemma sort_events_perm l r : sort_events l = inr r → r ≡ₚ l.
Proof.
  unfold sort_events.
  assert (H : ∀ acc r, fold_left
    (λ acc e, match acc with inl x => inl x | inr s => insert_event e s end)
    l acc = inr r → ∃ s, acc = inr s ∧ r ≡ₚ s ++ l).
  { induction l as [|e l IH]; intros acc r'; cbn.
    - intros ->. eexists. split; [done|]. by rewrite app_nil_r.
    - intros H. apply IH in H as (s' & Hs' & Hr).
      destruct acc as [|s]; [done|]. exists s. split; [done|].
      apply insert_event_perm in Hs'. rewrite Hr, Hs'.
      cbn. apply Permutation_middle. }
  intros Hs. apply H in Hs as (s & [= <-] & Hr). done.
Qed.


(** ** Attributes that no index operation assigns *)

Lemma keeps_bind {S A B C} (f : S → C) (c : M S A) (k : A → M S B) :
  keeps f c → (∀ a, keeps f (k a)) → keeps f (c ≫= k).
Proof.
  intros Hc Hk s. specialize (Hc s). unfold mbind, M_bind.
  destruct (c s) as [a s'| | |]; try done.
  specialize (Hk a s'). destruct (k a s'); congruence.
Qed.

Lemma keeps_mret {S A C} (f : S → C) (a : A) : keeps f (mret a : M S A).
Proof. by intros s. Qed.

Lemma keeps_raise {S A C} (f : S → C) e : keeps f (raise e : M S A).
Proof. by intros s. Qed.

Lemma keeps_getattr {A} (f : BSTnode.t → A) node : keeps data (getattr f node).
Proof.
  intros s. unfold getattr. destruct node; [|done]. by destruct (_ !! _).
Qed.

Lemma keeps_getattr_opt {A} (f : BSTnode.t → option A) node :
  keeps data (getattr_opt f node).
Proof.
  apply keeps_bind; [apply keeps_getattr|].
  intros [?|]; [apply keeps_mret | apply keeps_raise].
Qed.

Lemma keeps_setattr upd node : keeps data (setattr upd node).
Proof.
  intros s. unfold setattr. destruct node; [|done]. by destruct (_ !! _).
Qed.

Lemma keeps_set_root v : keeps data (set_root v).
Proof. by intros s. Qed.

Lemma keeps_height node : keeps data (height node).
Proof. destruct node; [apply keeps_getattr_opt | apply keeps_mret]. Qed.

Create HintDb keeps discriminated.
#[local] Hint Resolve keeps_mret keeps_raise keeps_getattr keeps_getattr_opt
  keeps_setattr keeps_set_root keeps_height : keeps.

Ltac keeps_step :=
  first
    [ solve [auto with keeps]
    | apply keeps_bind; [|intros ?]
    | match goal with
      | |- keeps _ (match ?x with _ => _ end) => destruct x
      | |- keeps _ (if ?b then _ else _) => destruct b
      end ].

Lemma keeps_update_height node : keeps data (update_height node).
Proof. unfold update_height. repeat keeps_step. Qed.

Lemma keeps_number_below r l : keeps data (number_below r l).
Proof. unfold number_below. repeat keeps_step. Qed.

#[local] Hint Resolve keeps_update_height keeps_number_below : keeps.

Lemma keeps_update_number_below node : keeps data (update_number_below node).
Proof. unfold update_number_below. repeat keeps_step. Qed.

#[local] Hint Resolve keeps_update_number_below : keeps.

Lemma keeps_left_rotate x : keeps data (RangeIndex.left_rotate x).
Proof. unfold RangeIndex.left_rotate. repeat keeps_step. Qed.

Lemma keeps_right_rotate y : keeps data (RangeIndex.right_rotate y).
Proof. unfold RangeIndex.right_rotate. repeat keeps_step. Qed.

#[local] Hint Resolve keeps_left_rotate keeps_right_rotate : keeps.

Lemma keeps_rebalance_step node :
  keeps data (RangeIndex.rebalance_step node).
Proof.
  unfold RangeIndex.rebalance_step, RangeIndex.left_of, RangeIndex.right_of.
  repeat keeps_step.
Qed.

#[local] Hint Resolve keeps_rebalance_step : keeps.

Lemma keeps_rebalance fuel node : keeps data (RangeIndex.rebalance fuel node).
Proof.
  revert node.
  induction fuel as [|fuel IH]; intros [a|]; cbn [RangeIndex.rebalance];
    try solve [auto with keeps]; [by intros s|].
  repeat keeps_step.
Qed.

Lemma keeps_add_loop fuel key new node :
  keeps data (RangeIndex.add_loop fuel key new node).
Proof.
  revert node. induction fuel as [|fuel IH]; intros node; cbn;
    [by intros s|].
  repeat keeps_step.
Qed.

#[local] Hint Resolve keeps_rebalance keeps_add_loop : keeps.

Lemma keeps_add fuel key : keeps data (RangeIndex.add fuel key).
Proof.
  unfold RangeIndex.add. destruct key; [|auto with keeps].
  apply keeps_bind; [by intros s|intros new].
  apply keeps_bind; [by intros s|intros r].
  repeat keeps_step.
Qed.

Lemma keeps_find_loop fuel key node :
  keeps data (RangeIndex.find_loop fuel key node).
Proof.
  revert node. induction fuel as [|fuel IH]; intros [a|]; cbn;
    try solve [auto with keeps]; [by intros s|].
  repeat keeps_step.
Qed.

#[local] Hint Resolve keeps_find_loop : keeps.

Lemma keeps_pop_node fuel key : keeps data (RangeIndex.pop_node fuel key).
Proof.
  unfold RangeIndex.pop_node, RangeIndex.find.
  apply keeps_bind.
  { apply keeps_bind; [by intros s|intros r]. auto with keeps. }
  intros node. repeat keeps_step.
Qed.

Lemma keeps_run_ops fuel ops : keeps data (run_ops fuel ops).
Proof.
  induction ops as [|o ops IH]; [apply keeps_mret|].
  unfold run_ops. cbn [foldr]. apply keeps_bind; [|by intros _].
  destruct o; unfold run_op; [apply keeps_add|].
  apply keeps_bind; [apply keeps_pop_node|intros ?; apply keeps_mret].
Qed.

(** ** Range queries *)

(** C2: in every state that a sequence of [add] and [pop_node] calls
    reaches from a new index, [list] and [count] raise [AttributeError]:
    they read [self.data], which nothing assigns.  They return neither the
    stored keys in the range nor their number. *)
Theorem list_count_raise (fuel : nat) (ops : list op) (s : index_state)
    (first_key last_key : KeyWirePair.t) :
  run_ops fuel ops RangeIndex.__init__ = Ret tt s →
  RangeIndex.list first_key last_key s = Raise AttributeError s
  ∧ RangeIndex.count first_key last_key s = Raise AttributeError s.
Proof.
  intros Hrun. pose proof (keeps_run_ops fuel ops RangeIndex.__init__) as Hk.
  rewrite Hrun in Hk. cbn in Hk.
  unfold RangeIndex.list, RangeIndex.count, RangeIndex.self_data.
  unfold mbind, M_bind. by rewrite Hk.
Qed.

Lemma list_count_raise_witness :
  ∃ s, run_ops 5 [Add (sample_key 1)] RangeIndex.__init__ = Ret tt s
       ∧ RangeIndex.list (KeyWirePairL 0) (KeyWirePairH 2) s
         = Raise AttributeError s
       ∧ RangeIndex.count (KeyWirePairL 0) (KeyWirePairH 2) s
         = Raise AttributeError s.
Proof.
  eexists. split; [vm_compute; reflexivity|].
  apply (list_count_raise 5 [Add (sample_key 1)]). vm_compute. reflexivity.
Defined.

(** Had [data] held the stored keys, [count] would be the length of
    [list]. *)
Lemma count_is_length_of_list first_key last_key s d :
  data s = Some d →
  ∃ l, RangeIndex.list first_key last_key s = Ret l s
       ∧ RangeIndex.count first_key last_key s = Ret (Z.of_nat (length l)) s
       ∧ ∀ k, k ∈ l ↔ k ∈ d ∧ RangeIndex.in_range first_key last_key k = true.
Proof.
  intros Hd.
  unfold RangeIndex.list, RangeIndex.count, RangeIndex.self_data.
  unfold mbind, M_bind. rewrite Hd. cbn. eexists. split; [done|]. split.
  - f_equal.
    assert (H : ∀ acc, fold_left
      (λ result key,
         if RangeIndex.in_range first_key last_key key
         then result + 1 else result) d acc
      = acc + Z.of_nat (length
          (filter (λ key, RangeIndex.in_range first_key last_key key = true) d))).
    { clear Hd. induction d as [|k d IH]; intros acc; [cbn; lia|].
      cbn [fold_left]. rewrite IH, filter_cons.
      destruct (RangeIndex.in_range first_key last_key k) eqn:Hk.
      - rewrite decide_True by done. cbn [length]. lia.
      - rewrite decide_False by done. lia. }
    rewrite H. lia.
  - intros k. by rewrite list_elem_of_filter, (comm and).
Qed.

(** ** Single use of a verifier *)







Lemma count_crossings_eq fuel s :
  CrossVerifier.count_crossings fuel s
  = if CrossVerifier.performed s then Raise RuntimeError s
    else CrossVerifier._compute_crossings fuel true
           (CrossVerifier.mk (CrossVerifier.events s) (CrossVerifier.index s)
              (CrossVerifier.result_set s) true).
Proof.
  cbv [CrossVerifier.count_crossings mbind M_bind mret M_ret get_state raise
       CrossVerifier.set_performed].
  by destruct (CrossVerifier.performed s).
Qed.

Lemma wire_crossings_eq fuel s :
  CrossVerifier.wire_crossings fuel s
  = if CrossVerifier.performed s then Raise RuntimeError s
    else CrossVerifier._compute_crossings fuel false
           (CrossVerifier.mk (CrossVerifier.events s) (CrossVerifier.index s)
              (CrossVerifier.result_set s) true).
Proof.
  cbv [CrossVerifier.wire_crossings mbind M_bind mret M_ret get_state raise
       CrossVerifier.set_performed].
  by destruct (CrossVerifier.performed s).
Qed.


(** Once [performed] is set, both methods raise. *)
Lemma later_calls_raise fuel s :
  CrossVerifier.performed s = true →
  CrossVerifier.count_crossings fuel s = Raise RuntimeError s
  ∧ CrossVerifier.wire_crossings fuel s = Raise RuntimeError s.
Proof.
  intros Hp. by rewrite count_crossings_eq, wire_crossings_eq, Hp.
Qed.

(** C8: on the layer with the crossing wires [h] and [v], the first call
    of either method does not succeed: it raises [AttributeError] when the
    [query] event of [v] calls [index.list].  The call has set
    [performed], so a second call raises as the claim says. *)
Theorem first_call_raises :
  let h := Wire.mk "h" 0 0 10 0 0 in
  let v := Wire.mk "v" 5 (-5) 5 5 1 in
  let layer := WireLayer.mk [("h", h); ("v", v)] in
  let cv := CrossVerifier.mk
              [mk_event 0 0 0 "add" h; mk_event 5 1 1 "query" v]
              RangeIndex.__init__ ResultSet.__init__ false in
  crossing_layer = Ret tt (layer, 2)
  ∧ CrossVerifier.__init__ layer = inr cv
  ∧ (∃ s, CrossVerifier.count_crossings 5 cv = Raise AttributeError s
          ∧ CrossVerifier.performed s = true
          ∧ CrossVerifier.count_crossings 5 s = Raise RuntimeError s)
  ∧ (∃ s, CrossVerifier.wire_crossings 5 cv = Raise AttributeError s
          ∧ CrossVerifier.performed s = true
          ∧ CrossVerifier.wire_crossings 5 s = Raise RuntimeError s).
Proof.
  cbv zeta. split; [reflexivity|]. split; [reflexivity|].
  split; eexists; (split; [vm_compute; reflexivity|]);
    (split; [reflexivity|]); by apply later_calls_raise.
Qed.

(** C9: on the same layer [h] and [v] cross, and [wire_crossings] raises
    [AttributeError] with nothing recorded, where the claim expects the one
    pair [["h"; "v"]]. *)
Theorem wire_crossings_raises :
  let h := Wire.mk "h" 0 0 10 0 0 in
  let v := Wire.mk "v" 5 (-5) 5 5 1 in
  let cv := CrossVerifier.mk
              [mk_event 0 0 0 "add" h; mk_event 5 1 1 "query" v]
              RangeIndex.__init__ ResultSet.__init__ false in
  CrossVerifier.__init__ (WireLayer.mk [("h", h); ("v", v)]) = inr cv
  ∧ Wire.intersects h v = true
  ∧ Wire.intersects v h = true
  ∧ ResultSet.sorted2 (Wire.name v) (Wire.name h) = ["h"; "v"]
  ∧ ∃ s, CrossVerifier.wire_crossings 5 cv = Raise AttributeError s
         ∧ ResultSet.crossings (CrossVerifier.result_set s) = [].
Proof.
  cbv zeta. repeat (split; [reflexivity|]).
  eexists. split; [vm_compute; reflexivity|reflexivity].
Qed.

(** ** Removal *)

(** C5: after adding the keys 2, 1, 3, 4 the node of key 3 is the right
    child of the root and has the right child 4.  [pop_node] of key 3
    stores that child in the [left] link of the root, which drops key 1,
    and leaves the [right] link of the root on the node of key 3: the
    in-order traversal afterwards is 4, 2, 3. *)
Theorem pop_node_right_child :
  ∃ s t,
    (run_ops 10 (Add <$> (sample_key <$> [2; 1; 3; 4]));;
     RangeIndex.pop_node 10 (sample_key 3)) RangeIndex.__init__
    = Ret (Some 2%nat) s
    ∧ index_tree s = Some t
    ∧ inorder t = sample_key <$> [4; 2; 3].
Proof.
  eexists _, _. split; [vm_compute; reflexivity|].
  split; vm_compute; reflexivity.
Qed.

(** A key that is not stored makes [pop_node] raise [AttributeError], from
    reading [node.parent] of [None]. *)
Lemma pop_node_absent_key :
  ∃ s, (run_ops 10 (Add <$> (sample_key <$> [2; 1; 3; 4]));;
        RangeIndex.pop_node 10 (sample_key 9)) RangeIndex.__init__
       = Raise AttributeError s.
Proof. eexists. vm_compute. reflexivity. Qed.

(** ** Invariants: where the claim fails *)

(** C1, as stated, fails in three ways: [pop_node] of a right child leaves
    the traversal out of order; after a single [add] the cached count of
    the only node is 0, not 1; and adding the same key twice stores it
    twice. *)
Lemma claimed_invariants_fail :
  (∃ s, run_ops 10 (Add (sample_key 2) :: Add (sample_key 1)
                    :: Add (sample_key 3) :: Add (sample_key 4)
                    :: [PopNode (sample_key 3)]) RangeIndex.__init__
        = Ret tt s
        ∧ ¬ claimed_invariants s)
  ∧ (∃ s, run_ops 10 [Add (sample_key 1)] RangeIndex.__init__ = Ret tt s
          ∧ ¬ claimed_invariants s)
  ∧ (∃ s, run_ops 10 [Add (sample_key 1); Add (sample_key 1)]
            RangeIndex.__init__ = Ret tt s
          ∧ ¬ claimed_invariants s).
Proof.
  split; [|split]; eexists; (split; [vm_compute; reflexivity|]);
    intros (t & Ht & Hasc & Hbal & Hcnt);
    vm_compute in Ht; injection Ht as <-.
  - apply Sorted_inv in Hasc as [_ Hhd].
    apply HdRel_inv in Hhd. discriminate Hhd.
  - cbn in Hcnt. destruct Hcnt as (_ & _ & Hc). discriminate Hc.
  - apply Sorted_inv in Hasc as [_ Hhd].
    apply HdRel_inv in Hhd. discriminate Hhd.
Qed.

(** ** Reading and writing the store *)

Lemma getattr_Some {A} (f : BSTnode.t → A) a s n :
  cells s !! a = Some n → getattr f (Some a) s = Ret (f n) s.
Proof. intros H. unfold getattr. by rewrite H. Qed.

Lemma setattr_Some upd a s n :
  cells s !! a = Some n →
  setattr upd (Some a) s
  = Ret tt (mk_index_state (root s) (data s) (<[a := upd n]> (cells s))
              (next_addr s)).
Proof. intros H. unfold setattr. by rewrite H. Qed.

Lemma height_root s par t :
  repr (cells s) par t → has_cache t →
  height (root_of t) s = Ret (cached_height t) s.
Proof.
  destruct t as [|l a k h c r]; [done|]. intros [Ha _] [[h' ->] _]. cbn.
  unfold getattr_opt. erewrite bind_Ret by (by apply getattr_Some). done.
Qed.

Lemma number_below_root s par t :
  repr (cells s) par t → has_cache t → t ≠ E →
  getattr_opt BSTnode.number_below (root_of t) s = Ret (cached_below t) s.
Proof.
  destruct t as [|l a k h c r]; [done|]. intros [Ha _] [_ [c' ->]] _. cbn.
  unfold getattr_opt. erewrite bind_Ret by (by apply getattr_Some). done.
Qed.

Lemma number_below_roots s pl pr l r :
  repr (cells s) pl l → repr (cells s) pr r → has_cache l → has_cache r →
  number_below (root_of r) (root_of l) s = Ret (below l r) s.
Proof.
  intros Hl Hr Hcl Hcr. unfold number_below, below.
  destruct r as [|rl ra rk rh rc rr], l as [|ll la lk lh lc lr];
    cbn [root_of]; try done.
  - erewrite bind_Ret
      by (by apply (number_below_root s pl (T ll la lk lh lc lr))). done.
  - erewrite bind_Ret
      by (by apply (number_below_root s pr (T rl ra rk rh rc rr))). done.
  - erewrite bind_Ret
      by (by apply (number_below_root s pl (T ll la lk lh lc lr))).
    erewrite bind_Ret
      by (by apply (number_below_root s pr (T rl ra rk rh rc rr))). done.
Qed.

(** ** Nodes that a write does not touch *)

Lemma repr_insert_ne m par t z n :
  z ∉ addrs t → repr m par t → repr (<[z := n]> m) par t.
Proof.
  revert par. induction t as [|l IHl a k h c r IHr]; intros par; [done|].
  cbn. rewrite !not_elem_of_app, not_elem_of_cons.
  intros (Hl & Ha & Hr) (Hm & Hrl & Hrr).
  rewrite lookup_insert_ne by done. auto.
Qed.

Lemma ctx_repr_insert_ne m rt hole C z n :
  z ∉ ctx_addrs C → ctx_repr m rt hole C →
  ctx_repr (<[z := n]> m) rt hole C.
Proof.
  revert hole. induction C as [|[a k h c r|l a k h c] C IH]; intros hole;
    [done| |]; cbn;
    rewrite not_elem_of_cons, not_elem_of_app;
    intros (Ha & Hs & HC) (Hm & Hrs & Hctx);
    rewrite lookup_insert_ne by done; auto using repr_insert_ne.
Qed.

Lemma bind_assoc {S A B C} (c : M S A) (k1 : A → M S B) (k2 : B → M S C) s :
  ((c ≫= k1) ≫= k2) s = (c ≫= λ a, k1 a ≫= k2) s.
Proof. unfold mbind, M_bind. by destruct (c s). Qed.

Lemma bind_mret {S A B} (a : A) (k : A → M S B) s : (mret a ≫= k) s = k a s.
Proof. done. Qed.

Lemma bind_set_root {B} v (k : unit → M index_state B) s :
  (set_root v ≫= k) s
  = k tt (mk_index_state v (data s) (cells s) (next_addr s)).
Proof. done. Qed.

(** ** Symbolic execution of the link updates *)

(** Distinctness of the nodes, as facts about single nodes and subtrees. *)
Lemma disj_app_l (l1 l2 k : list nat) :
  (∀ x, x ∈ l1 ++ l2 → x ∉ k) →
  (∀ x, x ∈ l1 → x ∉ k) ∧ (∀ x, x ∈ l2 → x ∉ k).
Proof. set_solver. Qed.

Lemma disj_cons_l (a : nat) (l k : list nat) :
  (∀ x, x ∈ (a :: l) → x ∉ k) → (a ∉ k) ∧ (∀ x, x ∈ l → x ∉ k).
Proof. set_solver. Qed.

Lemma disj_app_r (l k1 k2 : list nat) :
  (∀ x, x ∈ l → x ∉ k1 ++ k2) →
  (∀ x, x ∈ l → x ∉ k1) ∧ (∀ x, x ∈ l → x ∉ k2).
Proof. set_solver. Qed.

Lemma disj_cons_r (l : list nat) (a : nat) (k : list nat) :
  (∀ x, x ∈ l → x ∉ (a :: k)) → (a ∉ l) ∧ (∀ x, x ∈ l → x ∉ k).
Proof. set_solver. Qed.

Ltac split_nodup :=
  repeat match goal with
  | H : NoDup (_ ++ _) |- _ => apply NoDup_app in H as (? & ? & ?)
  | H : NoDup (_ :: _) |- _ => apply NoDup_cons in H as (? & ?)
  | H : NoDup [] |- _ => clear H
  | H : ∀ x : nat, x ∈ (_ ++ _) → x ∉ _ |- _ => apply disj_app_l in H as [? ?]
  | H : ∀ x : nat, x ∈ (_ :: _) → x ∉ _ |- _ => apply disj_cons_l in H as [? ?]
  | H : ∀ x : nat, x ∈ [] → x ∉ _ |- _ => clear H
  | H : ∀ x : nat, x ∈ _ → x ∉ _ ++ _ |- _ => apply disj_app_r in H as [? ?]
  | H : ∀ x : nat, x ∈ _ → x ∉ _ :: _ |- _ => apply disj_cons_r in H as [? ?]
  | H : ∀ x : nat, x ∈ _ → x ∉ [] |- _ => clear H
  | H : _ ∉ _ ++ _ |- _ => apply not_elem_of_app in H as [? ?]
  | H : _ ∉ _ :: _ |- _ => apply not_elem_of_cons in H as [? ?]
  | H : _ ∉ [] |- _ => clear H
  end.

Lemma root_of_addrs t z : root_of t = Some z → z ∈ addrs t.
Proof. destruct t; [done|]. intros [= ->]. cbn. set_solver. Qed.

Ltac neq_tac :=
  first [assumption | apply not_eq_sym; assumption | congruence].

Ltac notin_tac :=
  first [assumption
        | rewrite ?not_elem_of_app, ?not_elem_of_cons;
          repeat split; first [assumption | neq_tac | apply not_elem_of_nil] ].

Ltac lookup_tac :=
  cbn [cells root data next_addr];
  repeat first [rewrite lookup_insert_eq | rewrite lookup_insert_ne by neq_tac];
  first [eassumption | reflexivity].

Ltac mstep :=
  first
    [ rewrite bind_assoc
    | erewrite bind_Ret by (apply getattr_Some; lookup_tac)
    | erewrite bind_Ret by (apply setattr_Some; lookup_tac)
    | rewrite bind_mret
    | rewrite bind_set_root
    | rewrite bool_decide_eq_true_2 by done
    | rewrite bool_decide_eq_false_2
        by first [done | intros ?%root_of_addrs; contradiction] ];
  cbn [BSTnode.key BSTnode.left BSTnode.right BSTnode.parent BSTnode.height
       BSTnode.number_below BSTnode.set_left BSTnode.set_right
       BSTnode.set_parent cells root data next_addr];
  cbv beta iota.

Ltac repr_tac :=
  repeat (apply repr_insert_ne; [notin_tac|]); first [eassumption | done].

Ltac ctx_tac :=
  repeat (apply ctx_repr_insert_ne; [notin_tac|]);
  first [eassumption | done].

Ltac focus_tac :=
  cbn [ctx_repr repr cells root data next_addr root_of ctx_parent frame_addr];
  repeat match goal with
  | |- _ ∧ _ => split
  | |- _ !! _ = Some _ => lookup_tac
  | |- repr _ _ _ => repr_tac
  | |- ctx_repr _ _ _ _ => ctx_tac
  | |- _ = _ => reflexivity
  | |- True => exact I
  end.

(** The link updates of [left_rotate] turn the subtree [a x (b y c)] at
    the focus into [(a x b) y c]; it remains to refresh the cached
    attributes of [x] and then of [y]. *)
Lemma left_rotate_links s C a x kx hx cx b y ky hy cy c :
  at_focus s C (T a x kx hx cx (T b y ky hy cy c)) →
  ∃ s1,
    RangeIndex.left_rotate (Some x) s
    = (update_height (Some x);; update_number_below (Some x);;
       update_height (Some y);; update_number_below (Some y)) s1
    ∧ at_focus s1 C (T (T a x kx hx cx b) y ky hy cy c)
    ∧ data s1 = data s ∧ next_addr s1 = next_addr s.
Proof.
  intros (Hctx & (Hx & Hra & Hy & Hrb & Hrc) & Hnd).
  assert (Hnd' : NoDup (ctx_addrs C ++ addrs (T (T a x kx hx cx b) y ky hy cy c))).
  { cbn [addrs] in *. by rewrite <- app_assoc. }
  revert Hnd'.
  cbn [addrs root_of ctx_parent] in *.
  destruct s as [rt d m nx]. cbn [cells root data next_addr] in *.
  destruct C as [|[p pk ph pc pr|pl p pk ph pc] C'], b as [|bl b0 bk bh bc br];
    cbn [ctx_repr ctx_addrs app addrs root_of ctx_parent frame_addr repr] in *;
    try subst rt; destruct_and?; split_nodup; intros Hnd';
    (eexists; split;
     [ unfold RangeIndex.left_rotate; repeat mstep; reflexivity
     | split; [split; [|split; [|exact Hnd']]; focus_tac | done] ]).
Qed.

Lemma right_rotate_links s C a x kx hx cx b y ky hy cy c :
  at_focus s C (T (T a x kx hx cx b) y ky hy cy c) →
  ∃ s1,
    RangeIndex.right_rotate (Some y) s
    = (update_height (Some y);; update_number_below (Some y);;
       update_height (Some x);; update_number_below (Some x)) s1
    ∧ at_focus s1 C (T a x kx hx cx (T b y ky hy cy c))
    ∧ data s1 = data s ∧ next_addr s1 = next_addr s.
Proof.
  intros (Hctx & (Hy & (Hx & Hra & Hrb) & Hrc) & Hnd).
  assert (Hnd' : NoDup (ctx_addrs C ++ addrs (T a x kx hx cx (T b y ky hy cy c)))).
  { cbn [addrs] in *. by rewrite <- app_assoc in Hnd. }
  revert Hnd'.
  cbn [addrs root_of ctx_parent] in *.
  destruct s as [rt d m nx]. cbn [cells root data next_addr] in *.
  destruct C as [|[p pk ph pc pr|pl p pk ph pc] C'], b as [|bl b0 bk bh bc br];
    cbn [ctx_repr ctx_addrs app addrs root_of ctx_parent frame_addr repr] in *;
    try subst rt; destruct_and?; split_nodup; intros Hnd';
    (eexists; split;
     [ unfold RangeIndex.right_rotate; repeat mstep; reflexivity
     | split; [split; [|split; [|exact Hnd']]; focus_tac | done] ]).
Qed.

(** ** Refreshing the cached attributes of the focus *)

Lemma update_height_focus s C l a k h c r :
  at_focus s C (T l a k h c r) → has_cache l → has_cache r →
  ∃ s', update_height (Some a) s = Ret tt s'
        ∧ at_focus s' C
            (T l a k (Some (Z.max (cached_height r) (cached_height l) + 1))
               c r)
        ∧ data s' = data s ∧ next_addr s' = next_addr s.
Proof.
  intros (Hctx & (Ha & Hrl & Hrr) & Hnd) Hcl Hcr.
  destruct s as [rt d m nx]. cbn [cells root data next_addr] in *.
  eexists. split.
  { unfold update_height. mstep.
    erewrite bind_Ret by (by eapply height_root). mstep.
    erewrite bind_Ret by (by eapply height_root).
    apply setattr_Some. lookup_tac. }
  split; [|done]. cbn [addrs] in *. split; [|split; [|done]].
  - cbn [cells root]. apply ctx_repr_insert_ne; [|done].
    split_nodup. notin_tac.
  - split_nodup. focus_tac.
Qed.

Lemma update_number_below_focus s C l a k h c r :
  at_focus s C (T l a k h c r) → has_cache l → has_cache r →
  ∃ s', update_number_below (Some a) s = Ret tt s'
        ∧ at_focus s' C (T l a k h (Some (below l r)) r)
        ∧ data s' = data s ∧ next_addr s' = next_addr s.
Proof.
  intros (Hctx & (Ha & Hrl & Hrr) & Hnd) Hcl Hcr.
  destruct s as [rt d m nx]. cbn [cells root data next_addr] in *.
  eexists. split.
  { unfold update_number_below. mstep. mstep.
    erewrite bind_Ret by (by eapply number_below_roots).
    apply setattr_Some. lookup_tac. }
  split; [|done]. cbn [addrs] in *. split; [|split; [|done]].
  - cbn [cells root]. apply ctx_repr_insert_ne; [|done].
    split_nodup. notin_tac.
  - split_nodup. focus_tac.
Qed.

Lemma update_focus s C l a k h c r :
  at_focus s C (T l a k h c r) → has_cache l → has_cache r →
  ∃ s', (∀ K : M index_state unit,
           (update_height (Some a);; update_number_below (Some a);; K) s
           = K s')
        ∧ at_focus s' C (node l a k r)
        ∧ data s' = data s ∧ next_addr s' = next_addr s.
Proof.
  intros Hf Hcl Hcr.
  destruct (update_height_focus _ _ _ _ _ _ _ _ Hf Hcl Hcr)
    as (s1 & Hrun1 & Hf1 & Hd1 & Hn1).
  destruct (update_number_below_focus _ _ _ _ _ _ _ _ Hf1 Hcl Hcr)
    as (s2 & Hrun2 & Hf2 & Hd2 & Hn2).
  exists s2. split; [|split; [done|split; congruence]].
  intros K.
  erewrite bind_Ret by exact Hrun1. by erewrite bind_Ret by exact Hrun2.
Qed.

(** ** Moving the focus *)

Lemma focus_left s C l a k h c r :
  at_focus s C (T l a k h c r) ↔ at_focus s (InL a k h c r :: C) l.
Proof.
  unfold at_focus.
  cbn [ctx_repr repr root_of ctx_parent frame_addr ctx_addrs addrs].
  assert (HP : ctx_addrs C ++ addrs l ++ a :: addrs r
               ≡ₚ (a :: addrs r ++ ctx_addrs C) ++ addrs l).
  { do 2 rewrite <- Permutation_middle. cbn. constructor.
    rewrite <- (app_assoc (addrs r)).
    rewrite (Permutation_app_comm (addrs r)). by rewrite <- app_assoc. }
  rewrite HP. tauto.
Qed.

Lemma focus_right s C l a k h c r :
  at_focus s C (T l a k h c r) ↔ at_focus s (InR l a k h c :: C) r.
Proof.
  unfold at_focus.
  cbn [ctx_repr repr root_of ctx_parent frame_addr ctx_addrs addrs].
  assert (HP : ctx_addrs C ++ addrs l ++ a :: addrs r
               ≡ₚ (a :: addrs l ++ ctx_addrs C) ++ addrs r).
  { do 2 rewrite <- Permutation_middle. cbn. constructor.
    rewrite app_assoc. apply Permutation_app_tail, Permutation_app_comm. }
  rewrite HP. tauto.
Qed.

(** ** Rotations *)

Lemma has_cache_node l a k r : has_cache (node l a k r).
Proof. split; eauto. Qed.

Lemma update_focus_end s C l a k h c r :
  at_focus s C (T l a k h c r) → has_cache l → has_cache r →
  ∃ s', (update_height (Some a);; update_number_below (Some a)) s = Ret tt s'
        ∧ at_focus s' C (node l a k r)
        ∧ data s' = data s ∧ next_addr s' = next_addr s.
Proof.
  intros Hf Hcl Hcr.
  destruct (update_height_focus _ _ _ _ _ _ _ _ Hf Hcl Hcr)
    as (s1 & Hrun1 & Hf1 & Hd1 & Hn1).
  destruct (update_number_below_focus _ _ _ _ _ _ _ _ Hf1 Hcl Hcr)
    as (s2 & Hrun2 & Hf2 & Hd2 & Hn2).
  exists s2. split; [|split; [done|split; congruence]].
  by erewrite bind_Ret by exact Hrun1.
Qed.

(** [left_rotate] and [right_rotate] at the focus: the rotated subtree
    with refreshed caches, everything else untouched. *)
Lemma left_rotate_focus s C a x kx hx cx b y ky hy cy c :
  at_focus s C (T a x kx hx cx (T b y ky hy cy c)) →
  has_cache a → has_cache b → has_cache c →
  ∃ s', RangeIndex.left_rotate (Some x) s = Ret tt s'
        ∧ at_focus s' C (node (node a x kx b) y ky c)
        ∧ data s' = data s ∧ next_addr s' = next_addr s.
Proof.
  intros Hf Ha Hb Hc.
  destruct (left_rotate_links _ _ _ _ _ _ _ _ _ _ _ _ _ Hf)
    as (s1 & -> & Hf1 & Hd1 & Hn1).
  apply focus_left in Hf1.
  destruct (update_focus _ _ _ _ _ _ _ _ Hf1 Ha Hb)
    as (s2 & -> & Hf2 & Hd2 & Hn2).
  apply focus_left in Hf2.
  destruct (update_focus_end _ _ _ _ _ _ _ _ Hf2 (has_cache_node _ _ _ _) Hc)
    as (s3 & Hrun & Hf3 & Hd3 & Hn3).
  exists s3. repeat split; [done|apply Hf3..|congruence|congruence].
Qed.

Lemma right_rotate_focus s C a x kx hx cx b y ky hy cy c :
  at_focus s C (T (T a x kx hx cx b) y ky hy cy c) →
  has_cache a → has_cache b → has_cache c →
  ∃ s', RangeIndex.right_rotate (Some y) s = Ret tt s'
        ∧ at_focus s' C (node a x kx (node b y ky c))
        ∧ data s' = data s ∧ next_addr s' = next_addr s.
Proof.
  intros Hf Ha Hb Hc.
  destruct (right_rotate_links _ _ _ _ _ _ _ _ _ _ _ _ _ Hf)
    as (s1 & -> & Hf1 & Hd1 & Hn1).
  apply focus_right in Hf1.
  destruct (update_focus _ _ _ _ _ _ _ _ Hf1 Hb Hc)
    as (s2 & -> & Hf2 & Hd2 & Hn2).
  apply focus_right in Hf2.
  destruct (update_focus_end _ _ _ _ _ _ _ _ Hf2 Ha (has_cache_node _ _ _ _))
    as (s3 & Hrun & Hf3 & Hd3 & Hn3).
  exists s3. repeat split; [done|apply Hf3..|congruence|congruence].
Qed.

(** ** Cached heights of AVL trees *)

Lemma avl_has_cache t : avl t → has_cache t.
Proof. destruct t; [done|]. intros (_ & _ & -> & -> & _). split; eauto. Qed.

Lemma avl_height_ge t : avl t → -1 ≤ cached_height t.
Proof.
  induction t as [|l IHl a k h c r IHr]; [done|].
  intros (Hl & Hr & -> & _ & _). cbn. specialize (IHl Hl). lia.
Qed.

Lemma avl_node l a k r :
  avl l → avl r → Z.abs (cached_height l - cached_height r) ≤ 1 →
  avl (node l a k r).
Proof. intros. cbn. auto. Qed.

(** ** What the loop body reads at the focus *)

Lemma read_focus s C l a k h c r :
  at_focus s C (T l a k h c r) → has_cache l → has_cache r →
  RangeIndex.left_of (Some a) s = Ret (root_of l) s
  ∧ RangeIndex.right_of (Some a) s = Ret (root_of r) s
  ∧ (RangeIndex.left_of (Some a) ≫= height) s = Ret (cached_height l) s
  ∧ (RangeIndex.right_of (Some a) ≫= height) s = Ret (cached_height r) s
  ∧ getattr BSTnode.parent (Some a) s = Ret (ctx_parent C) s.
Proof.
  intros (Hctx & (Ha & Hrl & Hrr) & Hnd) Hcl Hcr.
  unfold RangeIndex.left_of, RangeIndex.right_of.
  rewrite !(getattr_Some _ _ _ _ Ha). cbn.
  split; [done|]. split; [done|].
  split; [|split; [|done]].
  - erewrite bind_Ret by (by apply getattr_Some). by eapply height_root.
  - erewrite bind_Ret by (by apply getattr_Some). by eapply height_root.
Qed.

(** ** One iteration of [rebalance] *)

Ltac list_eq :=
  cbn [inorder addrs node];
  repeat progress (rewrite <- ?app_assoc; cbn [app]);
  reflexivity.

Ltac avl_lia :=
  cbn [cached_height node default from_option id] in *; lia.

(** One iteration on a focus whose subtrees are AVL trees and differ in
    height by at most 2 leaves an AVL tree with the same keys in the same
    order.  Either the focus is still its root and its height is the
    recomputed one, or a rotation took place: the heights differed by 2,
    the new height is the recomputed one or one less, and the parent
    link of the old focus leads to the new root. *)
Lemma rebalance_step_spec s C l a k h c r :
  at_focus s C (T l a k h c r) → avl l → avl r →
  Z.abs (cached_height l - cached_height r) ≤ 2 →
  ∃ s' t',
    RangeIndex.rebalance_step (Some a) s = Ret tt s'
    ∧ at_focus s' C t' ∧ avl t'
    ∧ inorder t' = inorder l ++ k :: inorder r
    ∧ addrs t' = addrs l ++ a :: addrs r
    ∧ data s' = data s ∧ next_addr s' = next_addr s
    ∧ ((root_of t' = Some a
        ∧ cached_height t'
          = Z.max (cached_height r) (cached_height l) + 1)
       ∨ (Z.abs (cached_height l - cached_height r) = 2
          ∧ Z.max (cached_height r) (cached_height l)
            ≤ cached_height t'
            ≤ Z.max (cached_height r) (cached_height l) + 1
          ∧ getattr BSTnode.parent (Some a) s' = Ret (root_of t') s')).
Proof.
  intros Hf Hl Hr Hd.
  pose proof (avl_has_cache _ Hl) as Hcl.
  pose proof (avl_has_cache _ Hr) as Hcr.
  pose proof (avl_height_ge _ Hl) as Hgl.
  pose proof (avl_height_ge _ Hr) as Hgr.
  unfold RangeIndex.rebalance_step.
  destruct (update_focus _ _ _ _ _ _ _ _ Hf Hcl Hcr)
    as (s1 & -> & Hf1 & Hd1 & Hn1).
  destruct (read_focus _ _ _ _ _ _ _ _ Hf1 Hcl Hcr)
    as (Hlo & Hro & Hhl & Hhr & Hpar).
  erewrite bind_Ret by exact Hlo. erewrite bind_Ret by exact Hro.
  assert ((l = E ∧ r = E)
          ∨ bool_decide (root_of l ≠ None) || bool_decide (root_of r ≠ None)
            = true) as [[-> ->]| ->].
  { destruct l, r; auto. }
  { exists s1, (node E a k E).
    split; [done|]. split; [done|].
    split; [apply avl_node; [done..|cbn; lia]|].
    repeat split; auto. }
  erewrite bind_Ret by exact Hhl. erewrite bind_Ret by exact Hhr.
  rewrite Z.geb_leb.
  destruct (Z.leb_spec (2 + cached_height r) (cached_height l)) as [Hc1|Hc1].
  - (* left-heavy *)
    destruct l as [|ll x lk lh lc lr]; [cbn in Hc1; lia|].
    pose proof Hl as (Hll & Hlr & -> & -> & Hbl).
    pose proof (avl_has_cache _ Hll) as Hcll.
    pose proof (avl_has_cache _ Hlr) as Hclr.
    pose proof (avl_height_ge _ Hll) as Hgll.
    pose proof (avl_height_ge _ Hlr) as Hglr.
    pose proof (proj1 (focus_left _ _ _ _ _ _ _ _) Hf1) as Hfl.
    destruct (read_focus _ _ _ _ _ _ _ _ Hfl Hcll Hclr)
      as (Hlo2 & Hro2 & Hhl2 & Hhr2 & _).
    erewrite bind_Ret;
      [|rewrite bind_assoc; erewrite bind_Ret by exact Hlo; exact Hhl2].
    erewrite bind_Ret;
      [|rewrite bind_assoc; erewrite bind_Ret by exact Hlo; exact Hhr2].
    rewrite Z.geb_leb.
    destruct (Z.leb_spec (cached_height lr) (cached_height ll)) as [Hc2|Hc2].
    + (* single right rotation *)
      destruct (right_rotate_focus _ _ _ _ _ _ _ _ _ _ _ _ _ Hf1 Hcll Hclr Hcr)
        as (s2 & Hrun & Hf2 & Hd2 & Hn2).
      exists s2, (node ll x lk (node lr a k r)).
      split; [done|]. split; [done|].
      split; [apply avl_node; [done|apply avl_node; [done..|avl_lia]|avl_lia]|].
      split; [list_eq|].
      split; [list_eq|].
      split; [congruence|]. split; [congruence|].
      right. split; [avl_lia|]. split; [avl_lia|].
      apply focus_right in Hf2.
      by destruct (read_focus _ _ _ _ _ _ _ _ Hf2 Hclr Hcr) as (_&_&_&_&?).
    + (* left rotation of the left child, then right rotation *)
      destruct lr as [|lrl z zk zh zc lrr]; [cbn in Hc2; lia|].
      pose proof Hlr as (Hlrl & Hlrr & -> & -> & Hblr).
      pose proof (avl_has_cache _ Hlrl) as Hclrl.
      pose proof (avl_has_cache _ Hlrr) as Hclrr.
      pose proof (avl_height_ge _ Hlrl) as Hglrl.
      pose proof (avl_height_ge _ Hlrr) as Hglrr.
      rewrite bind_assoc. erewrite bind_Ret by exact Hlo.
      destruct (left_rotate_focus _ _ _ _ _ _ _ _ _ _ _ _ _ Hfl
                  Hcll Hclrl Hclrr) as (s2 & Hrun2 & Hf2 & Hd2 & Hn2).
      erewrite bind_Ret by exact Hrun2.
      apply focus_left in Hf2.
      destruct (right_rotate_focus _ _ _ _ _ _ _ _ _ _ _ _ _ Hf2
                  (has_cache_node _ _ _ _) Hclrr Hcr)
        as (s3 & Hrun3 & Hf3 & Hd3 & Hn3).
      exists s3, (node (node ll x lk lrl) z zk (node lrr a k r)).
      split; [done|]. split; [done|].
      split; [apply avl_node; [apply avl_node; [done..|avl_lia]
                              |apply avl_node; [done..|avl_lia]|avl_lia]|].
      split; [list_eq|].
      split; [list_eq|].
      split; [congruence|]. split; [congruence|].
      right. split; [avl_lia|]. split; [avl_lia|].
      apply focus_right in Hf3.
      by destruct (read_focus _ _ _ _ _ _ _ _ Hf3 Hclrr Hcr) as (_&_&_&_&?).
  - erewrite bind_Ret by exact Hhr. erewrite bind_Ret by exact Hhl.
    rewrite Z.geb_leb.
    destruct (Z.leb_spec (2 + cached_height l) (cached_height r)) as [Hc3|Hc3].
    + (* right-heavy *)
      destruct r as [|rl y rk rh rc rr]; [cbn in Hc3; lia|].
      pose proof Hr as (Hrl & Hrr & -> & -> & Hbr).
      pose proof (avl_has_cache _ Hrl) as Hcrl.
      pose proof (avl_has_cache _ Hrr) as Hcrr.
      pose proof (avl_height_ge _ Hrl) as Hgrl.
      pose proof (avl_height_ge _ Hrr) as Hgrr.
      pose proof (proj1 (focus_right _ _ _ _ _ _ _ _) Hf1) as Hfr.
      destruct (read_focus _ _ _ _ _ _ _ _ Hfr Hcrl Hcrr)
        as (Hlo2 & Hro2 & Hhl2 & Hhr2 & _).
      erewrite bind_Ret;
        [|rewrite bind_assoc; erewrite bind_Ret by exact Hro; exact Hhr2].
      erewrite bind_Ret;
        [|rewrite bind_assoc; erewrite bind_Ret by exact Hro; exact Hhl2].
      rewrite Z.geb_leb.
      destruct (Z.leb_spec (cached_height rl) (cached_height rr)) as [Hc4|Hc4].
      * (* single left rotation *)
        destruct (left_rotate_focus _ _ _ _ _ _ _ _ _ _ _ _ _ Hf1
                    Hcl Hcrl Hcrr) as (s2 & Hrun & Hf2 & Hd2 & Hn2).
        exists s2, (node (node l a k rl) y rk rr).
        split; [done|]. split; [done|].
        split; [apply avl_node; [apply avl_node; [done..|avl_lia]|done
                                |avl_lia]|].
        split; [list_eq|].
        split; [list_eq|].
        split; [congruence|]. split; [congruence|].
        right. split; [avl_lia|]. split; [avl_lia|].
        apply focus_left in Hf2.
        by destruct (read_focus _ _ _ _ _ _ _ _ Hf2 Hcl Hcrl) as (_&_&_&_&?).
      * (* right rotation of the right child, then left rotation *)
        destruct rl as [|rll z zk zh zc rlr]; [cbn in Hc4; lia|].
        pose proof Hrl as (Hrll & Hrlr & -> & -> & Hbrl).
        pose proof (avl_has_cache _ Hrll) as Hcrll.
        pose proof (avl_has_cache _ Hrlr) as Hcrlr.
        pose proof (avl_height_ge _ Hrll) as Hgrll.
        pose proof (avl_height_ge _ Hrlr) as Hgrlr.
        rewrite bind_assoc. erewrite bind_Ret by exact Hro.
        destruct (right_rotate_focus _ _ _ _ _ _ _ _ _ _ _ _ _ Hfr
                    Hcrll Hcrlr Hcrr) as (s2 & Hrun2 & Hf2 & Hd2 & Hn2).
        erewrite bind_Ret by exact Hrun2.
        apply focus_right in Hf2.
        destruct (left_rotate_focus _ _ _ _ _ _ _ _ _ _ _ _ _ Hf2
                    Hcl Hcrll (has_cache_node _ _ _ _))
          as (s3 & Hrun3 & Hf3 & Hd3 & Hn3).
        exists s3, (node (node l a k rll) z zk (node rlr y rk rr)).
        split; [done|]. split; [done|].
        split; [apply avl_node; [apply avl_node; [done..|avl_lia]
                                |apply avl_node; [done..|avl_lia]|avl_lia]|].
        split; [list_eq|].
        split; [list_eq|].
        split; [congruence|]. split; [congruence|].
        right. split; [avl_lia|]. split; [avl_lia|].
        apply focus_left in Hf3.
        by destruct (read_focus _ _ _ _ _ _ _ _ Hf3 Hcl Hcrll) as (_&_&_&_&?).
    + (* balanced *)
      exists s1, (node l a k r).
      split; [done|]. split; [done|].
      split; [apply avl_node; [done..|lia]|].
      repeat split; auto.
Qed.

(** ** The loop of [rebalance] *)

Lemma rebalance_None fuel s : RangeIndex.rebalance fuel None s = Ret tt s.
Proof. by destruct fuel. Qed.

(** From a focus as above, inside a context whose side subtrees are
    balanced against the height [h0] that the focus had before the
    change, [rebalance] reaches the root with enough fuel and leaves an
    AVL tree with the keys in the same order. *)
Lemma rebalance_spec (fuel : nat) :
  ∀ s C l a k h c r h0,
    at_focus s C (T l a k h c r) → avl l → avl r →
    Z.abs (cached_height l - cached_height r) ≤ 2 →
    h0 ≤ Z.max (cached_height r) (cached_height l) + 1 ≤ h0 + 1 →
    (Z.abs (cached_height l - cached_height r) = 2 →
     Z.max (cached_height r) (cached_height l) + 1 = h0 + 1) →
    ctx_ok C h0 →
    (2 * length C
     + (if bool_decide (Z.abs (cached_height l - cached_height r) ≤ 1)%Z
        then 1 else 2) ≤ fuel)%nat →
    ∃ s' t',
      RangeIndex.rebalance fuel (Some a) s = Ret tt s'
      ∧ at_focus s' [] t' ∧ avl t'
      ∧ inorder t' = ctx_before C ++ (inorder l ++ k :: inorder r) ++ ctx_after C
      ∧ (∀ z, z ∈ addrs t' → z ∈ ctx_addrs C ++ addrs l ++ a :: addrs r)
      ∧ data s' = data s ∧ next_addr s' = next_addr s.
Proof.
  induction fuel as [|fuel IH]; intros s C l a k h c r h0 Hf Hl Hr Hd Hh0 Hh2 Hok Hfuel.
  { case_bool_decide; lia. }
  cbn [RangeIndex.rebalance].
  destruct (rebalance_step_spec _ _ _ _ _ _ _ _ Hf Hl Hr Hd)
    as (s1 & t1 & Hrun & Hf1 & Ht1 & Hin1 & Had1 & Hd1 & Hn1 & Hcase).
  erewrite bind_Ret by exact Hrun.
  destruct Hcase as [[Hroot Hht]|(Hd2 & Hht & Hpar)].
  - (* the subtree keeps its root: step to the parent frame *)
    destruct t1 as [|l1 a1 k1 h1 c1 r1]; [done|].
    injection Hroot as ->.
    pose proof Ht1 as (Hl1 & Hr1 & _).
    destruct (read_focus _ _ _ _ _ _ _ _ Hf1
                (avl_has_cache _ Hl1) (avl_has_cache _ Hr1))
      as (_ & _ & _ & _ & Hpar).
    erewrite bind_Ret by exact Hpar.
    destruct C as [|[p pk ph pc pr|pl p pk ph pc] C'].
    + exists s1, (T l1 a k1 h1 c1 r1). cbn [ctx_parent].
      split; [apply rebalance_None|]. split; [done|]. split; [done|].
      split; [cbn; by rewrite app_nil_r|]. split; [|done].
      intros z. by rewrite Had1.
    + destruct Hok as (Hpr & Hbal & Hok).
      apply focus_left in Hf1.
      cbn [length] in Hfuel.
      destruct (IH s1 C' (T l1 a k1 h1 c1 r1) p pk ph pc pr
                  (Z.max (cached_height pr) h0 + 1) Hf1 Ht1 Hpr)
        as (s2 & t2 & Hrun2 & Hf2 & Ht2 & Hin2 & Had2 & Hd2 & Hn2);
        [lia|lia|lia|done|repeat case_bool_decide; lia|].
      exists s2, t2. cbn [ctx_parent frame_addr].
      split; [done|]. split; [done|]. split; [done|].
      split; [|split; [|split; congruence]].
      * rewrite Hin2, Hin1. cbn [ctx_before ctx_after].
        by rewrite <- !app_assoc.
      * intros z Hz. apply Had2 in Hz. rewrite Had1 in Hz.
        cbn [ctx_addrs addrs]. revert Hz. clear.
        repeat first [rewrite elem_of_app | rewrite elem_of_cons]. tauto.
    + destruct Hok as (Hpl & Hbal & Hok).
      apply focus_right in Hf1.
      cbn [length] in Hfuel.
      destruct (IH s1 C' pl p pk ph pc (T l1 a k1 h1 c1 r1)
                  (Z.max h0 (cached_height pl) + 1) Hf1 Hpl Ht1)
        as (s2 & t2 & Hrun2 & Hf2 & Ht2 & Hin2 & Had2 & Hd2 & Hn2);
        [lia|lia|lia|done|repeat case_bool_decide; lia|].
      exists s2, t2. cbn [ctx_parent frame_addr].
      split; [done|]. split; [done|]. split; [done|].
      split; [|split; [|split; congruence]].
      * rewrite Hin2, Hin1. cbn [ctx_before ctx_after].
        rewrite <- !app_assoc. cbn [app]. by rewrite <- !app_assoc.
      * intros z Hz. apply Had2 in Hz. rewrite Had1 in Hz.
        cbn [ctx_addrs addrs]. revert Hz. clear.
        repeat first [rewrite elem_of_app | rewrite elem_of_cons]. tauto.
  - (* a rotation took place: the next node is the new root of the subtree *)
    erewrite bind_Ret by exact Hpar.
    pose proof (avl_height_ge _ Hl) as Hgl.
    pose proof (avl_height_ge _ Hr) as Hgr.
    destruct t1 as [|l1 x k1 h1 c1 r1]; [cbn in Hht; lia|].
    pose proof Ht1 as (Hl1 & Hr1 & Hh1 & _ & Hb1).
    subst h1. cbn [cached_height default from_option id] in Hht.
    rewrite bool_decide_eq_false_2 in Hfuel by lia.
    destruct (IH s1 C l1 x k1 _ c1 r1 h0 Hf1 Hl1 Hr1)
      as (s2 & t2 & Hrun2 & Hf2 & Ht2 & Hin2 & Had2 & Hd2' & Hn2);
      [lia|lia|lia|done|rewrite bool_decide_eq_true_2 by lia; lia|].
    exists s2, t2. cbn [root_of].
    split; [done|]. split; [done|]. split; [done|].
    split; [|split; [|split; congruence]].
    + rewrite Hin2. cbn [inorder] in Hin1. by rewrite Hin1.
    + intros z Hz. apply Had2 in Hz. cbn [addrs] in Had1.
      by rewrite Had1 in Hz.
Qed.

(** ** The order on keys *)

#[global] Instance kwp_lt_trans : Transitive kwp_lt.
Proof.
  intros a b c. unfold kwp_lt, KeyWirePair.__lt__.
  rewrite !orb_true_iff, !andb_true_iff, !Z.ltb_lt, !Z.eqb_eq. lia.
Qed.

Lemma kwp_lt_total a b :
  KeyWirePair.__lt__ a b = false → kwp_id a ≠ kwp_id b → kwp_lt b a.
Proof.
  unfold kwp_lt, KeyWirePair.__lt__, kwp_id.
  rewrite orb_false_iff, andb_false_iff, orb_true_iff, andb_true_iff,
    !Z.ltb_lt, !Z.ltb_ge, !Z.eqb_eq, Z.eqb_neq.
  intros [H1 H2] Hne.
  destruct (decide (KeyWirePair.key a = KeyWirePair.key b)) as [He|He].
  - right. split; [done|]. destruct H2 as [H2|H2]; [done|].
    destruct (decide (KeyWirePair.wire_id a = KeyWirePair.wire_id b));
      [congruence|lia].
  - left. lia.
Qed.

(** ** Linking a new leaf *)

Lemma attach_leaf_left s C a k h c r new key :
  at_focus s C (T E a k h c r) →
  cells s !! new = Some (BSTnode.__init__ key) →
  new ∉ ctx_addrs C ++ addrs (T E a k h c r) →
  ∃ s', (setattr (BSTnode.set_left (Some new)) (Some a);;
         setattr (BSTnode.set_parent (Some a)) (Some new)) s = Ret tt s'
        ∧ at_focus s' (InL a k h c r :: C) (T E new key None None E)
        ∧ data s' = data s ∧ next_addr s' = next_addr s.
Proof.
  intros Hf Hnew Hfresh.
  pose proof (proj1 (focus_left _ _ _ _ _ _ _ _) Hf) as (_ & _ & Hnd0).
  destruct Hf as (Hctx & (Ha & _ & Hrr) & Hnd).
  cbn [addrs app] in *. rewrite app_nil_r in Hnd0.
  destruct s as [rt d m nx]. cbn [cells root data next_addr] in *.
  assert (NoDup ((a :: addrs r ++ ctx_addrs C) ++ [new])) as Hnd'.
  { apply NoDup_app. split; [done|]. split; [|apply NoDup_singleton].
    intros x Hx ->%list_elem_of_singleton. apply Hfresh.
    revert Hx. clear.
    repeat first [rewrite elem_of_app | rewrite elem_of_cons]. tauto. }
  revert Hnd'. split_nodup. intros Hnd'.
  eexists. split.
  { erewrite bind_Ret by (apply setattr_Some; lookup_tac).
    apply setattr_Some. lookup_tac. }
  split; [|done]. split; [|split; [|exact Hnd']]; focus_tac.
Qed.

Lemma attach_leaf_right s C l a k h c new key :
  at_focus s C (T l a k h c E) →
  cells s !! new = Some (BSTnode.__init__ key) →
  new ∉ ctx_addrs C ++ addrs (T l a k h c E) →
  ∃ s', (setattr (BSTnode.set_right (Some new)) (Some a);;
         setattr (BSTnode.set_parent (Some a)) (Some new)) s = Ret tt s'
        ∧ at_focus s' (InR l a k h c :: C) (T E new key None None E)
        ∧ data s' = data s ∧ next_addr s' = next_addr s.
Proof.
  intros Hf Hnew Hfresh.
  pose proof (proj1 (focus_right _ _ _ _ _ _ _ _) Hf) as (_ & _ & Hnd0).
  destruct Hf as (Hctx & (Ha & Hrl & _) & Hnd).
  cbn [addrs app] in *. rewrite app_nil_r in Hnd0.
  destruct s as [rt d m nx]. cbn [cells root data next_addr] in *.
  assert (NoDup ((a :: addrs l ++ ctx_addrs C) ++ [new])) as Hnd'.
  { apply NoDup_app. split; [done|]. split; [|apply NoDup_singleton].
    intros x Hx ->%list_elem_of_singleton. apply Hfresh.
    revert Hx. clear.
    repeat first [rewrite elem_of_app | rewrite elem_of_cons
                 | rewrite elem_of_nil]. tauto. }
  revert Hnd'. split_nodup. intros Hnd'.
  eexists. split.
  { erewrite bind_Ret by (apply setattr_Some; lookup_tac).
    apply setattr_Some. lookup_tac. }
  split; [|done]. split; [|split; [|exact Hnd']]; focus_tac.
Qed.

(** ** The descent of [add] *)

Lemma sorted_insert_middle (B A : list KeyWirePair.t) key :
  StronglySorted kwp_lt (B ++ A) →
  (∀ b, b ∈ B → kwp_lt b key) → (∀ a, a ∈ A → kwp_lt key a) →
  StronglySorted kwp_lt (B ++ key :: A).
Proof.
  rewrite !StronglySorted_app, StronglySorted_cons, Forall_forall.
  intros (HBA & HB & HA) Hb Ha. split; [|done].
  intros x1 x2 Hx1 [->|Hx2]%elem_of_cons; auto.
Qed.

Ltac len_lia :=
  repeat progress (cbn [length addrs] in *; rewrite ?length_app in * );
  lia.

(** The descent links the new node as a leaf at the place where its key
    belongs: the keys before the leaf are below the new key, the keys
    after it are above. *)
Lemma add_loop_spec key new :
  ∀ t fuel s C,
    t ≠ E → at_focus s C t → avl t → ctx_ok C (cached_height t) →
    cells s !! new = Some (BSTnode.__init__ key) →
    new ∉ ctx_addrs C ++ addrs t →
    (length (addrs t) ≤ fuel)%nat →
    StronglySorted kwp_lt (ctx_before C ++ inorder t ++ ctx_after C) →
    (∀ b, b ∈ ctx_before C → kwp_lt b key) →
    (∀ a, a ∈ ctx_after C → kwp_lt key a) →
    kwp_id key ∉ kwp_id <$> inorder t →
    ∃ s' C',
      RangeIndex.add_loop fuel key new (root_of t) s = Ret tt s'
      ∧ at_focus s' C' (T E new key None None E)
      ∧ ctx_ok C' (-1)
      ∧ StronglySorted kwp_lt (ctx_before C' ++ key :: ctx_after C')
      ∧ ctx_before C' ++ key :: ctx_after C'
        ≡ₚ key :: ctx_before C ++ inorder t ++ ctx_after C
      ∧ (length C' ≤ length C + length (addrs t))%nat
      ∧ (∀ z, z ∈ ctx_addrs C' → z ∈ ctx_addrs C ++ addrs t)
      ∧ data s' = data s ∧ next_addr s' = next_addr s.
Proof.
  induction t as [|l IHl a k h c r IHr];
    intros fuel s C Hne Hf Ht Hok Hnew Hfresh Hfuel Hss Hb Ha Hid; [done|].
  destruct fuel as [|fuel].
  { cbn in Hfuel. rewrite length_app in Hfuel. cbn in Hfuel. lia. }
  pose proof Ht as (Hl & Hr & Hh & Hc & Hbal).
  pose proof Hf as (_ & (Hla & _ & _) & _).
  cbn [RangeIndex.add_loop root_of].
  erewrite bind_Ret by (by apply getattr_Some). cbn [BSTnode.key].
  cbn [inorder] in Hss, Hid.
  assert (Hidk : kwp_id key ≠ kwp_id k).
  { intros Heq. apply Hid. rewrite Heq. apply list_elem_of_fmap_2.
    rewrite elem_of_app, elem_of_cons. auto. }
  assert (Hidl : kwp_id key ∉ kwp_id <$> inorder l).
  { intros Hin. apply Hid. rewrite fmap_app, elem_of_app. auto. }
  assert (Hidr : kwp_id key ∉ kwp_id <$> inorder r).
  { intros Hin. apply Hid. rewrite fmap_app, fmap_cons, elem_of_app,
      elem_of_cons. auto. }
  cbn [addrs] in Hfuel. rewrite length_app in Hfuel. cbn [length] in Hfuel.
  destruct (KeyWirePair.__lt__ key k) eqn:Hlt.
  - (* go left *)
    erewrite bind_Ret by (by apply getattr_Some). cbn [BSTnode.left].
    assert (Ha' : ∀ x, x ∈ k :: inorder r ++ ctx_after C → kwp_lt key x).
    { intros x [->|[Hx|Hx]%elem_of_app]%elem_of_cons; [done| |by apply Ha].
      transitivity k; [done|].
      apply StronglySorted_app_1_r, StronglySorted_app_1_l,
        StronglySorted_app_1_r in Hss.
      apply StronglySorted_cons in Hss as [Hss _].
      by eapply Forall_forall in Hss. }
    destruct l as [|ll x lk lh lc lr].
    + destruct (attach_leaf_left _ _ _ _ _ _ _ _ _ Hf Hnew Hfresh)
        as (s' & Hrun & Hf' & Hd' & Hn').
      exists s', (InL a k h c r :: C). cbn [root_of].
      split; [done|]. split; [done|].
      split.
      { cbn [ctx_ok]. subst h. cbn [cached_height default from_option id] in *.
        split; [done|]. split; [lia|done]. }
      cbn [ctx_before ctx_after inorder app] in *.
      split; [by apply sorted_insert_middle|].
      split; [by rewrite <- Permutation_middle|].
      split; [cbn; lia|]. split; [|done].
      intros z. cbn [ctx_addrs addrs app]. clear.
      repeat first [rewrite elem_of_app | rewrite elem_of_cons]. tauto.
    + apply focus_left in Hf.
      destruct (IHl fuel s (InL a k h c r :: C)) as
        (s' & C' & Hrun & Hf' & Hok' & Hss' & Hperm & Hlen & Had & Hd' & Hn');
        try done.
      * cbn [ctx_ok]. subst h. cbn [cached_height default from_option id] in *.
        split; [done|]. split; [lia|done].
      * revert Hfresh. cbn [ctx_addrs addrs]. clear.
        repeat first [rewrite elem_of_app | rewrite elem_of_cons]. tauto.
      * len_lia.
      * cbn [ctx_before ctx_after]. by rewrite <- app_assoc in Hss.
      * exists s', C'. split; [done|]. split; [done|]. split; [done|].
        split; [done|]. split; [|split; [|split; [|done]]].
        -- rewrite Hperm. cbn [ctx_before ctx_after inorder].
           repeat progress (rewrite <- ?app_assoc; cbn [app]). done.
        -- len_lia.
        -- intros z Hz. apply Had in Hz. revert Hz.
           cbn [ctx_addrs addrs]. clear.
           repeat first [rewrite elem_of_app | rewrite elem_of_cons]. tauto.
  - (* go right *)
    erewrite bind_Ret by (by apply getattr_Some). cbn [BSTnode.right].
    pose proof (kwp_lt_total _ _ Hlt Hidk) as Hkl.
    assert (Hb' : ∀ x, x ∈ ctx_before C ++ inorder l ++ [k] → kwp_lt x key).
    { intros x [Hx|[Hx| ->%list_elem_of_singleton]%elem_of_app]%elem_of_app;
        [by apply Hb| |done].
      transitivity k; [|done].
      apply StronglySorted_app_1_r, StronglySorted_app_1_l in Hss.
      eapply StronglySorted_app_1_elem_of; [exact Hss|done|].
      apply list_elem_of_here. }
    destruct r as [|rl y rk rh rc rr].
    + destruct (attach_leaf_right _ _ _ _ _ _ _ _ _ Hf Hnew Hfresh)
        as (s' & Hrun & Hf' & Hd' & Hn').
      exists s', (InR l a k h c :: C). cbn [root_of].
      split; [done|]. split; [done|].
      split.
      { cbn [ctx_ok]. subst h. cbn [cached_height default from_option id] in *.
        split; [done|]. split; [lia|done]. }
      cbn [ctx_before ctx_after inorder app] in *.
      split.
      { apply sorted_insert_middle; [by rewrite <- app_assoc|done..]. }
      split.
      { rewrite <- Permutation_middle. constructor.
        repeat progress (rewrite <- ?app_assoc; cbn [app]). done. }
      split; [cbn [length addrs]; rewrite length_app; cbn [length]; lia|].
      split; [|done].
      intros z. cbn [ctx_addrs addrs app]. clear.
      repeat first [rewrite elem_of_app | rewrite elem_of_cons
                   | rewrite elem_of_nil]. tauto.
    + apply focus_right in Hf.
      destruct (IHr fuel s (InR l a k h c :: C)) as
        (s' & C' & Hrun & Hf' & Hok' & Hss' & Hperm & Hlen & Had & Hd' & Hn');
        try done.
      * cbn [ctx_ok]. subst h. cbn [cached_height default from_option id] in *.
        split; [done|]. split; [lia|done].
      * revert Hfresh. cbn [ctx_addrs addrs]. clear.
        repeat first [rewrite elem_of_app | rewrite elem_of_cons]. tauto.
      * len_lia.
      * cbn [ctx_before ctx_after]. rewrite <- !app_assoc. cbn [app].
        by rewrite <- !app_assoc in Hss.
      * exists s', C'. split; [done|]. split; [done|]. split; [done|].
        split; [done|]. split; [|split; [|split; [|done]]].
        -- rewrite Hperm. cbn [ctx_before ctx_after inorder].
           repeat progress (rewrite <- ?app_assoc; cbn [app]). done.
        -- len_lia.
        -- intros z Hz. apply Had in Hz. revert Hz.
           cbn [ctx_addrs addrs]. clear.
           repeat first [rewrite elem_of_app | rewrite elem_of_cons]. tauto.
Qed.

(** ** [add] *)

Lemma length_inorder t : length (inorder t) = length (addrs t).
Proof.
  induction t as [|l IHl a k h c r IHr]; [done|].
  cbn. rewrite !length_app. cbn. lia.
Qed.

(** [add] of a key that is not stored yet keeps [index_ok] and stores the
    key. *)
Lemma add_spec fuel key s t :
  index_ok s t → kwp_id key ∉ kwp_id <$> inorder t →
  (2 * length (inorder t) + 3 ≤ fuel)%nat →
  ∃ s' t',
    RangeIndex.add fuel (Some key) s = Ret tt s'
    ∧ index_ok s' t' ∧ inorder t' ≡ₚ key :: inorder t.
Proof.
  intros (Hf & Ht & Hss & Hlt & Hdata) Hid Hfuel.
  rewrite length_inorder in Hfuel.
  unfold RangeIndex.add.
  destruct s as [rt d m new]. destruct Hf as (Hroot & Hrepr & Hnd).
  cbn [cells root data next_addr ctx_repr ctx_parent ctx_addrs app] in *.
  subst rt.
  set (s0 := mk_index_state (root_of t) d
               (<[new := BSTnode.__init__ key]> m) (S new)).
  assert (Hfresh : new ∉ addrs t).
  { intros Hin%Hlt. lia. }
  assert (Hf0 : at_focus s0 [] t).
  { split; [done|]. split; [|done]. by apply repr_insert_ne. }
  assert (Hnew0 : cells s0 !! new = Some (BSTnode.__init__ key)).
  { cbn. apply lookup_insert_eq. }
  erewrite bind_Ret by reflexivity.
  erewrite bind_Ret by reflexivity.
  fold s0. change (root s0) with (root_of t).
  assert (∃ s1 C',
    match root_of t with
    | Some _ => RangeIndex.add_loop fuel key new (root_of t)
    | None => set_root (Some new)
    end s0 = Ret tt s1
    ∧ at_focus s1 C' (T E new key None None E)
    ∧ ctx_ok C' (-1)
    ∧ StronglySorted kwp_lt (ctx_before C' ++ key :: ctx_after C')
    ∧ ctx_before C' ++ key :: ctx_after C' ≡ₚ key :: inorder t
    ∧ (length C' ≤ length (addrs t))%nat
    ∧ (∀ z, z ∈ ctx_addrs C' → z ∈ addrs t)
    ∧ data s1 = d ∧ next_addr s1 = S new)
    as (s1 & C' & Hrun1 & Hf1 & Hok1 & Hss1 & Hperm1 & Hlen1 & Had1
        & Hd1 & Hn1).
  { destruct t as [|l a k h c r].
    - exists (mk_index_state (Some new) d
                (<[new := BSTnode.__init__ key]> m) (S new)), [].
      cbn [root_of]. split; [done|]. split.
      { split; [done|]. split; [|apply NoDup_singleton].
        cbn. by rewrite lookup_insert_eq. }
      split; [done|]. split; [repeat constructor|].
      split; [done|]. split; [done|]. split; [done|]. done.
    - destruct (add_loop_spec key new (T l a k h c r) fuel s0 [])
        as (s1 & C' & Hrun & Hf' & Hok' & Hss' & Hperm & Hlen & Had
            & Hd' & Hn'); try done.
      + lia.
      + cbn [ctx_before ctx_after app]. by rewrite app_nil_r.
      + intros b Hb. by apply elem_of_nil in Hb.
      + intros b Hb. by apply elem_of_nil in Hb.
      + exists s1, C'. cbn [root_of] in *. split; [done|]. split; [done|].
        split; [done|]. split; [done|].
        cbn [ctx_before ctx_after ctx_addrs app length] in *.
        rewrite app_nil_r in Hperm. done. }
  erewrite bind_Ret by exact Hrun1.
  destruct (rebalance_spec fuel s1 C' E new key None None E (-1))
    as (s2 & t2 & Hrun2 & Hf2 & Ht2 & Hin2 & Had2 & Hd2 & Hn2);
    try done.
  { cbn [cached_height]. rewrite bool_decide_eq_true_2 by lia. lia. }
  cbn [inorder app] in Hin2. cbn [addrs app] in Had2.
  exists s2, t2. split; [done|]. split.
  - split; [done|]. split; [done|]. split; [by rewrite Hin2|].
    split; [|congruence].
    intros z Hz%Had2. rewrite Hn2, Hn1.
    apply elem_of_app in Hz as [Hz|Hz%list_elem_of_singleton].
    + apply Had1, Hlt in Hz. lia.
    + subst z. lia.
  - by rewrite Hin2.
Qed.

(** ** From the store to the stored tree *)

Lemma inorder_plug C t :
  inorder (plug C t) = ctx_before C ++ inorder t ++ ctx_after C.
Proof.
  revert t. induction C as [|[a k h c r|l a k h c] C IH]; intros t; cbn.
  - by rewrite app_nil_r.
  - rewrite IH. cbn. by rewrite <- app_assoc.
  - rewrite IH. cbn. rewrite <- !app_assoc. done.
Qed.

Lemma tree_of_repr m par t fuel :
  repr m par t → (depth t ≤ fuel)%nat → tree_of fuel m (root_of t) = Some t.
Proof.
  revert par fuel. induction t as [|l IHl a k h c r IHr]; intros par fuel.
  { by destruct fuel. }
  intros (Ha & Hl & Hr) Hfuel. cbn [depth] in Hfuel.
  destruct fuel as [|fuel]; [lia|].
  cbn [tree_of root_of]. rewrite Ha. cbn.
  rewrite (IHl (Some a) fuel Hl), (IHr (Some a) fuel Hr) by lia. done.
Qed.

Lemma depth_le_length t : (depth t ≤ length (addrs t))%nat.
Proof.
  induction t as [|l IHl a k h c r IHr]; [done|].
  cbn. rewrite length_app. cbn. lia.
Qed.

Lemma NoDup_bounded_length (l : list nat) (n : nat) :
  NoDup l → (∀ z, z ∈ l → (z < n)%nat) → (length l ≤ n)%nat.
Proof.
  intros Hnd Hlt. trans (length (seq 0 n)); [|by rewrite length_seq].
  apply NoDup_incl_length; [by apply NoDup_ListNoDup|].
  intros z Hz%list_elem_of_In%Hlt. apply in_seq. lia.
Qed.

Lemma index_ok_tree s t : index_ok s t → index_tree s = Some t.
Proof.
  intros ((Hroot & Hrepr & Hnd) & _ & _ & Hlt & _).
  cbn [ctx_repr ctx_addrs app ctx_parent] in *.
  unfold index_tree. rewrite Hroot.
  eapply tree_of_repr; [done|].
  etransitivity; [apply depth_le_length|].
  by apply NoDup_bounded_length.
Qed.

(** ** Cached attributes of AVL trees *)

Lemma avl_subtree_height t : avl t → subtree_height t = cached_height t.
Proof.
  induction t as [|l IHl a k h c r IHr]; [done|].
  intros (Hl & Hr & -> & _ & _). cbn. rewrite IHl, IHr by done. lia.
Qed.

Lemma avl_height_balanced t : avl t → height_balanced t.
Proof.
  induction t as [|l IHl a k h c r IHr]; [done|].
  intros (Hl & Hr & _ & _ & Hb). cbn.
  rewrite !avl_subtree_height by done. auto.
Qed.

Lemma avl_height_is_cached t : avl t → height_is_cached t.
Proof.
  induction t as [|l IHl a k h c r IHr]; [done|].
  intros (Hl & Hr & -> & _ & _). cbn [height_is_cached].
  split; [auto|]. split; [auto|].
  cbn. rewrite !avl_subtree_height by done. f_equal. lia.
Qed.

Lemma avl_cached_below t :
  avl t → t ≠ E → cached_below t = subtree_count t - 1.
Proof.
  induction t as [|l IHl a k h c r IHr]; [done|].
  intros (Hl & Hr & _ & -> & _) _. cbn [cached_below default from_option id].
  unfold below. cbn [subtree_count].
  destruct r as [|rl ra rk rh rc rr], l as [|ll la lk lh lc lr];
    rewrite ?IHl, ?IHr by done; cbn [subtree_count]; lia.
Qed.

Lemma avl_count_is_number_below t : avl t → count_is_number_below t.
Proof.
  induction t as [|l IHl a k h c r IHr]; [done|].
  intros (Hl & Hr & _ & -> & _). cbn [count_is_number_below].
  split; [auto|]. split; [auto|]. f_equal. unfold below.
  destruct r as [|rl ra rk rh rc rr], l as [|ll la lk lh lc lr];
    rewrite ?(avl_cached_below (T ll la lk lh lc lr)),
      ?(avl_cached_below (T rl ra rk rh rc rr)) by done;
    cbn [subtree_count]; lia.
Qed.

Lemma index_ok_invariants s t : index_ok s t → index_invariants s.
Proof.
  intros Hok. exists t. split; [by apply index_ok_tree|].
  destruct Hok as (_ & Ht & Hss & _).
  split; [by apply StronglySorted_Sorted|].
  split; [by apply avl_height_balanced|by apply avl_count_is_number_below].
Qed.

(** ** Sequences of [add] *)

Lemma index_ok_init : index_ok RangeIndex.__init__ E.
Proof.
  split; [|split; [done|split; [constructor|split; [|done]]]].
  - split; [done|]. split; [done|]. constructor.
  - intros z Hz. by apply elem_of_nil in Hz.
Qed.

Lemma run_adds_spec fuel (ks : list KeyWirePair.t) :
  ∀ s t,
    index_ok s t →
    NoDup (kwp_id <$> ks) →
    (∀ k, k ∈ ks → kwp_id k ∉ kwp_id <$> inorder t) →
    (2 * (length ks + length (inorder t)) + 1 ≤ fuel)%nat →
    ∃ s' t',
      run_ops fuel (Add <$> ks) s = Ret tt s'
      ∧ index_ok s' t' ∧ inorder t' ≡ₚ ks ++ inorder t.
Proof.
  induction ks as [|k ks IH]; intros s t Hok Hnd Hnew Hfuel.
  { exists s, t. by split. }
  cbn [fmap list_fmap] in Hnd. apply NoDup_cons in Hnd as [Hk Hnd].
  destruct (add_spec fuel k s t Hok) as (s1 & t1 & Hrun1 & Hok1 & Hperm1).
  { apply Hnew, list_elem_of_here. }
  { cbn [length] in Hfuel. lia. }
  destruct (IH s1 t1 Hok1 Hnd) as (s2 & t2 & Hrun2 & Hok2 & Hperm2).
  { intros k' Hk'. rewrite Hperm1, fmap_cons, not_elem_of_cons. split.
    - intros Heq. apply Hk. rewrite <- Heq. by apply list_elem_of_fmap_2.
    - apply Hnew. by apply list_elem_of_further. }
  { rewrite Hperm1. cbn [length] in *. lia. }
  exists s2, t2. split; [|split; [done|]].
  - change (Add <$> k :: ks) with (Add k :: (Add <$> ks)).
    unfold run_ops. cbn [foldr run_op].
    erewrite bind_Ret by exact Hrun1. exact Hrun2.
  - rewrite Hperm2, Hperm1. cbn. by rewrite <- Permutation_middle.
Qed.

(** C1 (amended): after any sequence of [add] calls with pairwise distinct
    keys on a new index, the in-order traversal is strictly ascending, the
    heights of the two subtrees of every node differ by at most 1, and the
    cached [number_below] of every node is the number of nodes of its left
    subtree plus the number of nodes of its right subtree.  A loop budget
    of twice the number of keys plus one suffices. *)
Theorem add_keeps_invariants (fuel : nat) (ks : list KeyWirePair.t) :
  NoDup (kwp_id <$> ks) →
  (2 * length ks + 1 ≤ fuel)%nat →
  ∃ s, run_ops fuel (Add <$> ks) RangeIndex.__init__ = Ret tt s
       ∧ index_invariants s.
Proof.
  intros Hnd Hfuel.
  destruct (run_adds_spec fuel ks _ E index_ok_init Hnd)
    as (s & t & Hrun & Hok & _).
  { intros k _ Hin. by apply elem_of_nil in Hin. }
  { cbn [inorder length]. lia. }
  exists s. split; [done|]. by eapply index_ok_invariants.
Qed.

Lemma add_keeps_invariants_witness :
  ∃ s, run_ops 7 (Add <$> (sample_key <$> [3; 1; 2])) RangeIndex.__init__
       = Ret tt s
       ∧ index_invariants s.
Proof.
  apply (add_keeps_invariants 7 (sample_key <$> [3; 1; 2])).
  - cbn. repeat constructor; rewrite ?not_elem_of_cons, ?elem_of_nil;
      intuition discriminate.
  - cbn. lia.
Defined.

(** The keys stored after such a sequence are the keys added, and every
    cached height is the height of its subtree. *)
Lemma add_stores_keys (fuel : nat) (ks : list KeyWirePair.t) :
  NoDup (kwp_id <$> ks) →
  (2 * length ks + 1 ≤ fuel)%nat →
  ∃ s t, run_ops fuel (Add <$> ks) RangeIndex.__init__ = Ret tt s
         ∧ index_tree s = Some t
         ∧ inorder t ≡ₚ ks
         ∧ height_is_cached t.
Proof.
  intros Hnd Hfuel.
  destruct (run_adds_spec fuel ks _ E index_ok_init Hnd)
    as (s & t & Hrun & Hok & Hperm).
  { intros k _ Hin. by apply elem_of_nil in Hin. }
  { cbn [inorder length]. lia. }
  exists s, t. split; [done|]. split; [by apply index_ok_tree|].
  split; [by rewrite app_nil_r in Hperm|].
  apply avl_height_is_cached, Hok.
Qed.

(** * Further properties *)

(** ** Wires and layers *)

(** X1: [intersects] is symmetric in its two wires. *)
Theorem intersects_sym (a b : Wire.t) :
  Wire.intersects a b = Wire.intersects b a.
Proof.
  unfold Wire.intersects.
  destruct (Wire.is_horizontal a), (Wire.is_horizontal b); reflexivity.
Qed.

Lemma Wire_init_result name x1 y1 x2 y2 n :
  Wire.__init__ name x1 y1 x2 y2 n
  = if bool_decide (x1 = x2 ∨ y1 = y2)
    then Ret (Wire.mk name (Z.min x1 x2) (Z.min y1 y2)
                (Z.max x1 x2) (Z.max y1 y2) n) (n + 1)
    else Raise ValueError (n + 1).
Proof.
  unfold Wire.__init__, Wire.is_horizontal, Wire.is_vertical.
  destruct (Z.gtb_spec x1 x2), (Z.gtb_spec y1 y2); run;
    repeat match goal with
    | |- context [?a =? ?b] => destruct (Z.eqb_spec a b)
    end; cbn; case_bool_decide; try lia;
    try (f_equal; f_equal; lia).
Qed.

Lemma layer_ok_init : layer_ok (WireLayer.__init__, 0).
Proof. repeat split; try constructor; done. Qed.

(** X2: [add_wire] keeps a layer well formed, whether it returns or
    raises: names stay pairwise distinct and equal to the dict keys,
    identifiers stay pairwise distinct and below the counter, and every
    stored wire is normalized and horizontal or vertical.  When it returns,
    the wire it built is the last value of the layer; when it raises, the
    layer is the one it was given. *)
Theorem add_wire_keeps_layer_ok (name : string) (x1 y1 x2 y2 : Z)
    (st : WireLayer.t * Z) :
  layer_ok st →
  match WireLayer.add_wire name x1 y1 x2 y2 st with
  | Ret _ st' =>
      layer_ok st'
      ∧ ∃ w, WireLayer.wires st'.1 = WireLayer.wires st.1 ++ [(name, w)]
             ∧ Wire.object_id w = st.2 ∧ st'.2 = st.2 + 1
  | Raise e st' => layer_ok st' ∧ e = ValueError ∧ st'.1 = st.1
  | OutOfFuel | Dangling => False
  end.
Proof.
  destruct st as [layer n]. intros (Hnames & Hids & Hall & Hn).
  cbn [fst snd] in *. unfold WireLayer.add_wire.
  case_bool_decide as Hin.
  { split; [|done]. by repeat split. }
  rewrite Wire_init_result. case_bool_decide as Hhv.
  - cbn [fst snd].
    set (w := Wire.mk name _ _ _ _ n).
    assert (Hw : wire_ok w).
    { unfold wire_ok, Wire.is_horizontal, Wire.is_vertical. cbn.
      rewrite !Z.eqb_eq. lia. }
    split; [|by exists w].
    unfold layer_ok, WireLayer.values. cbn [fst snd WireLayer.wires].
    rewrite !fmap_app. cbn [fmap list_fmap fst snd].
    split; [|split; [|split; [|lia]]].
    + apply NoDup_app. split; [done|]. split; [|apply NoDup_singleton].
      intros x Hx ->%list_elem_of_singleton. done.
    + apply NoDup_app. split; [done|]. split; [|apply NoDup_singleton].
      intros x Hx ->%list_elem_of_singleton.
      apply list_elem_of_fmap in Hx as (w' & Hid & Hw').
      apply list_elem_of_fmap in Hw' as (p & -> & Hp).
      eapply Forall_forall in Hall; [|exact Hp].
      destruct Hall as (_ & _ & Hlt). cbn in Hid. lia.
    + apply Forall_app. split.
      * eapply Forall_impl; [exact Hall|]. cbn. intros p (?&?&?).
        split; [done|]. split; [done|]. lia.
      * constructor; [|constructor]. cbn [fst snd].
        split; [done|]. split; [done|]. cbn. lia.
  - cbn [fst snd]. split; [|done].
    split; [done|]. split; [done|]. split; [|cbn; lia].
    eapply Forall_impl; [exact Hall|]. cbn. intros p (?&?&?).
    split; [done|]. split; [done|]. lia.
Qed.

Lemma add_wire_keeps_layer_ok_witness :
  match WireLayer.add_wire "h" 10 0 0 0 (WireLayer.__init__, 0) with
  | Ret _ st' =>
      layer_ok st'
      ∧ ∃ w, WireLayer.wires st'.1
             = WireLayer.wires WireLayer.__init__ ++ [("h", w)]
             ∧ Wire.object_id w = 0 ∧ st'.2 = 0 + 1
  | Raise e st' => layer_ok st' ∧ e = ValueError ∧ st'.1 = WireLayer.__init__
  | OutOfFuel | Dangling => False
  end.
Proof.
  apply (add_wire_keeps_layer_ok "h" 10 0 0 0 (WireLayer.__init__, 0)).
  apply layer_ok_init.
Defined.

(** ** The order on keys *)

Lemma kwp_cmp_cases (a b : KeyWirePair.t) :
  (KeyWirePair.__lt__ a b = true ∧ KeyWirePair.__eq__ a b = false
   ∧ KeyWirePair.__gt__ a b = false)
  ∨ (KeyWirePair.__lt__ a b = false ∧ KeyWirePair.__eq__ a b = true
     ∧ KeyWirePair.__gt__ a b = false)
  ∨ (KeyWirePair.__lt__ a b = false ∧ KeyWirePair.__eq__ a b = false
     ∧ KeyWirePair.__gt__ a b = true).
Proof.
  unfold KeyWirePair.__lt__, KeyWirePair.__eq__, KeyWirePair.__gt__.
  rewrite !Z.gtb_ltb.
  destruct (Z.ltb_spec (KeyWirePair.key a) (KeyWirePair.key b)),
    (Z.ltb_spec (KeyWirePair.key b) (KeyWirePair.key a)),
    (Z.eqb_spec (KeyWirePair.key a) (KeyWirePair.key b)),
    (Z.ltb_spec (KeyWirePair.wire_id a) (KeyWirePair.wire_id b)),
    (Z.ltb_spec (KeyWirePair.wire_id b) (KeyWirePair.wire_id a)),
    (Z.eqb_spec (KeyWirePair.wire_id a) (KeyWirePair.wire_id b));
    cbn; try lia; auto.
Qed.

(** X3: the six comparisons of [KeyWirePair] describe one strict total
    order: exactly one of [a < b], [a == b], [a > b] holds; [>] is [<]
    with the arguments swapped; [<=] and [>=] are the negations of [>] and
    [<]; and [<] is transitive. *)
Theorem KeyWirePair_total_order (a b c : KeyWirePair.t) :
  ((KeyWirePair.__lt__ a b = true ∧ KeyWirePair.__eq__ a b = false
    ∧ KeyWirePair.__gt__ a b = false)
   ∨ (KeyWirePair.__lt__ a b = false ∧ KeyWirePair.__eq__ a b = true
      ∧ KeyWirePair.__gt__ a b = false)
   ∨ (KeyWirePair.__lt__ a b = false ∧ KeyWirePair.__eq__ a b = false
      ∧ KeyWirePair.__gt__ a b = true))
  ∧ KeyWirePair.__gt__ a b = KeyWirePair.__lt__ b a
  ∧ KeyWirePair.__le__ a b = negb (KeyWirePair.__gt__ a b)
  ∧ KeyWirePair.__ge__ a b = negb (KeyWirePair.__lt__ a b)
  ∧ (KeyWirePair.__lt__ a b = true → KeyWirePair.__lt__ b c = true →
     KeyWirePair.__lt__ a c = true).
Proof.
  split; [apply kwp_cmp_cases|].
  split; [|split; [|split]].
  - unfold KeyWirePair.__gt__, KeyWirePair.__lt__.
    rewrite !Z.gtb_ltb, (Z.eqb_sym (KeyWirePair.key a)). done.
  - unfold KeyWirePair.__le__, KeyWirePair.__gt__. rewrite !Z.gtb_ltb.
    destruct (Z.ltb_spec (KeyWirePair.key a) (KeyWirePair.key b)),
      (Z.ltb_spec (KeyWirePair.key b) (KeyWirePair.key a)),
      (Z.eqb_spec (KeyWirePair.key a) (KeyWirePair.key b)),
      (Z.leb_spec (KeyWirePair.wire_id a) (KeyWirePair.wire_id b)),
      (Z.ltb_spec (KeyWirePair.wire_id b) (KeyWirePair.wire_id a));
      cbn; try lia; auto.
  - unfold KeyWirePair.__ge__, KeyWirePair.__lt__.
    rewrite !Z.gtb_ltb, Z.geb_leb.
    destruct (Z.ltb_spec (KeyWirePair.key a) (KeyWirePair.key b)),
      (Z.ltb_spec (KeyWirePair.key b) (KeyWirePair.key a)),
      (Z.eqb_spec (KeyWirePair.key a) (KeyWirePair.key b)),
      (Z.leb_spec (KeyWirePair.wire_id b) (KeyWirePair.wire_id a)),
      (Z.ltb_spec (KeyWirePair.wire_id a) (KeyWirePair.wire_id b));
      cbn; try lia; auto.
  - intros Hab Hbc. exact (kwp_lt_trans a b c Hab Hbc).
Qed.

Lemma KeyWirePair_total_order_witness :
  KeyWirePair.__lt__ (sample_key 1) (sample_key 3) = true.
Proof.
  apply (KeyWirePair_total_order (sample_key 1) (sample_key 2) (sample_key 3));
    reflexivity.
Defined.

(** ** Recorded crossings *)

Lemma string_ltb_asym (a b : string) :
  String.ltb a b = true → String.ltb b a = false.
Proof.
  unfold String.ltb. rewrite (String.compare_antisym b a).
  by destruct (String.compare a b).
Qed.

Lemma string_ltb_total (a b : string) :
  String.ltb a b = false → String.ltb b a = false → a = b.
Proof.
  unfold String.ltb. rewrite (String.compare_antisym b a).
  destruct (String.compare a b) eqn:Hc; try done.
  intros _ _. by apply String.compare_eq_iff.
Qed.

(** X4: the pair that [add_crossing] records does not depend on the order
    of its two wires, and its first name is never above its second. *)
Theorem add_crossing_canonical (w1 w2 : Wire.t) (rs : ResultSet.t) :
  ResultSet.add_crossing w1 w2 rs = ResultSet.add_crossing w2 w1 rs
  ∧ ∃ n1 n2,
      ResultSet.crossings (ResultSet.add_crossing w1 w2 rs)
      = ResultSet.crossings rs ++ [[n1; n2]]
      ∧ String.ltb n2 n1 = false
      ∧ ((n1 = Wire.name w1 ∧ n2 = Wire.name w2)
         ∨ (n1 = Wire.name w2 ∧ n2 = Wire.name w1)).
Proof.
  unfold ResultSet.add_crossing, ResultSet.sorted2. cbn.
  destruct (String.ltb (Wire.name w2) (Wire.name w1)) eqn:H21,
    (String.ltb (Wire.name w1) (Wire.name w2)) eqn:H12.
  - by rewrite (string_ltb_asym _ _ H21) in H12.
  - split; [done|]. exists (Wire.name w2), (Wire.name w1).
    split; [done|]. split; [done|]. by right.
  - split; [done|]. exists (Wire.name w1), (Wire.name w2).
    split; [done|]. split; [done|]. by left.
  - pose proof (string_ltb_total _ _ H12 H21) as Heq.
    split; [by rewrite Heq|]. exists (Wire.name w1), (Wire.name w2).
    split; [done|]. split; [done|]. by left.
Qed.

(** ** Construction of a verifier *)

Lemma events_from_layer_eq layer :
  CrossVerifier._events_from_layer layer []
  = match min_list (Wire.x1 <$> WireLayer.values layer) with
    | None => inl ValueError
    | Some m => inr (CrossVerifier.event_of_wire m <$> WireLayer.values layer)
    end.
Proof.
  unfold CrossVerifier._events_from_layer.
  destruct (min_list _); [|done]. by rewrite fold_left_snoc.
Qed.

Lemma ev_id_event_of_wire m w :
  ev_id (CrossVerifier.event_of_wire m w) = Wire.object_id w.
Proof. unfold CrossVerifier.event_of_wire. by destruct (Wire.is_horizontal w). Qed.

Lemma ev_wire_event_of_wire m w :
  ev_wire (CrossVerifier.event_of_wire m w) = w.
Proof. unfold CrossVerifier.event_of_wire. by destruct (Wire.is_horizontal w). Qed.

Lemma event_lt_distinct_ids e1 e2 :
  ev_id e1 ≠ ev_id e2 → ∃ b, event_lt e1 e2 = inr b.
Proof.
  intros Hne. unfold event_lt.
  destruct (negb (ev_x e1 =? ev_x e2)); [eauto|].
  destruct (negb (ev_order e1 =? ev_order e2)); [eauto|].
  apply Z.eqb_neq in Hne. rewrite Hne. cbn. eauto.
Qed.

Lemma insert_event_total e s :
  (∀ e', e' ∈ s → ev_id e ≠ ev_id e') → ∃ r, insert_event e s = inr r.
Proof.
  induction s as [|e' s IH]; intros Hne; cbn; [eauto|].
  destruct (event_lt_distinct_ids e e') as [b ->].
  { apply Hne, list_elem_of_here. }
  destruct b; [eauto|].
  destruct IH as [r ->]; [|eauto].
  intros e'' He''. by apply Hne, list_elem_of_further.
Qed.

Lemma sort_events_total l :
  NoDup (ev_id <$> l) → ∃ r, sort_events l = inr r.
Proof.
  unfold sort_events.
  assert (H : ∀ s, NoDup (ev_id <$> l) →
    (∀ e e', e ∈ l → e' ∈ s → ev_id e ≠ ev_id e') →
    ∃ r, fold_left
      (λ acc e, match acc with inl x => inl x | inr s => insert_event e s end)
      l (inr s) = inr r).
  { induction l as [|e l IH]; intros s Hnd Hdisj; cbn [fold_left]; [eauto|].
    cbn [fmap list_fmap] in Hnd. apply NoDup_cons in Hnd as [He Hnd].
    destruct (insert_event_total e s) as [r Hr].
    { intros e' He'. apply Hdisj; [apply list_elem_of_here|done]. }
    rewrite Hr. apply IH; [done|].
    intros e1 e2 He1 He2. apply insert_event_perm in Hr.
    rewrite Hr in He2. apply elem_of_cons in He2 as [->|He2].
    - intros Heq. apply He. rewrite <- Heq. by apply list_elem_of_fmap_2.
    - apply Hdisj; [by apply list_elem_of_further|done]. }
  intros Hnd. apply H; [done|]. intros e e' _ He'.
  by apply elem_of_nil in He'.
Qed.

(** X5: for a layer whose wires have pairwise distinct identifiers,
    building a verifier raises [ValueError] when the layer is empty and
    succeeds otherwise; the sort of the events never reaches the comparison
    of two wires.  A new verifier has not performed, its index is empty,
    and its events are a reordering of one event per wire. *)
Theorem CrossVerifier_init_total (layer : WireLayer.t) :
  NoDup (Wire.object_id <$> WireLayer.values layer) →
  match WireLayer.values layer with
  | [] => CrossVerifier.__init__ layer = inl ValueError
  | _ :: _ =>
      ∃ cv m,
        CrossVerifier.__init__ layer = inr cv
        ∧ min_list (Wire.x1 <$> WireLayer.values layer) = Some m
        ∧ CrossVerifier.events cv
          ≡ₚ CrossVerifier.event_of_wire m <$> WireLayer.values layer
        ∧ CrossVerifier.performed cv = false
        ∧ CrossVerifier.index cv = RangeIndex.__init__
        ∧ CrossVerifier.result_set cv = ResultSet.__init__
  end.
Proof.
  intros Hnd. unfold CrossVerifier.__init__. rewrite events_from_layer_eq.
  destruct (WireLayer.values layer) as [|w ws] eqn:Hv; [done|].
  cbn [fmap list_fmap min_list].
  set (m := fold_left Z.min (Wire.x1 <$> ws) (Wire.x1 w)).
  destruct (sort_events_total
              (CrossVerifier.event_of_wire m w
               :: (CrossVerifier.event_of_wire m <$> ws))) as [r Hr].
  { change (NoDup (ev_id <$> (CrossVerifier.event_of_wire m <$> w :: ws))).
    rewrite <- list_fmap_compose.
    erewrite list_fmap_ext; [exact Hnd|].
    intros i x _. cbn. apply ev_id_event_of_wire. }
  change (list_fmap Wire.t event (CrossVerifier.event_of_wire m) ws)
    with (CrossVerifier.event_of_wire m <$> ws).
  rewrite Hr. eexists _, m. split; [done|]. split; [done|].
  split; [|done]. cbn. by apply sort_events_perm.
Qed.

Lemma CrossVerifier_init_total_witness :
  ∃ cv m,
    CrossVerifier.__init__
      (WireLayer.mk [("h", Wire.mk "h" 0 0 10 0 0);
                     ("v", Wire.mk "v" 5 (-5) 5 5 1)]) = inr cv
    ∧ min_list [0; 5] = Some m
    ∧ CrossVerifier.events cv
      ≡ₚ CrossVerifier.event_of_wire m
         <$> [Wire.mk "h" 0 0 10 0 0; Wire.mk "v" 5 (-5) 5 5 1]
    ∧ CrossVerifier.performed cv = false
    ∧ CrossVerifier.index cv = RangeIndex.__init__
    ∧ CrossVerifier.result_set cv = ResultSet.__init__.
Proof.
  apply (CrossVerifier_init_total
           (WireLayer.mk [("h", Wire.mk "h" 0 0 10 0 0);
                          ("v", Wire.mk "v" 5 (-5) 5 5 1)])).
  cbn. repeat constructor; rewrite ?not_elem_of_cons, ?elem_of_nil;
    intuition discriminate.
Defined.

(** ** The order of the events *)

Lemma event_lt_add_query m a q :
  event_ok m a → ev_type a = "add" → event_ok m q → ev_type q = "query" →
  event_lt a q = inr true ∧ event_lt q a = inr false.
Proof.
  intros [(_ & Hax & Hao)|(Ht1 & _)] Hta [(Ht2 & _)|(_ & Hqx & Hqo)] Htq;
    try congruence.
  unfold event_lt. rewrite Hax, Hao, Hqo.
  destruct (Z.eqb_spec m (ev_x q)) as [<-|Hne].
  - rewrite Z.eqb_refl. cbn. done.
  - rewrite (proj2 (Z.eqb_neq (ev_x q) m)) by done. cbn.
    rewrite (proj2 (Z.ltb_lt m (ev_x q))) by lia.
    rewrite (proj2 (Z.ltb_ge (ev_x q) m)) by lia. done.
Qed.

Lemma event_ok_type m e :
  event_ok m e → ev_type e = "add" ∨ ev_type e = "query".
Proof. intros [(?&_)|(?&_)]; auto. Qed.

Lemma insert_event_adds_then_queries m e s r :
  event_ok m e → Forall (event_ok m) s → adds_then_queries s →
  insert_event e s = inr r → adds_then_queries r.
Proof.
  intros He Hs (la & lq & -> & Hla & Hlq). revert r.
  induction la as [|a la IH]; intros r Hr.
  - cbn [app] in *. destruct (event_ok_type m e He) as [Hadd|Hq].
    + destruct lq as [|q lq].
      * injection Hr as <-. exists [e], []. by repeat constructor.
      * cbn in Hr. inversion Hs as [|?? Hq _]; subst.
        inversion Hlq as [|?? Htq Hlq']; subst.
        destruct (event_lt_add_query m e q He Hadd Hq Htq) as [Hlt _].
        rewrite Hlt in Hr. injection Hr as <-. exists [e], (q :: lq). by repeat constructor.
    + exists [], r. split; [done|]. split; [constructor|].
      apply insert_event_perm in Hr. rewrite Hr. by constructor.
  - cbn [app] in *. inversion Hs as [|?? Ha Hs']; subst.
    inversion Hla as [|?? Hta Hla']; subst.
    cbn in Hr. destruct (event_lt e a) as [|[|]] eqn:Hlt; [done| |].
    + injection Hr as <-.
      destruct (event_ok_type m e He) as [Hadd|Hq].
      * exists (e :: a :: la), lq. split; [done|]. by repeat constructor.
      * destruct (event_lt_add_query m a e Ha Hta He Hq) as [_ Hf].
        congruence.
    + destruct (insert_event e (la ++ lq)) as [|r'] eqn:Hr'; [done|].
      injection Hr as <-.
      destruct (IH Hs' Hla' r' eq_refl) as (la' & lq' & -> & Hla'' & Hlq').
      exists (a :: la'), lq'. split; [done|]. by repeat constructor.
Qed.

Lemma sort_events_adds_then_queries m l r :
  Forall (event_ok m) l → sort_events l = inr r → adds_then_queries r.
Proof.
  unfold sort_events.
  assert (H : ∀ s, Forall (event_ok m) l → Forall (event_ok m) s →
    adds_then_queries s →
    fold_left
      (λ acc e, match acc with inl x => inl x | inr s => insert_event e s end)
      l (inr s) = inr r → adds_then_queries r).
  { induction l as [|e l IH]; intros s Hl Hs Hats; cbn [fold_left].
    - by intros [= <-].
    - inversion Hl as [|?? He Hl']; subst.
      destruct (insert_event e s) as [x|s'] eqn:Hins.
      + intros Hf. exfalso. clear -Hf.
        induction l as [|e' l IHl]; [done|]. by apply IHl.
      + apply IH; [done| |].
        * apply insert_event_perm in Hins. rewrite Hins. by constructor.
        * exact (insert_event_adds_then_queries m e s s' He Hs Hats Hins). }
  intros Hl. apply H; [done|constructor|].
  exists [], []. by repeat constructor.
Qed.

Lemma event_of_wire_ok m ws w :
  min_list (Wire.x1 <$> ws) = Some m → w ∈ ws →
  event_ok m (CrossVerifier.event_of_wire m w).
Proof.
  intros Hm Hw. apply min_list_spec in Hm as [_ Hle].
  unfold CrossVerifier.event_of_wire, event_ok.
  destruct (Wire.is_horizontal w); cbn; [by left|right].
  split; [done|]. split; [|done]. apply Hle. by apply list_elem_of_fmap_2.
Qed.

(** X6: in every verifier the events are ordered so that all [add] events
    come before all [query] events: every horizontal wire is in the index
    before the first vertical wire is tested. *)
Theorem adds_precede_queries (layer : WireLayer.t) (cv : CrossVerifier.t) :
  CrossVerifier.__init__ layer = inr cv →
  adds_then_queries (CrossVerifier.events cv).
Proof.
  unfold CrossVerifier.__init__. rewrite events_from_layer_eq.
  destruct (min_list _) as [m|] eqn:Hm; [|done].
  destruct (sort_events _) as [|r] eqn:Hr; [done|].
  intros [= <-]. cbn.
  eapply (sort_events_adds_then_queries m); [|exact Hr].
  apply Forall_forall. intros e (w & -> & Hw)%list_elem_of_fmap.
  by eapply event_of_wire_ok.
Qed.

Lemma adds_precede_queries_witness :
  adds_then_queries
    [mk_event 0 0 1 "add" (Wire.mk "h" 0 0 10 0 1);
     mk_event 5 1 0 "query" (Wire.mk "v" 5 (-5) 5 5 0)].
Proof.
  apply (adds_precede_queries
           (WireLayer.mk [("v", Wire.mk "v" 5 (-5) 5 5 0);
                          ("h", Wire.mk "h" 0 0 10 0 1)])
           (CrossVerifier.mk
              [mk_event 0 0 1 "add" (Wire.mk "h" 0 0 10 0 1);
               mk_event 5 1 0 "query" (Wire.mk "v" 5 (-5) 5 5 0)]
              RangeIndex.__init__ ResultSet.__init__ false)).
  reflexivity.
Defined.

(** ** Single use *)



(** ** The sweep over a layer *)

Lemma on_index_id (s : CrossVerifier.t) :
  CrossVerifier.mk (CrossVerifier.events s) (CrossVerifier.index s)
    (CrossVerifier.result_set s) (CrossVerifier.performed s) = s.
Proof. by destruct s. Qed.

(** The [add] events at the head of the event list run [add] on the index
    once per event and touch nothing else. *)
Lemma event_loop_adds fuel count_only result la rest s :
  Forall (λ e, ev_type e = "add") la →
  CrossVerifier.event_loop fuel count_only result (la ++ rest) s
  = match run_ops fuel (Add <$> (key_of_wire <$> (ev_wire <$> la)))
            (CrossVerifier.index s) with
    | Ret _ i =>
        CrossVerifier.event_loop fuel count_only result rest
          (CrossVerifier.mk (CrossVerifier.events s) i
             (CrossVerifier.result_set s) (CrossVerifier.performed s))
    | Raise e i =>
        Raise e (CrossVerifier.mk (CrossVerifier.events s) i
                   (CrossVerifier.result_set s) (CrossVerifier.performed s))
    | OutOfFuel => OutOfFuel
    | Dangling => Dangling
    end.
Proof.
  intros Hla. revert s. induction Hla as [|e la He Hla IH]; intros s.
  { cbn. by rewrite on_index_id. }
  cbn [app CrossVerifier.event_loop fmap list_fmap].
  unfold run_ops. cbn [foldr run_op].
  unfold CrossVerifier.process_event. rewrite He.
  change (String.eqb "add" "add") with true. cbv iota.
  cbn [KeyWirePair.__init__].
  change (KeyWirePair.mk (Wire.y1 (ev_wire e)) (Some (ev_wire e))
            (Wire.object_id (ev_wire e))) with (key_of_wire (ev_wire e)).
  unfold mbind, M_bind, mret, M_ret, CrossVerifier.on_index.
  destruct (RangeIndex.add fuel (Some (key_of_wire (ev_wire e)))
              (CrossVerifier.index s)) as [[] i|x i| |]; [|done..].
  rewrite IH. done.
Qed.

Lemma query_event_raises fuel count_only result q s :
  ev_type q = "query" → data (CrossVerifier.index s) = None →
  CrossVerifier.process_event fuel count_only result q s
  = Raise AttributeError s.
Proof.
  intros Hq Hd. unfold CrossVerifier.process_event. rewrite Hq.
  change (String.eqb "query" "add") with false.
  change (String.eqb "query" "query") with true. cbv iota.
  unfold CrossVerifier.trace_sweep_line, CrossVerifier.on_index,
    RangeIndex.list, RangeIndex.self_data.
  unfold mbind, M_bind, mret, M_ret.
  rewrite Hd. by rewrite on_index_id.
Qed.

Lemma kwp_id_key_of_wire w :
  kwp_id (key_of_wire w) = (Wire.y1 w, Wire.object_id w).
Proof. done. Qed.

Lemma NoDup_keys_of_wires (ws : list Wire.t) :
  NoDup (Wire.object_id <$> ws) → NoDup (kwp_id <$> (key_of_wire <$> ws)).
Proof.
  intros Hnd. apply (NoDup_fmap_1 snd).
  rewrite <- !list_fmap_compose.
  erewrite list_fmap_ext; [exact Hnd|]. by intros i w _.
Qed.

Lemma event_of_wire_add m w :
  ev_type (CrossVerifier.event_of_wire m w) = "add"
  ↔ Wire.is_horizontal w = true.
Proof.
  unfold CrossVerifier.event_of_wire.
  destruct (Wire.is_horizontal w); cbn; split; done.
Qed.

Lemma filter_add_events m (ws : list Wire.t) :
  filter (λ e, ev_type e = "add") (CrossVerifier.event_of_wire m <$> ws)
  = CrossVerifier.event_of_wire m
    <$> filter (λ w, Wire.is_horizontal w = true) ws.
Proof.
  induction ws as [|w ws IH]; [done|].
  cbn [fmap list_fmap]. rewrite !filter_cons, IH.
  destruct (decide (Wire.is_horizontal w = true)) as [Hw|Hw].
  - rewrite decide_True by (by apply event_of_wire_add). done.
  - rewrite decide_False by (by rewrite event_of_wire_add). done.
Qed.

Lemma filter_adds_then_queries la lq :
  Forall (λ e, ev_type e = "add") la →
  Forall (λ e, ev_type e = "query") lq →
  filter (λ e, ev_type e = "add") (la ++ lq) = la.
Proof.
  intros Hla Hlq. rewrite filter_app.
  replace (filter (λ e, ev_type e = "add") la) with la.
  2:{ induction Hla as [|a la Ha _ IH]; [done|].
      by rewrite filter_cons, decide_True, <- IH. }
  replace (filter _ lq) with (@nil event); [by rewrite app_nil_r|].
  symmetry. induction Hlq as [|q lq Hq _ IH]; [done|].
  rewrite filter_cons, decide_False; [done|]. rewrite Hq. done.
Qed.

Lemma CrossVerifier_init_shape layer cv :
  CrossVerifier.__init__ layer = inr cv →
  ∃ m evs,
    min_list (Wire.x1 <$> WireLayer.values layer) = Some m
    ∧ cv = CrossVerifier.mk evs RangeIndex.__init__ ResultSet.__init__ false
    ∧ evs ≡ₚ CrossVerifier.event_of_wire m <$> WireLayer.values layer
    ∧ adds_then_queries evs.
Proof.
  unfold CrossVerifier.__init__. rewrite events_from_layer_eq.
  destruct (min_list _) as [m|] eqn:Hm; [|done].
  destruct (sort_events _) as [|evs] eqn:Hs; [done|].
  intros [= <-]. exists m, evs. split; [done|]. split; [done|].
  split; [by apply sort_events_perm|].
  eapply (sort_events_adds_then_queries m); [|exact Hs].
  apply Forall_forall. intros e (w & -> & Hw)%list_elem_of_fmap.
  by eapply event_of_wire_ok.
Qed.

Lemma CrossVerifier_init_succeeds layer :
  NoDup (Wire.object_id <$> WireLayer.values layer) →
  WireLayer.values layer ≠ [] →
  ∃ cv, CrossVerifier.__init__ layer = inr cv.
Proof.
  intros Hnd Hne. unfold CrossVerifier.__init__.
  rewrite events_from_layer_eq.
  destruct (min_list _) as [m|] eqn:Hm.
  2:{ by destruct (WireLayer.values layer). }
  destruct (sort_events_total
              (CrossVerifier.event_of_wire m <$> WireLayer.values layer))
    as [r ->]; [|eauto].
  rewrite <- list_fmap_compose.
  erewrite list_fmap_ext; [exact Hnd|].
  intros i x _. cbn. apply ev_id_event_of_wire.
Qed.

Lemma forallb_horizontal_queries m (ws : list Wire.t) la lq :
  la ++ lq ≡ₚ CrossVerifier.event_of_wire m <$> ws →
  Forall (λ e, ev_type e = "add") la →
  Forall (λ e, ev_type e = "query") lq →
  forallb Wire.is_horizontal ws = bool_decide (lq = []).
Proof.
  intros Hperm Hla Hlq.
  destruct (forallb Wire.is_horizontal ws) eqn:Hall.
  - symmetry. apply bool_decide_eq_true. destruct lq as [|q lq]; [done|].
    exfalso. inversion Hlq as [|?? Hq _]; subst.
    assert (Hin : q ∈ CrossVerifier.event_of_wire m <$> ws).
    { rewrite <- Hperm. apply elem_of_app. right. apply list_elem_of_here. }
    apply list_elem_of_fmap in Hin as (w & -> & Hw).
    rewrite forallb_forall in Hall.
    specialize (Hall w (proj1 (list_elem_of_In _ _) Hw)).
    unfold CrossVerifier.event_of_wire in Hq. rewrite Hall in Hq. done.
  - symmetry. apply bool_decide_eq_false. intros ->.
    rewrite app_nil_r in Hperm.
    assert (Hex : ∃ w, w ∈ ws ∧ Wire.is_horizontal w = false).
    { clear -Hall. induction ws as [|w ws IH]; [done|]. cbn in Hall.
      destruct (Wire.is_horizontal w) eqn:Hw.
      - destruct (IH Hall) as (w' & ? & ?). exists w'.
        split; [by apply list_elem_of_further|done].
      - exists w. split; [apply list_elem_of_here|done]. }
    destruct Hex as (w & Hw & Hh).
    assert (Hin : CrossVerifier.event_of_wire m w ∈ la).
    { rewrite Hperm. by apply list_elem_of_fmap_2. }
    eapply Forall_forall in Hla; [|exact Hin].
    unfold CrossVerifier.event_of_wire in Hla. rewrite Hh in Hla. done.
Qed.

(** The state and the outcome of the event loop on a new verifier: the
    keys of the horizontal wires are added, and the first [query] event,
    if there is one, raises. *)
Lemma sweep_new_verifier (layer : WireLayer.t) (cv : CrossVerifier.t)
    (fuel : nat) (performed : bool) :
  CrossVerifier.__init__ layer = inr cv →
  NoDup (Wire.object_id <$> WireLayer.values layer) →
  (2 * length (WireLayer.values layer) + 1 ≤ fuel)%nat →
  ∃ i t,
    index_ok i t
    ∧ inorder t ≡ₚ key_of_wire <$> horizontal_wires layer
    ∧ ∀ count_only,
        CrossVerifier.event_loop fuel count_only 0 (CrossVerifier.events cv)
          (CrossVerifier.mk (CrossVerifier.events cv) (CrossVerifier.index cv)
             (CrossVerifier.result_set cv) performed)
        = (if forallb Wire.is_horizontal (WireLayer.values layer)
           then Ret 0 else Raise AttributeError)
            (CrossVerifier.mk (CrossVerifier.events cv) i ResultSet.__init__
               performed).
Proof.
  intros Hinit Hnd Hfuel.
  apply CrossVerifier_init_shape in Hinit
    as (m & evs & Hm & -> & Hperm & la & lq & -> & Hla & Hlq).
  cbn [CrossVerifier.events CrossVerifier.index CrossVerifier.result_set] in *.
  assert (Hlaperm : la ≡ₚ CrossVerifier.event_of_wire m
                          <$> horizontal_wires layer).
  { unfold horizontal_wires. rewrite <- filter_add_events, <- Hperm.
    by rewrite filter_adds_then_queries. }
  assert (Hkeys : key_of_wire <$> (ev_wire <$> la)
                  ≡ₚ key_of_wire <$> horizontal_wires layer).
  { rewrite Hlaperm. rewrite <- (list_fmap_compose _ ev_wire).
    erewrite (list_fmap_ext (ev_wire ∘ _) id); [by rewrite list_fmap_id|].
    intros ? w _. apply ev_wire_event_of_wire. }
  assert (Hlen : (length (horizontal_wires layer)
                  ≤ length (WireLayer.values layer))%nat).
  { apply length_filter. }
  destruct (run_adds_spec fuel (key_of_wire <$> (ev_wire <$> la))
              RangeIndex.__init__ E index_ok_init)
    as (i & t & Hrun & Hok & Hin).
  { rewrite Hkeys. apply NoDup_keys_of_wires.
    eapply sublist_NoDup; [exact Hnd|].
    apply fmap_sublist, sublist_filter. }
  { intros k _ Hk. by apply elem_of_nil in Hk. }
  { rewrite Hkeys, length_fmap. cbn [inorder length]. lia. }
  exists i, t. split; [done|]. split.
  { rewrite Hin, app_nil_r. done. }
  intros count_only. rewrite event_loop_adds by done. cbn [CrossVerifier.index].
  rewrite Hrun. cbn [CrossVerifier.events CrossVerifier.result_set
                       CrossVerifier.performed].
  rewrite (forallb_horizontal_queries m _ la lq Hperm Hla Hlq).
  destruct lq as [|q lq]; [done|].
  rewrite bool_decide_eq_false_2 by done.
  cbn [CrossVerifier.event_loop]. unfold mbind, M_bind.
  rewrite query_event_raises; [done| |].
  - by inversion Hlq.
  - by destruct Hok as (_ & _ & _ & _ & Hd).
Qed.

Lemma run_new_verifier (layer : WireLayer.t) (cv : CrossVerifier.t)
    (fuel : nat) :
  CrossVerifier.__init__ layer = inr cv →
  NoDup (Wire.object_id <$> WireLayer.values layer) →
  (2 * length (WireLayer.values layer) + 1 ≤ fuel)%nat →
  ∃ s t,
    index_ok (CrossVerifier.index s) t
    ∧ inorder t ≡ₚ key_of_wire <$> horizontal_wires layer
    ∧ CrossVerifier.result_set s = ResultSet.__init__
    ∧ CrossVerifier.performed s = true
    ∧ CrossVerifier.events s = CrossVerifier.events cv
    ∧ CrossVerifier.count_crossings fuel cv
      = (if forallb Wire.is_horizontal (WireLayer.values layer)
         then Ret (CountResult 0) else Raise AttributeError) s
    ∧ CrossVerifier.wire_crossings fuel cv
      = (if forallb Wire.is_horizontal (WireLayer.values layer)
         then Ret (SetResult ResultSet.__init__) else Raise AttributeError) s.
Proof.
  intros Hinit Hnd Hfuel.
  destruct (sweep_new_verifier layer cv fuel true Hinit Hnd Hfuel)
    as (i & t & Hok & Hperm & Hloop).
  pose proof (Hloop true) as Hc. pose proof (Hloop false) as Hw.
  apply CrossVerifier_init_shape in Hinit as (m & evs & _ & -> & _).
  cbn [CrossVerifier.events CrossVerifier.index CrossVerifier.result_set]
    in *.
  eexists (CrossVerifier.mk evs i ResultSet.__init__ true), t.
  split; [done|]. split; [done|]. split; [done|]. split; [done|].
  split; [done|].
  rewrite count_crossings_eq, wire_crossings_eq.
  cbn [CrossVerifier.performed CrossVerifier.events CrossVerifier.index
         CrossVerifier.result_set].
  unfold CrossVerifier._compute_crossings, get_state, mbind, M_bind,
    mret, M_ret.
  cbn [CrossVerifier.events]. rewrite Hc, Hw.
  by destruct (forallb _ _).
Qed.

(** X8: on a layer of horizontal wires with pairwise distinct identifiers
    the sweep succeeds: [count_crossings] returns 0 and [wire_crossings]
    returns the empty result set.  Afterwards the index holds the key of
    every wire of the layer and satisfies its invariants. *)
Theorem sweep_horizontal_layer (layer : WireLayer.t) (fuel : nat) :
  WireLayer.values layer ≠ [] →
  NoDup (Wire.object_id <$> WireLayer.values layer) →
  Forall (λ w, Wire.is_horizontal w = true) (WireLayer.values layer) →
  (2 * length (WireLayer.values layer) + 1 ≤ fuel)%nat →
  ∃ cv s t,
    CrossVerifier.__init__ layer = inr cv
    ∧ CrossVerifier.count_crossings fuel cv = Ret (CountResult 0) s
    ∧ CrossVerifier.wire_crossings fuel cv
      = Ret (SetResult ResultSet.__init__) s
    ∧ index_invariants (CrossVerifier.index s)
    ∧ index_tree (CrossVerifier.index s) = Some t
    ∧ inorder t ≡ₚ key_of_wire <$> WireLayer.values layer.
Proof.
  intros Hne Hnd Hall Hfuel.
  destruct (CrossVerifier_init_succeeds layer Hnd Hne) as [cv Hinit].
  destruct (run_new_verifier layer cv fuel Hinit Hnd Hfuel)
    as (s & t & Hok & Hperm & _ & _ & _ & Hc & Hw).
  assert (Hb : forallb Wire.is_horizontal (WireLayer.values layer) = true).
  { apply forallb_forall. intros w Hw'%list_elem_of_In.
    by eapply Forall_forall in Hall. }
  rewrite Hb in Hc, Hw. exists cv, s, t.
  split; [done|]. split; [done|]. split; [done|].
  split; [by eapply index_ok_invariants|].
  split; [by apply index_ok_tree|].
  rewrite Hperm. unfold horizontal_wires.
  replace (filter _ (WireLayer.values layer)) with (WireLayer.values layer);
    [done|].
  clear -Hall. induction Hall as [|w ws Hw _ IH]; [done|].
  by rewrite filter_cons, decide_True, <- IH.
Qed.

Lemma sweep_horizontal_layer_witness :
  ∃ cv s t,
    CrossVerifier.__init__
      (WireLayer.mk [("a", Wire.mk "a" 0 0 10 0 0);
                     ("b", Wire.mk "b" 5 1 8 1 1)]) = inr cv
    ∧ CrossVerifier.count_crossings 5 cv = Ret (CountResult 0) s
    ∧ CrossVerifier.wire_crossings 5 cv
      = Ret (SetResult ResultSet.__init__) s
    ∧ index_invariants (CrossVerifier.index s)
    ∧ index_tree (CrossVerifier.index s) = Some t
    ∧ inorder t ≡ₚ key_of_wire
                   <$> [Wire.mk "a" 0 0 10 0 0; Wire.mk "b" 5 1 8 1 1].
Proof.
  apply (sweep_horizontal_layer
           (WireLayer.mk [("a", Wire.mk "a" 0 0 10 0 0);
                          ("b", Wire.mk "b" 5 1 8 1 1)]) 5).
  - done.
  - cbn. repeat constructor; rewrite ?not_elem_of_cons, ?elem_of_nil;
      intuition discriminate.
  - cbn. repeat constructor.
  - cbn. lia.
Defined.

(** X9: on a layer with pairwise distinct identifiers that has a wire
    which is not horizontal, the first call of [count_crossings] and of
    [wire_crossings] raises [AttributeError]: the keys of all horizontal
    wires have been added to the index, and the first [query] event calls
    [index.list].  No crossing has been counted or recorded, and
    [performed] is set. *)
Theorem sweep_raises_at_first_query (layer : WireLayer.t) (fuel : nat)
    (w : Wire.t) :
  NoDup (Wire.object_id <$> WireLayer.values layer) →
  w ∈ WireLayer.values layer →
  Wire.is_horizontal w = false →
  (2 * length (WireLayer.values layer) + 1 ≤ fuel)%nat →
  ∃ cv s t,
    CrossVerifier.__init__ layer = inr cv
    ∧ CrossVerifier.count_crossings fuel cv = Raise AttributeError s
    ∧ CrossVerifier.wire_crossings fuel cv = Raise AttributeError s
    ∧ CrossVerifier.result_set s = ResultSet.__init__
    ∧ CrossVerifier.performed s = true
    ∧ index_tree (CrossVerifier.index s) = Some t
    ∧ inorder t ≡ₚ key_of_wire <$> horizontal_wires layer.
Proof.
  intros Hnd Hin Hw Hfuel.
  destruct (CrossVerifier_init_succeeds layer Hnd) as [cv Hinit].
  { intros Hnil. rewrite Hnil in Hin. by apply elem_of_nil in Hin. }
  destruct (run_new_verifier layer cv fuel Hinit Hnd Hfuel)
    as (s & t & Hok & Hperm & Hrs & Hp & _ & Hc & Hwc).
  assert (Hb : forallb Wire.is_horizontal (WireLayer.values layer) = false).
  { apply not_true_is_false. intros Hall. rewrite forallb_forall in Hall.
    apply list_elem_of_In, Hall in Hin. congruence. }
  rewrite Hb in Hc, Hwc. exists cv, s, t.
  split; [done|]. split; [done|]. split; [done|]. split; [done|].
  split; [done|]. split; [by apply index_ok_tree|done].
Qed.

Lemma sweep_raises_at_first_query_witness :
  ∃ cv s t,
    CrossVerifier.__init__
      (WireLayer.mk [("h", Wire.mk "h" 0 0 10 0 0);
                     ("v", Wire.mk "v" 5 (-5) 5 5 1)]) = inr cv
    ∧ CrossVerifier.count_crossings 5 cv = Raise AttributeError s
    ∧ CrossVerifier.wire_crossings 5 cv = Raise AttributeError s
    ∧ CrossVerifier.result_set s = ResultSet.__init__
    ∧ CrossVerifier.performed s = true
    ∧ index_tree (CrossVerifier.index s) = Some t
    ∧ inorder t ≡ₚ key_of_wire
                   <$> horizontal_wires
                         (WireLayer.mk [("h", Wire.mk "h" 0 0 10 0 0);
                                        ("v", Wire.mk "v" 5 (-5) 5 5 1)]).
Proof.
  apply (sweep_raises_at_first_query
           (WireLayer.mk [("h", Wire.mk "h" 0 0 10 0 0);
                          ("v", Wire.mk "v" 5 (-5) 5 5 1)]) 5
           (Wire.mk "v" 5 (-5) 5 5 1)).
  - cbn. repeat constructor; rewrite ?not_elem_of_cons, ?elem_of_nil;
      intuition discriminate.
  - cbn. apply list_elem_of_further, list_elem_of_here.
  - reflexivity.
  - cbn. lia.
Defined.

(** ** Lookup *)

Lemma kwp_eq_id a b : KeyWirePair.__eq__ a b = true ↔ kwp_id a = kwp_id b.
Proof.
  unfold KeyWirePair.__eq__, kwp_id.
  rewrite andb_true_iff, !Z.eqb_eq. split; [intros [-> ->]; done|].
  by intros [= -> ->].
Qed.

Lemma kwp_lt_id_ne a b : kwp_lt a b → kwp_id a ≠ kwp_id b.
Proof.
  unfold kwp_lt, KeyWirePair.__lt__, kwp_id. intros Hlt [= Hk Hw].
  rewrite Hk, Hw, !Z.ltb_irrefl, andb_false_r in Hlt. done.
Qed.

Lemma sorted_node l k r :
  StronglySorted kwp_lt (inorder l ++ k :: inorder r) →
  StronglySorted kwp_lt (inorder l) ∧ StronglySorted kwp_lt (inorder r)
  ∧ (∀ x, x ∈ inorder l → kwp_lt x k) ∧ (∀ x, x ∈ inorder r → kwp_lt k x).
Proof.
  intros (Hlr & Hl & Hkr)%StronglySorted_app.
  apply StronglySorted_cons in Hkr as [Hk Hr].
  split; [done|]. split; [done|]. split.
  - intros x Hx. apply Hlr; [done|apply list_elem_of_here].
  - intros x Hx. by eapply Forall_forall in Hk.
Qed.

(** [find] walks down from the focus to the node whose key equals the
    key looked for, or to an empty link when no stored key equals it. *)
Lemma find_loop_spec key s :
  ∀ t fuel C,
    at_focus s C t → StronglySorted kwp_lt (inorder t) →
    (depth t ≤ fuel)%nat →
    (∃ C' l a k h c r,
        RangeIndex.find_loop fuel key (root_of t) s = Ret (Some a) s
        ∧ at_focus s C' (T l a k h c r)
        ∧ plug C' (T l a k h c r) = plug C t
        ∧ kwp_id k = kwp_id key)
    ∨ (RangeIndex.find_loop fuel key (root_of t) s = Ret None s
       ∧ kwp_id key ∉ kwp_id <$> inorder t).
Proof.
  induction t as [|l IHl a k h c r IHr]; intros fuel C Hfocus Hsorted Hfuel.
  { right. destruct fuel; cbn; (split; [done|apply not_elem_of_nil]). }
  cbn [depth] in Hfuel. destruct fuel as [|fuel]; [lia|].
  cbn [inorder] in Hsorted.
  apply sorted_node in Hsorted as (Hsl & Hsr & Hlk & Hkr).
  pose proof Hfocus as (_ & (Ha & _ & _) & _).
  cbn [RangeIndex.find_loop root_of].
  erewrite bind_Ret by (apply getattr_Some; exact Ha). cbn [BSTnode.key].
  destruct (KeyWirePair.__eq__ key k) eqn:Heq.
  { left. exists C, l, a, k, h, c, r. split; [done|]. split; [done|].
    split; [done|]. symmetry. by apply kwp_eq_id. }
  assert (Hne : kwp_id key ≠ kwp_id k).
  { intros Hid%kwp_eq_id. congruence. }
  destruct (KeyWirePair.__lt__ key k) eqn:Hlt.
  - erewrite bind_Ret by (apply getattr_Some; exact Ha). cbn [BSTnode.left].
    destruct (IHl fuel (InL a k h c r :: C)) as [Hfound|[Hnone Hnotin]];
      [by apply focus_left|done|lia| |].
    + left. exact Hfound.
    + right. split; [done|]. cbn [inorder]. rewrite fmap_app, fmap_cons.
      rewrite not_elem_of_app, not_elem_of_cons.
      split; [done|]. split; [done|].
      intros (x & Hid & Hx)%list_elem_of_fmap.
      apply (kwp_lt_id_ne key x); [|done].
      etrans; [exact Hlt|]. by apply Hkr.
  - erewrite bind_Ret by (apply getattr_Some; exact Ha). cbn [BSTnode.right].
    assert (Hgt : kwp_lt k key).
    { apply kwp_lt_total; [done|done]. }
    destruct (IHr fuel (InR l a k h c :: C)) as [Hfound|[Hnone Hnotin]];
      [by apply focus_right|done|lia| |].
    + left. exact Hfound.
    + right. split; [done|]. cbn [inorder]. rewrite fmap_app, fmap_cons.
      rewrite not_elem_of_app, not_elem_of_cons.
      split; [|done].
      intros (x & Hid & Hx)%list_elem_of_fmap.
      apply (kwp_lt_id_ne x key); [|done].
      etrans; [by apply Hlk|done].
Qed.

Lemma depth_le_inorder t : (depth t ≤ length (inorder t))%nat.
Proof. rewrite length_inorder. apply depth_le_length. Qed.

Lemma plug_inorder_elem C t k :
  k ∈ inorder t → k ∈ inorder (plug C t).
Proof.
  intros Hk. rewrite inorder_plug, !elem_of_app. auto.
Qed.

Lemma find_spec fuel key s t :
  index_ok s t → (depth t ≤ fuel)%nat →
  (∃ C l a k h c r,
      RangeIndex.find fuel key s = Ret (Some a) s
      ∧ at_focus s C (T l a k h c r)
      ∧ plug C (T l a k h c r) = t
      ∧ kwp_id k = kwp_id key)
  ∨ (RangeIndex.find fuel key s = Ret None s
     ∧ kwp_id key ∉ kwp_id <$> inorder t).
Proof.
  intros (Hfocus & _ & Hsorted & _) Hfuel.
  pose proof Hfocus as (Hroot & _). cbn [ctx_repr] in Hroot.
  assert (Hfind : RangeIndex.find fuel key s
                  = RangeIndex.find_loop fuel key (root_of t) s).
  { unfold RangeIndex.find, mbind, M_bind. by rewrite Hroot. }
  rewrite Hfind.
  exact (find_loop_spec key s t fuel [] Hfocus Hsorted Hfuel).
Qed.

(** X10: in an index that stores an AVL tree with its keys in ascending
    order, [find] returns without changing the index.  It returns a node
    whose key equals the key looked for and is a stored key, when there is
    one, and [None] exactly when no stored key equals it. *)
Theorem find_returns_stored_node (fuel : nat) (key : KeyWirePair.t)
    (s : index_state) (t : tree) :
  index_ok s t → (length (inorder t) ≤ fuel)%nat →
  ∃ r, RangeIndex.find fuel key s = Ret r s
       ∧ match r with
         | Some a =>
             ∃ k, getattr BSTnode.key (Some a) s = Ret k s
                  ∧ k ∈ inorder t
                  ∧ KeyWirePair.__eq__ key k = true
         | None => kwp_id key ∉ kwp_id <$> inorder t
         end.
Proof.
  intros Hok Hfuel.
  destruct (find_spec fuel key s t Hok) as
    [(C & l & a & k & h & c & r & Hfind & Hfocus & Hplug & Hid)
    |[Hfind Hnotin]].
  { etrans; [apply depth_le_inorder|done]. }
  - exists (Some a). split; [done|]. exists k.
    pose proof Hfocus as (_ & (Ha & _ & _) & _).
    split; [by erewrite getattr_Some by exact Ha|].
    split.
    + rewrite <- Hplug. apply plug_inorder_elem. cbn.
      apply elem_of_app. right. apply list_elem_of_here.
    + by apply kwp_eq_id.
  - by exists None.
Qed.

Lemma find_returns_stored_node_witness :
  ∃ s t,
    RangeIndex.add 5 (Some (sample_key 1)) RangeIndex.__init__ = Ret tt s
    ∧ index_ok s t
    ∧ ∃ r, RangeIndex.find 5 (sample_key 1) s = Ret r s
           ∧ match r with
             | Some a =>
                 ∃ k, getattr BSTnode.key (Some a) s = Ret k s
                      ∧ k ∈ inorder t
                      ∧ KeyWirePair.__eq__ (sample_key 1) k = true
             | None => kwp_id (sample_key 1) ∉ kwp_id <$> inorder t
             end.
Proof.
  destruct (add_spec 5 (sample_key 1) RangeIndex.__init__ E index_ok_init)
    as (s & t & Hadd & Hok & Hperm).
  { cbn. apply not_elem_of_nil. }
  { cbn. lia. }
  exists s, t. split; [exact Hadd|]. split; [exact Hok|].
  apply (find_returns_stored_node 5 (sample_key 1) s t Hok).
  rewrite Hperm. cbn. lia.
Defined.

(** X11: lookup after insertion.  After the keys [ks], pairwise distinct,
    have been added to a new index, [find] of a key returns a node that
    holds one of the added keys equal to it, when [ks] has such a key, and
    [None] when it has none. *)
Theorem find_after_adds (fuel : nat) (ks : list KeyWirePair.t)
    (key : KeyWirePair.t) :
  NoDup (kwp_id <$> ks) →
  (2 * length ks + 1 ≤ fuel)%nat →
  ∃ s r,
    run_ops fuel (Add <$> ks) RangeIndex.__init__ = Ret tt s
    ∧ RangeIndex.find fuel key s = Ret r s
    ∧ match r with
      | Some a =>
          ∃ k, getattr BSTnode.key (Some a) s = Ret k s
               ∧ k ∈ ks ∧ KeyWirePair.__eq__ key k = true
      | None => kwp_id key ∉ kwp_id <$> ks
      end.
Proof.
  intros Hnd Hfuel.
  destruct (run_adds_spec fuel ks _ E index_ok_init Hnd)
    as (s & t & Hrun & Hok & Hperm).
  { intros k _ Hin. by apply elem_of_nil in Hin. }
  { cbn [inorder length]. lia. }
  rewrite app_nil_r in Hperm.
  destruct (find_spec fuel key s t Hok) as
    [(C & l & a & k & h & c & r & Hfind & Hfocus & Hplug & Hid)
    |[Hfind Hnotin]].
  { etrans; [apply depth_le_inorder|]. rewrite Hperm. lia. }
  - exists s, (Some a). split; [done|]. split; [done|]. exists k.
    pose proof Hfocus as (_ & (Ha & _ & _) & _).
    split; [by erewrite getattr_Some by exact Ha|].
    split.
    + rewrite <- Hperm, <- Hplug. apply plug_inorder_elem. cbn.
      apply elem_of_app. right. apply list_elem_of_here.
    + by apply kwp_eq_id.
  - exists s, None. split; [done|]. split; [done|]. by rewrite <- Hperm.
Qed.

Lemma find_after_adds_witness :
  ∃ s r,
    run_ops 7 (Add <$> (sample_key <$> [3; 1; 2])) RangeIndex.__init__
    = Ret tt s
    ∧ RangeIndex.find 7 (sample_key 2) s = Ret r s
    ∧ match r with
      | Some a =>
          ∃ k, getattr BSTnode.key (Some a) s = Ret k s
               ∧ k ∈ sample_key <$> [3; 1; 2]
               ∧ KeyWirePair.__eq__ (sample_key 2) k = true
      | None => kwp_id (sample_key 2) ∉ kwp_id <$> (sample_key <$> [3; 1; 2])
      end.
Proof.
  apply (find_after_adds 7 (sample_key <$> [3; 1; 2]) (sample_key 2)).
  - cbn. repeat constructor; rewrite ?not_elem_of_cons, ?elem_of_nil;
      intuition discriminate.
  - cbn. lia.
Defined.

(** ** Removal of a key that is not stored *)

(** X12: [pop_node] of a key that the index does not store raises
    [AttributeError] and leaves the index as it was: [find] returns
    [None], and the method reads [node.parent] before it tests [node]. *)
Theorem pop_node_missing_key (fuel : nat) (key : KeyWirePair.t)
    (s : index_state) (t : tree) :
  index_ok s t → (length (inorder t) ≤ fuel)%nat →
  kwp_id key ∉ kwp_id <$> inorder t →
  RangeIndex.pop_node fuel key s = Raise AttributeError s.
Proof.
  intros Hok Hfuel Hnotin.
  destruct (find_spec fuel key s t Hok) as
    [(C & l & a & k & h & c & r & Hfind & Hfocus & Hplug & Hid)
    |[Hfind _]].
  { etrans; [apply depth_le_inorder|done]. }
  - exfalso. apply Hnotin. rewrite <- Hid. apply list_elem_of_fmap_2.
    rewrite <- Hplug. apply plug_inorder_elem. cbn.
    apply elem_of_app. right. apply list_elem_of_here.
  - unfold RangeIndex.pop_node. unfold mbind at 1, M_bind at 1.
    rewrite Hfind. done.
Qed.

Lemma pop_node_missing_key_witness :
  ∃ s,
    RangeIndex.add 5 (Some (sample_key 1)) RangeIndex.__init__ = Ret tt s
    ∧ RangeIndex.pop_node 5 (sample_key 2) s = Raise AttributeError s.
Proof.
  destruct (add_spec 5 (sample_key 1) RangeIndex.__init__ E index_ok_init)
    as (s & t & Hadd & Hok & Hperm).
  { cbn. apply not_elem_of_nil. }
  { cbn. lia. }
  exists s. split; [exact Hadd|].
  apply (pop_node_missing_key 5 (sample_key 2) s t Hok).
  - rewrite Hperm. cbn. lia.
  - rewrite Hperm. cbn. rewrite not_elem_of_cons.
    split; [discriminate|apply not_elem_of_nil].
Defined.

(** ** [LCA] *)

Lemma LCA_loop_result (low high : KeyWirePair.t) (fuel : nat) :
  ∀ node s,
    match RangeIndex.LCA_loop fuel low high node s with
    | Ret r s' =>
        s' = s
        ∧ match r with
          | None => node = None
          | Some a =>
              ∃ k, getattr BSTnode.key (Some a) s = Ret k s
                   ∧ RangeIndex.in_range low high k = false
          end
    | Raise e s' => s' = s ∧ e = AttributeError
    | OutOfFuel | Dangling => True
    end.
Proof.
  induction fuel as [|fuel IH]; intros [a|] s; cbn [RangeIndex.LCA_loop];
    try done.
  unfold mbind at 1, M_bind at 1. unfold getattr at 1.
  destruct (cells s !! a) as [n|] eqn:Ha; [|done].
  fold (RangeIndex.in_range low high (BSTnode.key n)).
  destruct (RangeIndex.in_range low high (BSTnode.key n)) eqn:Hin.
  2:{ unfold mret, M_ret. split; [done|]. exists (BSTnode.key n).
      split; [exact (getattr_Some _ _ _ _ Ha)|done]. }
  unfold mbind at 1, M_bind at 1. unfold mbind at 1, M_bind at 1.
  rewrite (getattr_Some _ _ _ _ Ha).
  destruct (BSTnode.left n) as [la|] eqn:Hl; [|done].
  unfold getattr at 1.
  destruct (cells s !! la) as [nl|] eqn:Hla; [|exact I].
  destruct (KeyWirePair.__lt__ low (BSTnode.key nl)).
  - unfold mbind at 1, M_bind at 1. rewrite (getattr_Some _ _ _ _ Ha), Hl.
    specialize (IH (Some la) s).
    destruct (RangeIndex.LCA_loop fuel low high (Some la) s)
      as [[a'|] s'| | |]; try done; by destruct IH as [_ [=]].
  - unfold mbind at 1, M_bind at 1. rewrite (getattr_Some _ _ _ _ Ha).
    specialize (IH (Some a) s).
    destruct (RangeIndex.LCA_loop fuel low high (Some a) s)
      as [[a'|] s'| | |]; done.
Qed.

(** X13: [LCA] never changes the index, and the only exception it raises
    is [AttributeError].  It returns [None] only for an index without a
    root, and a node it returns holds a key outside the range from [low]
    to [high]: it never returns a node whose key lies in the range. *)
Theorem LCA_result (fuel : nat) (low high : KeyWirePair.t)
    (s : index_state) :
  match RangeIndex.LCA fuel low high s with
  | Ret r s' =>
      s' = s
      ∧ match r with
        | None => root s = None
        | Some a =>
            ∃ k, getattr BSTnode.key (Some a) s = Ret k s
                 ∧ (KeyWirePair.__le__ low k && KeyWirePair.__le__ k high)
                   = false
        end
  | Raise e s' => s' = s ∧ e = AttributeError
  | OutOfFuel | Dangling => True
  end.
Proof.
  unfold RangeIndex.LCA, mbind, M_bind.
  exact (LCA_loop_result low high fuel (root s) s).
Qed.

(** X14: what [LCA] does when the key of the root lies in the range.  If
    the root has no left child it raises [AttributeError], at the read of
    [node.left.key].  If the root has a left child and [low] is not below
    the key of that child, the loop never ends: its [else] branch compares
    [node] with [node.right] and leaves [node] as it is, so no amount of
    fuel lets the call return. *)
Theorem LCA_root_in_range (low high : KeyWirePair.t) (s : index_state)
    (a : addr) (n : BSTnode.t) :
  root s = Some a → cells s !! a = Some n →
  (KeyWirePair.__le__ low (BSTnode.key n)
   && KeyWirePair.__le__ (BSTnode.key n) high) = true →
  (BSTnode.left n = None →
   ∀ fuel, RangeIndex.LCA (S fuel) low high s = Raise AttributeError s)
  ∧ (∀ la nl,
       BSTnode.left n = Some la → cells s !! la = Some nl →
       KeyWirePair.__lt__ low (BSTnode.key nl) = false →
       ∀ fuel, RangeIndex.LCA fuel low high s = OutOfFuel).
Proof.
  intros Hroot Ha Hin. split.
  - intros Hl fuel. unfold RangeIndex.LCA, mbind, M_bind. rewrite Hroot.
    cbn [RangeIndex.LCA_loop]. unfold mbind, M_bind.
    rewrite (getattr_Some BSTnode.key _ _ _ Ha), Hin.
    rewrite (getattr_Some BSTnode.left _ _ _ Ha), Hl. done.
  - intros la nl Hl Hla Hlt fuel.
    unfold RangeIndex.LCA. unfold mbind at 1, M_bind at 1. rewrite Hroot.
    induction fuel as [|fuel IH]; [done|].
    cbn [RangeIndex.LCA_loop]. unfold mbind, M_bind.
    rewrite (getattr_Some BSTnode.key _ _ _ Ha), Hin.
    rewrite (getattr_Some BSTnode.left _ _ _ Ha), Hl.
    rewrite (getattr_Some BSTnode.key _ _ _ Hla), Hlt.
    rewrite (getattr_Some BSTnode.right _ _ _ Ha). exact IH.
Qed.

Lemma LCA_root_in_range_witness :
  ∃ s,
    run_ops 5 (Add <$> [sample_key 2; sample_key 1]) RangeIndex.__init__
    = Ret tt s
    ∧ (∀ fuel,
         RangeIndex.LCA fuel (KeyWirePairL 2) (KeyWirePairH 3) s = OutOfFuel).
Proof.
  eexists. split; [vm_compute; reflexivity|].
  refine (proj2 (LCA_root_in_range (KeyWirePairL 2) (KeyWirePairH 3)
                   _ 0%nat _ _ _ _) 1%nat _ _ _ _).
  - reflexivity.
  - vm_compute. reflexivity.
  - vm_compute. reflexivity.
  - vm_compute. reflexivity.
  - vm_compute. reflexivity.
  - vm_compute. reflexivity.
Defined.

(** ** The keys of the nodes *)

Lemma keys_getattr {A} (f : BSTnode.t → A) node :
  keeps node_keys (getattr f node).
Proof.
  intros s. unfold getattr. destruct node; [|done]. by destruct (_ !! _).
Qed.

Lemma keys_getattr_opt {A} (f : BSTnode.t → option A) node :
  keeps node_keys (getattr_opt f node).
Proof.
  apply keeps_bind; [apply keys_getattr|].
  intros [?|]; [apply keeps_mret | apply keeps_raise].
Qed.

Lemma keys_setattr upd node :
  (∀ n, BSTnode.key (upd n) = BSTnode.key n) →
  keeps node_keys (setattr upd node).
Proof.
  intros Hupd s. unfold setattr. destruct node as [a|]; [|done].
  destruct (cells s !! a) as [n|] eqn:Ha; [|done].
  unfold node_keys. cbn [cells]. rewrite fmap_insert, Hupd.
  apply insert_id. by rewrite lookup_fmap, Ha.
Qed.

Lemma keys_set_root v : keeps node_keys (set_root v).
Proof. by intros s. Qed.

Lemma keys_height node : keeps node_keys (height node).
Proof. destruct node; [apply keys_getattr_opt | apply keeps_mret]. Qed.

Create HintDb node_keys discriminated.
#[local] Hint Resolve keeps_mret keeps_raise keys_getattr keys_getattr_opt
  keys_set_root keys_height : node_keys.
#[local] Hint Extern 1 (keeps node_keys (setattr _ _)) =>
  (apply keys_setattr; intros []; reflexivity) : node_keys.

Ltac keys_step :=
  first
    [ solve [auto with node_keys]
    | apply keeps_bind; [|intros ?]
    | match goal with
      | |- keeps _ (match ?x with _ => _ end) => destruct x
      | |- keeps _ (if ?b then _ else _) => destruct b
      end ].

Lemma keys_update_height node : keeps node_keys (update_height node).
Proof. unfold update_height. repeat keys_step. Qed.

Lemma keys_number_below r l : keeps node_keys (number_below r l).
Proof. unfold number_below. repeat keys_step. Qed.

#[local] Hint Resolve keys_update_height keys_number_below : node_keys.

Lemma keys_update_number_below node :
  keeps node_keys (update_number_below node).
Proof. unfold update_number_below. repeat keys_step. Qed.

#[local] Hint Resolve keys_update_number_below : node_keys.

Lemma keys_left_rotate x : keeps node_keys (RangeIndex.left_rotate x).
Proof. unfold RangeIndex.left_rotate. repeat keys_step. Qed.

Lemma keys_right_rotate y : keeps node_keys (RangeIndex.right_rotate y).
Proof. unfold RangeIndex.right_rotate. repeat keys_step. Qed.

#[local] Hint Resolve keys_left_rotate keys_right_rotate : node_keys.

Lemma keys_rebalance_step node :
  keeps node_keys (RangeIndex.rebalance_step node).
Proof.
  unfold RangeIndex.rebalance_step, RangeIndex.left_of, RangeIndex.right_of.
  repeat keys_step.
Qed.

#[local] Hint Resolve keys_rebalance_step : node_keys.

Lemma keys_rebalance fuel node :
  keeps node_keys (RangeIndex.rebalance fuel node).
Proof.
  revert node.
  induction fuel as [|fuel IH]; intros [a|]; cbn [RangeIndex.rebalance];
    try solve [auto with node_keys]; [by intros s|].
  repeat keys_step.
Qed.

Lemma keys_find_loop fuel key node :
  keeps node_keys (RangeIndex.find_loop fuel key node).
Proof.
  revert node. induction fuel as [|fuel IH]; intros [a|]; cbn;
    try solve [auto with node_keys]; [by intros s|].
  repeat keys_step.
Qed.

#[local] Hint Resolve keys_rebalance keys_find_loop : node_keys.

Lemma keys_pop_node fuel key : keeps node_keys (RangeIndex.pop_node fuel key).
Proof.
  unfold RangeIndex.pop_node, RangeIndex.find.
  apply keeps_bind.
  { apply keeps_bind; [by intros s|intros r]. auto with node_keys. }
  intros node. repeat keys_step.
Qed.

Lemma keys_LCA_loop fuel low high node :
  keeps node_keys (RangeIndex.LCA_loop fuel low high node).
Proof.
  revert node. induction fuel as [|fuel IH]; intros [a|]; cbn;
    try solve [auto with node_keys]; [by intros s|].
  repeat keys_step.
Qed.

Lemma keys_add_loop fuel key new node :
  keeps node_keys (RangeIndex.add_loop fuel key new node).
Proof.
  revert node. induction fuel as [|fuel IH]; intros node; cbn;
    [by intros s|].
  repeat keys_step.
Qed.

(** X15: no method of the index changes the key of a node or frees a
    node: [find], [pop_node], [LCA], [rebalance] and the two rotations
    leave the keys of all nodes as they are, whether they return or raise,
    and [add] only gives the new node its key. *)
Theorem node_keys_preserved (fuel : nat) (key low high : KeyWirePair.t)
    (node : option addr) :
  keeps node_keys (RangeIndex.find fuel key)
  ∧ keeps node_keys (RangeIndex.pop_node fuel key)
  ∧ keeps node_keys (RangeIndex.LCA fuel low high)
  ∧ keeps node_keys (RangeIndex.rebalance fuel node)
  ∧ keeps node_keys (RangeIndex.left_rotate node)
  ∧ keeps node_keys (RangeIndex.right_rotate node)
  ∧ ∀ s, match RangeIndex.add fuel (Some key) s with
         | Ret _ s' | Raise _ s' =>
             node_keys s' = <[next_addr s := key]> (node_keys s)
         | OutOfFuel | Dangling => True
         end.
Proof.
  split; [|split; [|split; [|split; [|split; [|split]]]]].
  - unfold RangeIndex.find. apply keeps_bind; [by intros s|intros r].
    apply keys_find_loop.
  - apply keys_pop_node.
  - unfold RangeIndex.LCA. apply keeps_bind; [by intros s|intros r].
    apply keys_LCA_loop.
  - apply keys_rebalance.
  - apply keys_left_rotate.
  - apply keys_right_rotate.
  - intros s. unfold RangeIndex.add.
    unfold mbind at 1, M_bind at 1. unfold alloc at 1.
    set (s1 := mk_index_state _ _ _ _).
    assert (Hs1 : node_keys s1 = <[next_addr s := key]> (node_keys s)).
    { unfold node_keys, s1. cbn [cells]. by rewrite fmap_insert. }
    rewrite <- Hs1.
    assert (Hk : keeps node_keys
      (r ← (λ s, Ret (root s) s);
       match r with
       | None => set_root (Some (next_addr s))
       | Some _ => RangeIndex.add_loop fuel key (next_addr s) r
       end;;
       RangeIndex.rebalance fuel (Some (next_addr s)))).
    { apply keeps_bind; [by intros ?|intros r].
      apply keeps_bind; [|intros ?; apply keys_rebalance].
      destruct r; [apply keys_add_loop|apply keys_set_root]. }
    exact (Hk s1).
Qed.

(** ** Rebalancing after a removal *)

(** As [rebalance_spec], for a focus that has lost height: the side
    subtrees of the context are balanced against the height [h0] that the
    focus had before the removal, and the focus has height [h0] or
    [h0 - 1]. *)
Lemma rebalance_del_spec (fuel : nat) :
  ∀ s C l a k h c r h0,
    at_focus s C (T l a k h c r) → avl l → avl r →
    Z.abs (cached_height l - cached_height r) ≤ 2 →
    h0 - 1 ≤ Z.max (cached_height r) (cached_height l) + 1 ≤ h0 →
    (Z.abs (cached_height l - cached_height r) = 2 →
     Z.max (cached_height r) (cached_height l) + 1 = h0) →
    ctx_ok C h0 →
    (2 * length C
     + (if bool_decide (Z.abs (cached_height l - cached_height r) ≤ 1)%Z
        then 1 else 2) ≤ fuel)%nat →
    ∃ s' t',
      RangeIndex.rebalance fuel (Some a) s = Ret tt s'
      ∧ at_focus s' [] t' ∧ avl t'
      ∧ inorder t' = ctx_before C ++ (inorder l ++ k :: inorder r) ++ ctx_after C
      ∧ (∀ z, z ∈ addrs t' → z ∈ ctx_addrs C ++ addrs l ++ a :: addrs r)
      ∧ data s' = data s ∧ next_addr s' = next_addr s.
Proof.
  induction fuel as [|fuel IH]; intros s C l a k h c r h0 Hf Hl Hr Hd Hh0 Hh2 Hok Hfuel.
  { case_bool_decide; lia. }
  cbn [RangeIndex.rebalance].
  destruct (rebalance_step_spec _ _ _ _ _ _ _ _ Hf Hl Hr Hd)
    as (s1 & t1 & Hrun & Hf1 & Ht1 & Hin1 & Had1 & Hd1 & Hn1 & Hcase).
  erewrite bind_Ret by exact Hrun.
  destruct Hcase as [[Hroot Hht]|(Hd2 & Hht & Hpar)].
  - destruct t1 as [|l1 a1 k1 h1 c1 r1]; [done|].
    injection Hroot as ->.
    pose proof Ht1 as (Hl1 & Hr1 & _).
    destruct (read_focus _ _ _ _ _ _ _ _ Hf1
                (avl_has_cache _ Hl1) (avl_has_cache _ Hr1))
      as (_ & _ & _ & _ & Hpar).
    erewrite bind_Ret by exact Hpar.
    destruct C as [|[p pk ph pc pr|pl p pk ph pc] C'].
    + exists s1, (T l1 a k1 h1 c1 r1). cbn [ctx_parent].
      split; [apply rebalance_None|]. split; [done|]. split; [done|].
      split; [cbn; by rewrite app_nil_r|]. split; [|done].
      intros z. by rewrite Had1.
    + destruct Hok as (Hpr & Hbal & Hok).
      apply focus_left in Hf1.
      cbn [length] in Hfuel.
      destruct (IH s1 C' (T l1 a k1 h1 c1 r1) p pk ph pc pr
                  (Z.max (cached_height pr) h0 + 1) Hf1 Ht1 Hpr)
        as (s2 & t2 & Hrun2 & Hf2 & Ht2 & Hin2 & Had2 & Hd2 & Hn2);
        [lia|lia|lia|done|repeat case_bool_decide; lia|].
      exists s2, t2. cbn [ctx_parent frame_addr].
      split; [done|]. split; [done|]. split; [done|].
      split; [|split; [|split; congruence]].
      * rewrite Hin2, Hin1. cbn [ctx_before ctx_after].
        by rewrite <- !app_assoc.
      * intros z Hz. apply Had2 in Hz. rewrite Had1 in Hz.
        cbn [ctx_addrs addrs]. revert Hz. clear.
        repeat first [rewrite elem_of_app | rewrite elem_of_cons]. tauto.
    + destruct Hok as (Hpl & Hbal & Hok).
      apply focus_right in Hf1.
      cbn [length] in Hfuel.
      destruct (IH s1 C' pl p pk ph pc (T l1 a k1 h1 c1 r1)
                  (Z.max h0 (cached_height pl) + 1) Hf1 Hpl Ht1)
        as (s2 & t2 & Hrun2 & Hf2 & Ht2 & Hin2 & Had2 & Hd2 & Hn2);
        [lia|lia|lia|done|repeat case_bool_decide; lia|].
      exists s2, t2. cbn [ctx_parent frame_addr].
      split; [done|]. split; [done|]. split; [done|].
      split; [|split; [|split; congruence]].
      * rewrite Hin2, Hin1. cbn [ctx_before ctx_after].
        rewrite <- !app_assoc. cbn [app]. by rewrite <- !app_assoc.
      * intros z Hz. apply Had2 in Hz. rewrite Had1 in Hz.
        cbn [ctx_addrs addrs]. revert Hz. clear.
        repeat first [rewrite elem_of_app | rewrite elem_of_cons]. tauto.
  - erewrite bind_Ret by exact Hpar.
    pose proof (avl_height_ge _ Hl) as Hgl.
    pose proof (avl_height_ge _ Hr) as Hgr.
    destruct t1 as [|l1 x k1 h1 c1 r1]; [cbn in Hht; lia|].
    pose proof Ht1 as (Hl1 & Hr1 & Hh1 & _ & Hb1).
    subst h1. cbn [cached_height default from_option id] in Hht.
    rewrite bool_decide_eq_false_2 in Hfuel by lia.
    destruct (IH s1 C l1 x k1 _ c1 r1 h0 Hf1 Hl1 Hr1)
      as (s2 & t2 & Hrun2 & Hf2 & Ht2 & Hin2 & Had2 & Hd2' & Hn2);
      [lia|lia|lia|done|rewrite bool_decide_eq_true_2 by lia; lia|].
    exists s2, t2. cbn [root_of].
    split; [done|]. split; [done|]. split; [done|].
    split; [|split; [|split; congruence]].
    + rewrite Hin2. cbn [inorder] in Hin1. by rewrite Hin1.
    + intros z Hz. apply Had2 in Hz. cbn [addrs] in Had1.
      by rewrite Had1 in Hz.
Qed.

Lemma avl_plug C :
  ∀ t, avl (plug C t) → avl t ∧ ctx_ok C (cached_height t).
Proof.
  induction C as [|[a k h c r|l a k h c] C IH]; intros t Ht; [done|..];
    cbn [plug] in Ht; apply IH in Ht as [(Hl & Hr & -> & _ & Hb) Hok];
    cbn [cached_height default from_option id] in Hok;
    cbn [ctx_ok]; auto.
Qed.

Lemma depth_plug C :
  ∀ t, (length C + depth t ≤ depth (plug C t))%nat.
Proof.
  induction C as [|[a k h c r|l a k h c] C IH]; intros t; [done|..];
    cbn [plug length]; (etrans; [|apply IH]); cbn [depth]; lia.
Qed.

Lemma sorted_remove (A B : list KeyWirePair.t) k :
  StronglySorted kwp_lt (A ++ k :: B) → StronglySorted kwp_lt (A ++ B).
Proof.
  intros (HAB & HA & HkB)%StronglySorted_app.
  apply StronglySorted_cons in HkB as [_ HB].
  apply StronglySorted_app. split; [|done].
  intros x y Hx Hy. apply HAB; [done|]. by apply list_elem_of_further.
Qed.

(** ** Removal of a node without a left child *)

Lemma NoDup_of_submseteq {A} (l k : list A) : l ⊆+ k → NoDup k → NoDup l.
Proof.
  intros (k' & Hs & Hp)%submseteq_sublist_l Hk.
  eapply sublist_NoDup; [|exact Hs]. by rewrite Hp.
Qed.

Lemma cell_after_keys s s' a n :
  node_keys s' = node_keys s → cells s !! a = Some n →
  ∃ n', cells s' !! a = Some n' ∧ BSTnode.key n' = BSTnode.key n.
Proof.
  intros Hk Ha.
  assert (H : node_keys s' !! a = Some (BSTnode.key n)).
  { rewrite Hk. unfold node_keys. by rewrite lookup_fmap, Ha. }
  unfold node_keys in H. rewrite lookup_fmap in H.
  destruct (cells s' !! a) as [n'|]; [|done].
  exists n'. split; [done|]. by injection H.
Qed.

(** [pop_node] of the node at the focus, when the node has no left child
    and is the root or the left child of its parent. *)
Lemma pop_node_focus fuel key s C a k h c r :
  at_focus s C (T E a k h c r) →
  match C with InR _ _ _ _ _ :: _ => False | _ => True end →
  avl (plug C (T E a k h c r)) →
  RangeIndex.find fuel key s = Ret (Some a) s →
  (2 * length C ≤ fuel)%nat →
  ∃ s' t' n,
    RangeIndex.pop_node fuel key s = Ret (Some a) s'
    ∧ at_focus s' [] t' ∧ avl t'
    ∧ inorder t' = ctx_before C ++ inorder r ++ ctx_after C
    ∧ (∀ z, z ∈ addrs t' → z ∈ ctx_addrs C ++ addrs r)
    ∧ data s' = data s ∧ next_addr s' = next_addr s
    ∧ cells s' !! a = Some (BSTnode.disconnect n) ∧ BSTnode.key n = k.
Proof.
  intros Hf HC Havl Hfind Hfuel.
  apply avl_plug in Havl as [(_ & Hr & Hh & _ & Hb) Hok].
  unfold RangeIndex.pop_node.
  erewrite bind_Ret by exact Hfind.
  destruct C as [|[p kp hp cp rp|] C']; [| |done].
  - (* the node is the root *)
    destruct Hf as (Hroot & (Ha & _ & Hrr) & Hnd).
    cbn [ctx_repr root_of ctx_parent ctx_addrs app addrs] in *.
    split_nodup.
    repeat mstep.
    destruct r as [|rl ra rk rh rc rr].
    + cbn [root_of]. repeat mstep.
      erewrite bind_Ret by apply rebalance_None.
      repeat mstep.
      eexists _, E, _. split; [reflexivity|].
      split; [by focus_tac; constructor|].
      split; [done|]. split; [done|]. split; [done|].
      split; [done|]. split; [done|]. cbn [cells].
      split; [apply lookup_insert_eq|done].
    + destruct Hrr as (Hra & Hrl & Hrr). cbn [root_of addrs] in *.
      split_nodup. repeat mstep.
      erewrite bind_Ret by apply rebalance_None. repeat mstep.
      eexists _, (T rl ra rk rh rc rr), _. split; [reflexivity|].
      split.
      { split; [done|]. split; [focus_tac|].
        cbn [ctx_addrs app addrs]. apply NoDup_app.
        split; [done|]. split; [|by apply NoDup_cons].
        intros x Hx. rewrite not_elem_of_cons. split; [|auto].
        intros ->. contradiction. }
      split; [done|]. split; [by rewrite app_nil_r|].
      split; [by intros z Hz|].
      split; [done|]. split; [done|]. cbn [cells].
      split; [apply lookup_insert_eq|done].
  - (* the node is the left child of [p] *)
    destruct Hok as (Hrp & Hbp & Hok).
    destruct Hf as ((Hp & Hrpr & Hctx) & (Ha & _ & Hrr) & Hnd).
    cbn [ctx_repr root_of ctx_parent frame_addr ctx_addrs app addrs] in *.
    pose proof (λ l Hl, NoDup_of_submseteq l _ Hl Hnd) as Hsub.
    split_nodup.
    pose proof (avl_height_ge _ Hr) as Hgr.
    pose proof (avl_height_ge _ Hrp) as Hgrp.
    subst h. cbn [cached_height default from_option id] in Hbp, Hok.
    cbn [length] in Hfuel.
    repeat mstep.
    destruct r as [|rl ra rk rh rc rr].
    + cbn [root_of]. repeat mstep.
      match goal with
      | |- context [(RangeIndex.rebalance _ _ ≫= _) ?st] => set (s1 := st)
      end.
      assert (Hf1 : at_focus s1 C' (T E p kp hp cp rp)).
      { split; [subst s1; focus_tac|]. split; [subst s1; focus_tac|].
        apply Hsub. cbn [addrs app]. solve_submseteq. }
      destruct (rebalance_del_spec fuel s1 C' E p kp hp cp rp
                  (Z.max (cached_height rp) (Z.max (-1) (-1) + 1) + 1)
                  Hf1 I Hrp)
        as (s2 & t2 & Hreb & Hf2 & Ht2 & Hin2 & Had2 & Hd2 & Hn2);
        [cbn [cached_height] in *; lia..|done
        |repeat case_bool_decide; lia|].
      erewrite bind_Ret by exact Hreb.
      assert (Ha1 : cells s1 !! a = Some
                (BSTnode.mk k None (root_of E) (Some p)
                   (Some (Z.max (cached_height E) (cached_height E) + 1)) c)).
      { subst s1. lookup_tac. }
      pose proof (keys_rebalance fuel (Some p) s1) as Hk.
      rewrite Hreb in Hk.
      destruct (cell_after_keys s1 s2 a _ Hk Ha1) as (n & Hn & Hkn).
      erewrite bind_Ret by (apply setattr_Some; exact Hn).
      eexists _, t2, n. split; [reflexivity|].
      assert (Hat2 : a ∉ addrs t2).
      { intros Hz%Had2. revert Hz. cbn [addrs].
        rewrite !elem_of_app, !elem_of_cons, ?elem_of_app, ?elem_of_cons.
        intuition (subst; contradiction || congruence). }
      destruct Hf2 as (Hroot2 & Hrepr2 & Hnd2).
      split.
      { split; [done|]. split; [|done]. cbn [cells ctx_parent].
        by apply repr_insert_ne. }
      split; [done|].
      split.
      { rewrite Hin2. cbn [ctx_before ctx_after inorder].
        by rewrite <- !app_assoc. }
      split.
      { intros z Hz%Had2. revert Hz. cbn [addrs]. clear.
        rewrite !elem_of_app, !elem_of_cons, ?elem_of_app, ?elem_of_cons.
        tauto. }
      cbn [data next_addr cells].
      split; [by rewrite Hd2|]. split; [by rewrite Hn2|].
      split; [apply lookup_insert_eq|done].
    + destruct Hrr as (Hra & Hrl & Hrr). cbn [root_of addrs] in *.
      split_nodup. repeat mstep.
      match goal with
      | |- context [(RangeIndex.rebalance _ _ ≫= _) ?st] => set (s1 := st)
      end.
      assert (Hf1 : at_focus s1 C' (T (T rl ra rk rh rc rr) p kp hp cp rp)).
      { split; [subst s1; focus_tac|]. split; [subst s1; focus_tac|].
        apply Hsub. cbn [addrs app]. solve_submseteq. }
      destruct (rebalance_del_spec fuel s1 C' (T rl ra rk rh rc rr)
                  p kp hp cp rp
                  (Z.max (cached_height rp)
                     (Z.max (cached_height (T rl ra rk rh rc rr)) (-1) + 1)
                   + 1)
                  Hf1 Hr Hrp)
        as (s2 & t2 & Hreb & Hf2 & Ht2 & Hin2 & Had2 & Hd2 & Hn2);
        [cbn [cached_height] in *; lia..|done
        |repeat case_bool_decide; lia|].
      erewrite bind_Ret by exact Hreb.
      assert (Ha1 : cells s1 !! a = Some
                (BSTnode.mk k None (Some ra) (Some p)
                   (Some (Z.max (cached_height (T rl ra rk rh rc rr)) (cached_height E) + 1)) c)).
      { subst s1. lookup_tac. }
      pose proof (keys_rebalance fuel (Some p) s1) as Hk.
      rewrite Hreb in Hk.
      destruct (cell_after_keys s1 s2 a _ Hk Ha1) as (n & Hn & Hkn).
      erewrite bind_Ret by (apply setattr_Some; exact Hn).
      eexists _, t2, n. split; [reflexivity|].
      assert (Hat2 : a ∉ addrs t2).
      { intros Hz%Had2. revert Hz. cbn [addrs].
        rewrite !elem_of_app, !elem_of_cons, ?elem_of_app, ?elem_of_cons.
        intuition (subst; contradiction || congruence). }
      destruct Hf2 as (Hroot2 & Hrepr2 & Hnd2).
      split.
      { split; [done|]. split; [|done]. cbn [cells ctx_parent].
        by apply repr_insert_ne. }
      split; [done|].
      split.
      { rewrite Hin2. cbn [ctx_before ctx_after inorder].
        by rewrite <- !app_assoc. }
      split.
      { intros z Hz%Had2. revert Hz. cbn [addrs]. clear.
        rewrite !elem_of_app, !elem_of_cons, ?elem_of_app, ?elem_of_cons.
        tauto. }
      cbn [data next_addr cells].
      split; [by rewrite Hd2|]. split; [by rewrite Hn2|].
      split; [apply lookup_insert_eq|done].
Qed.


Lemma addrs_plug C :
  ∀ t z, z ∈ ctx_addrs C ++ addrs t → z ∈ addrs (plug C t).
Proof.
  induction C as [|[a k h c r|l a k h c] C IH]; intros t z; [done|..];
    cbn [plug ctx_addrs]; intros Hz; apply IH; revert Hz; cbn [addrs];
    clear; rewrite ?elem_of_app, ?elem_of_cons, ?elem_of_app, ?elem_of_cons;
    tauto.
Qed.

Lemma sorted_head_unique (A B rest : list KeyWirePair.t) k k' :
  StronglySorted kwp_lt (k :: rest) →
  A ++ k' :: B = k :: rest → kwp_id k' = kwp_id k →
  A = [] ∧ k' = k ∧ B = rest.
Proof.
  intros Hs Heq Hid. destruct A as [|x A]; cbn in Heq.
  - by injection Heq.
  - injection Heq as -> <-. exfalso.
    apply StronglySorted_cons in Hs as [Hk _].
    eapply Forall_forall in Hk.
    + apply (kwp_lt_id_ne _ _ Hk). by symmetry.
    + apply elem_of_app. right. apply list_elem_of_here.
Qed.

Lemma inorder_nil t : inorder t = [] → t = E.
Proof.
  destruct t as [|l a k h c r]; [done|]. cbn. intros H.
  symmetry in H. by apply app_cons_not_nil in H.
Qed.

Lemma ctx_before_nil C :
  ctx_before C = [] → match C with InR _ _ _ _ _ :: _ => False | _ => True end.
Proof.
  destruct C as [|[|l a k h c] C]; [done..|]. cbn. intros H.
  rewrite app_assoc in H. symmetry in H. by apply app_cons_not_nil in H.
Qed.

(** X16: [pop_node] as a priority queue.  In an index that stores an AVL
    tree with its keys in ascending order, [pop_node] of the least stored
    key returns the node of that key, disconnected, and leaves an index
    that stores the other keys in the same order and is again an AVL tree
    with exact cached heights and counts. *)
Theorem pop_node_least_key (fuel : nat) (key k : KeyWirePair.t)
    (rest : list KeyWirePair.t) (s : index_state) (t : tree) :
  index_ok s t → inorder t = k :: rest →
  KeyWirePair.__eq__ key k = true →
  (2 * length (inorder t) ≤ fuel)%nat →
  ∃ a s' t',
    RangeIndex.pop_node fuel key s = Ret (Some a) s'
    ∧ index_ok s' t' ∧ inorder t' = rest
    ∧ getattr BSTnode.key (Some a) s' = Ret k s'
    ∧ getattr BSTnode.left (Some a) s' = Ret None s'
    ∧ getattr BSTnode.right (Some a) s' = Ret None s'
    ∧ getattr BSTnode.parent (Some a) s' = Ret None s'.
Proof.
  intros Hok Hin Heq Hfuel.
  pose proof (depth_le_inorder t) as Hdepth.
  destruct (find_spec fuel key s t Hok) as
    [(C & l & a & k' & h & c & r & Hfind & Hfocus & Hplug & Hid)
    |[_ Hnotin]]; [lia| |].
  2:{ exfalso. apply Hnotin. rewrite Hin, fmap_cons.
      apply kwp_eq_id in Heq. rewrite Heq. apply list_elem_of_here. }
  destruct Hok as (_ & Havl & Hsorted & Hlt & Hdata).
  rewrite Hin in Hsorted.
  assert (Hio : (ctx_before C ++ inorder l) ++ k' :: inorder r ++ ctx_after C
                = k :: rest).
  { rewrite <- Hin, <- Hplug, inorder_plug. cbn [inorder].
    by rewrite <- !app_assoc. }
  apply sorted_head_unique in Hio as (Hnil & -> & Hrest); [|done|].
  2:{ rewrite Hid. by apply kwp_eq_id. }
  apply app_eq_nil in Hnil as [HC Hl].
  apply inorder_nil in Hl as ->.
  pose proof (depth_plug C (T E a k h c r)) as Hlen.
  rewrite Hplug in Hlen. cbn [depth] in Hlen.
  destruct (pop_node_focus fuel key s C a k h c r Hfocus)
    as (s' & t' & n & Hpop & Hf' & Havl' & Hin' & Had' & Hd' & Hn' & Ha' & Hk');
    [by apply ctx_before_nil|by rewrite Hplug|done|lia|].
  exists a, s', t'. split; [done|].
  assert (Hrest' : inorder t' = rest).
  { by rewrite Hin', HC. }
  split.
  { split; [done|]. split; [done|]. split.
    - rewrite Hrest'. by apply StronglySorted_cons in Hsorted as [_ ?].
    - split; [|congruence]. intros z Hz%Had'. rewrite Hn'. apply Hlt.
      rewrite <- Hplug. apply addrs_plug. revert Hz. cbn [addrs]. clear.
      rewrite ?elem_of_app, ?elem_of_cons. tauto. }
  split; [done|].
  rewrite !(getattr_Some _ _ _ _ Ha'). cbn. by rewrite Hk'.
Qed.

Lemma pop_node_least_key_witness :
  ∃ s t,
    RangeIndex.add 5 (Some (sample_key 1)) RangeIndex.__init__ = Ret tt s
    ∧ index_ok s t
    ∧ ∃ a s' t',
        RangeIndex.pop_node 5 (sample_key 1) s = Ret (Some a) s'
        ∧ index_ok s' t' ∧ inorder t' = []
        ∧ getattr BSTnode.key (Some a) s' = Ret (sample_key 1) s'
        ∧ getattr BSTnode.left (Some a) s' = Ret None s'
        ∧ getattr BSTnode.right (Some a) s' = Ret None s'
        ∧ getattr BSTnode.parent (Some a) s' = Ret None s'.
Proof.
  destruct (add_spec 5 (sample_key 1) RangeIndex.__init__ E index_ok_init)
    as (s & t & Hadd & Hok & Hperm).
  { cbn. apply not_elem_of_nil. }
  { cbn. lia. }
  exists s, t. split; [exact Hadd|]. split; [exact Hok|].
  apply Permutation_singleton_r in Hperm.
  apply (pop_node_least_key 5 (sample_key 1) (sample_key 1) [] s t Hok Hperm).
  - reflexivity.
  - rewrite Hperm. cbn. lia.
Defined.

(** ** One insertion into any index *)

(** X17: [add] of a key that equals no stored key, to an index that stores
    an AVL tree with its keys in ascending order, returns and leaves such
    an index, with the new key added to the stored keys and the invariants
    of the index in place.  The index may have been reached by any calls,
    not only by insertions. *)
Theorem add_to_valid_index (fuel : nat) (key : KeyWirePair.t)
    (s : index_state) (t : tree) :
  index_ok s t → kwp_id key ∉ kwp_id <$> inorder t →
  (2 * length (inorder t) + 3 ≤ fuel)%nat →
  ∃ s' t',
    RangeIndex.add fuel (Some key) s = Ret tt s'
    ∧ index_ok s' t' ∧ inorder t' ≡ₚ key :: inorder t
    ∧ index_invariants s'.
Proof.
  intros Hok Hnew Hfuel.
  destruct (add_spec fuel key s t Hok Hnew Hfuel) as (s' & t' & Hadd & Hok' & Hperm).
  exists s', t'. split; [done|]. split; [done|]. split; [done|].
  by eapply index_ok_invariants.
Qed.

Lemma add_to_valid_index_witness :
  ∃ s' t',
    RangeIndex.add 3 (Some (sample_key 1)) RangeIndex.__init__ = Ret tt s'
    ∧ index_ok s' t' ∧ inorder t' ≡ₚ sample_key 1 :: inorder E
    ∧ index_invariants s'.
Proof.
  apply (add_to_valid_index 3 (sample_key 1) RangeIndex.__init__ E).
  - apply index_ok_init.
  - cbn. apply not_elem_of_nil.
  - cbn. lia.
Defined.

(** ** Rotations *)

Lemma right_chain_focus :
  at_focus right_chain []
    (T E 0%nat (sample_key 1) (Some 1) (Some 1)
       (T E 1%nat (sample_key 2) (Some 0) (Some 0) E)).
Proof.
  unfold right_chain. split; [done|]. split.
  - cbn [repr root_of ctx_parent cells].
    rewrite lookup_insert_eq, lookup_insert_ne, lookup_insert_eq by done.
    done.
  - cbn. apply NoDup_cons. split; [|apply NoDup_singleton].
    by intros [=]%list_elem_of_singleton.
Qed.

(** X18: the two rotations are inverse to each other on the links.  For a
    node [x] whose right child is [y], [left_rotate] of [x] returns and
    makes [y] the root of the subtree, with [x] as its left child and the
    middle subtree [b] moved under [x]; [right_rotate] of [y] then returns
    and restores the shape.  Both keep the sequence of keys, and each
    refreshes the cached height and count of the two nodes, lower node
    first. *)
Theorem rotations_are_inverse (s : index_state) (C : list frame)
    (a b c : tree) (x y : addr) (kx ky : KeyWirePair.t)
    (hx cx hy cy : option Z) :
  at_focus s C (T a x kx hx cx (T b y ky hy cy c)) →
  has_cache a → has_cache b → has_cache c →
  ∃ s1 s2,
    RangeIndex.left_rotate (Some x) s = Ret tt s1
    ∧ at_focus s1 C (node (node a x kx b) y ky c)
    ∧ RangeIndex.right_rotate (Some y) s1 = Ret tt s2
    ∧ at_focus s2 C (node a x kx (node b y ky c))
    ∧ inorder (node (node a x kx b) y ky c)
      = inorder (T a x kx hx cx (T b y ky hy cy c))
    ∧ inorder (node a x kx (node b y ky c))
      = inorder (T a x kx hx cx (T b y ky hy cy c))
    ∧ node_keys s2 = node_keys s.
Proof.
  intros Hf Ha Hb Hc.
  destruct (left_rotate_focus _ _ _ _ _ _ _ _ _ _ _ _ _ Hf Ha Hb Hc)
    as (s1 & Hl & Hf1 & _ & _).
  destruct (right_rotate_focus _ _ _ _ _ _ _ _ _ _ _ _ _ Hf1 Ha Hb Hc)
    as (s2 & Hr & Hf2 & _ & _).
  exists s1, s2. split; [done|]. split; [done|]. split; [done|].
  split; [done|]. split; [cbn; by rewrite <- app_assoc|]. split; [done|].
  pose proof (keys_left_rotate (Some x) s) as H1. rewrite Hl in H1.
  pose proof (keys_right_rotate (Some y) s1) as H2. rewrite Hr in H2.
  congruence.
Qed.

Lemma rotations_are_inverse_witness :
  ∃ s1 s2,
    RangeIndex.left_rotate (Some 0%nat) right_chain = Ret tt s1
    ∧ at_focus s1 []
        (node (node E 0%nat (sample_key 1) E) 1%nat (sample_key 2) E)
    ∧ RangeIndex.right_rotate (Some 1%nat) s1 = Ret tt s2
    ∧ at_focus s2 []
        (node E 0%nat (sample_key 1) (node E 1%nat (sample_key 2) E))
    ∧ inorder (node (node E 0%nat (sample_key 1) E) 1%nat (sample_key 2) E)
      = inorder (T E 0%nat (sample_key 1) (Some 1) (Some 1)
                   (T E 1%nat (sample_key 2) (Some 0) (Some 0) E))
    ∧ inorder (node E 0%nat (sample_key 1) (node E 1%nat (sample_key 2) E))
      = inorder (T E 0%nat (sample_key 1) (Some 1) (Some 1)
                   (T E 1%nat (sample_key 2) (Some 0) (Some 0) E))
    ∧ node_keys s2 = node_keys right_chain.
Proof.
  apply (rotations_are_inverse right_chain [] E E E 0%nat 1%nat
           (sample_key 1) (sample_key 2) (Some 1) (Some 1) (Some 0) (Some 0)).
  - apply right_chain_focus.
  - exact I.
  - exact I.
  - exact I.
Defined.

(** ** The height of the tree *)

Lemma avl_size_bound t :
  avl t → 2 ^ ((cached_height t + 1) / 2) ≤ Z.of_nat (length (inorder t)) + 1.
Proof.
  induction t as [|l IHl a k h c r IHr]; [done|].
  intros (Hl & Hr & -> & _ & Hb).
  specialize (IHl Hl). specialize (IHr Hr).
  pose proof (avl_height_ge _ Hl) as Hgl.
  pose proof (avl_height_ge _ Hr) as Hgr.
  cbn [cached_height default from_option id inorder].
  rewrite length_app. cbn [length].
  set (hl := cached_height l) in *. set (hr := cached_height r) in *.
  assert (Hpow : ∀ m, -1 ≤ m → 2 ^ ((m + 3) / 2) = 2 * 2 ^ ((m + 1) / 2)).
  { intros m Hm. replace (m + 3) with (m + 1 + 1 * 2) by lia.
    rewrite Z.div_add by lia. rewrite Z.pow_add_r; [lia| |lia].
    apply Z.div_pos; lia. }
  assert (Hmono : ∀ u v, u ≤ v → 2 ^ ((u + 1) / 2) ≤ 2 ^ ((v + 1) / 2)).
  { intros u v Huv. apply Z.pow_le_mono_r; [lia|].
    apply Z.div_le_mono; lia. }
  destruct (Z.le_ge_cases hl hr) as [Hle|Hge].
  - trans (2 ^ ((hl + 3) / 2)).
    + apply Z.pow_le_mono_r; [lia|]. apply Z.div_le_mono; lia.
    + rewrite Hpow by lia. pose proof (Hmono hl hr Hle). lia.
  - trans (2 ^ ((hr + 3) / 2)).
    + apply Z.pow_le_mono_r; [lia|]. apply Z.div_le_mono; lia.
    + rewrite Hpow by lia. pose proof (Hmono hr hl Hge). lia.
Qed.

(** X19: insertion keeps the tree shallow.  After [n] keys, pairwise
    distinct, have been added to a new index, the height [h] of the stored
    tree satisfies [2 ^ ((h + 1) / 2) ≤ n + 1]: the height is at most
    about twice the binary logarithm of the number of keys. *)
Theorem height_after_adds (fuel : nat) (ks : list KeyWirePair.t) :
  NoDup (kwp_id <$> ks) →
  (2 * length ks + 1 ≤ fuel)%nat →
  ∃ s t,
    run_ops fuel (Add <$> ks) RangeIndex.__init__ = Ret tt s
    ∧ index_tree s = Some t
    ∧ 2 ^ ((subtree_height t + 1) / 2) ≤ Z.of_nat (length ks) + 1.
Proof.
  intros Hnd Hfuel.
  destruct (run_adds_spec fuel ks _ E index_ok_init Hnd)
    as (s & t & Hrun & Hok & Hperm).
  { intros k _ Hin. by apply elem_of_nil in Hin. }
  { cbn [inorder length]. lia. }
  rewrite app_nil_r in Hperm.
  exists s, t. split; [done|]. split; [by apply index_ok_tree|].
  destruct Hok as (_ & Havl & _).
  rewrite avl_subtree_height by done. rewrite <- Hperm.
  by apply avl_size_bound.
Qed.

Lemma height_after_adds_witness :
  ∃ s t,
    run_ops 7 (Add <$> (sample_key <$> [3; 1; 2])) RangeIndex.__init__
    = Ret tt s
    ∧ index_tree s = Some t
    ∧ 2 ^ ((subtree_height t + 1) / 2)
      ≤ Z.of_nat (length (sample_key <$> [3; 1; 2])) + 1.
Proof.
  apply (height_after_adds 7 (sample_key <$> [3; 1; 2])).
  - cbn. repeat constructor; rewrite ?not_elem_of_cons, ?elem_of_nil;
      intuition discriminate.
  - cbn. lia.
Defined.

(** ** The traced verifier *)

Lemma new_verifier_adds (layer : WireLayer.t) (cv : CrossVerifier.t)
    (fuel : nat) :
  CrossVerifier.__init__ layer = inr cv →
  NoDup (Wire.object_id <$> WireLayer.values layer) →
  (2 * length (WireLayer.values layer) + 1 ≤ fuel)%nat →
  ∃ la lq i t,
    cv = CrossVerifier.mk (la ++ lq) RangeIndex.__init__ ResultSet.__init__
           false
    ∧ Forall (λ e, ev_type e = "add") la
    ∧ Forall (λ e, ev_type e = "query") lq
    ∧ run_ops fuel (Add <$> (key_of_wire <$> (ev_wire <$> la)))
        RangeIndex.__init__ = Ret tt i
    ∧ index_ok i t.
Proof.
  intros Hinit Hnd Hfuel.
  apply CrossVerifier_init_shape in Hinit
    as (m & evs & Hm & -> & Hperm & la & lq & -> & Hla & Hlq).
  assert (Hlaperm : la ≡ₚ CrossVerifier.event_of_wire m
                          <$> horizontal_wires layer).
  { unfold horizontal_wires. rewrite <- filter_add_events, <- Hperm.
    by rewrite filter_adds_then_queries. }
  assert (Hkeys : key_of_wire <$> (ev_wire <$> la)
                  ≡ₚ key_of_wire <$> horizontal_wires layer).
  { rewrite Hlaperm. rewrite <- (list_fmap_compose _ ev_wire).
    erewrite (list_fmap_ext (ev_wire ∘ _) id); [by rewrite list_fmap_id|].
    intros ? w _. apply ev_wire_event_of_wire. }
  assert (Hlen : (length (horizontal_wires layer)
                  ≤ length (WireLayer.values layer))%nat).
  { apply length_filter. }
  destruct (run_adds_spec fuel (key_of_wire <$> (ev_wire <$> la))
              RangeIndex.__init__ E index_ok_init)
    as (i & t & Hrun & Hok & Hin).
  { rewrite Hkeys. apply NoDup_keys_of_wires.
    eapply sublist_NoDup; [exact Hnd|].
    apply fmap_sublist, sublist_filter. }
  { intros k _ Hk. by apply elem_of_nil in Hk. }
  { rewrite Hkeys, length_fmap. cbn [inorder length]. lia. }
  by exists la, lq, i, t.
Qed.

Lemma traced_event_loop_adds fuel count_only result la rest :
  ∀ ts i,
    Forall (λ e, ev_type e = "add") la →
    run_ops fuel (Add <$> (key_of_wire <$> (ev_wire <$> la)))
      (CrossVerifier.index (TracedCrossVerifier.base ts)) = Ret tt i →
    TracedCrossVerifier.event_loop fuel count_only result (la ++ rest) ts
    = TracedCrossVerifier.event_loop fuel count_only result rest
        (TracedCrossVerifier.mk
           (CrossVerifier.mk
              (CrossVerifier.events (TracedCrossVerifier.base ts)) i
              (CrossVerifier.result_set (TracedCrossVerifier.base ts))
              (CrossVerifier.performed (TracedCrossVerifier.base ts)))
           (TracedCrossVerifier.trace ts ++ (entry_of_event <$> la))).
Proof.
  induction la as [|e la IH]; intros ts i Hla Hrun.
  { cbn in Hrun. injection Hrun as <-. cbn [app fmap list_fmap].
    rewrite app_nil_r, on_index_id. by destruct ts. }
  inversion Hla as [|?? He Hla']; subst.
  cbn [fmap list_fmap] in Hrun. unfold run_ops in Hrun.
  cbn [foldr run_op] in Hrun. unfold mbind, M_bind in Hrun.
  destruct (RangeIndex.add fuel (Some (key_of_wire (ev_wire e)))
              (CrossVerifier.index (TracedCrossVerifier.base ts)))
    as [[] i1| | |] eqn:Hadd; [|done..].
  cbn [app TracedCrossVerifier.event_loop fmap list_fmap].
  unfold TracedCrossVerifier.process_event. rewrite He.
  change (String.eqb "add" "add") with true. cbv iota.
  cbn [KeyWirePair.__init__].
  change (KeyWirePair.mk (Wire.y1 (ev_wire e)) (Some (ev_wire e))
            (Wire.object_id (ev_wire e))) with (key_of_wire (ev_wire e)).
  unfold TracedCrossVerifier.index_add, TracedCrossVerifier.wire_name,
    TracedCrossVerifier.trace_append, TracedCrossVerifier.on_base,
    CrossVerifier.on_index.
  cbn [key_of_wire KeyWirePair.wire].
  unfold mbind, M_bind, mret, M_ret.
  cbn [TracedCrossVerifier.base TracedCrossVerifier.trace].
  change (KeyWirePair.mk (Wire.y1 (ev_wire e)) (Some (ev_wire e))
            (Wire.object_id (ev_wire e))) with (key_of_wire (ev_wire e)).
  rewrite Hadd.
  rewrite (IH _ i Hla').
  - cbn [TracedCrossVerifier.base TracedCrossVerifier.trace
           CrossVerifier.events CrossVerifier.result_set
           CrossVerifier.performed].
    rewrite <- app_assoc. cbn [app]. unfold entry_of_event at 2.
    rewrite He. done.
  - exact Hrun.
Qed.

Lemma traced_query_event_raises fuel count_only result q ts :
  ev_type q = "query" →
  data (CrossVerifier.index (TracedCrossVerifier.base ts)) = None →
  TracedCrossVerifier.process_event fuel count_only result q ts
  = Raise AttributeError
      (TracedCrossVerifier.mk (TracedCrossVerifier.base ts)
         (TracedCrossVerifier.trace ts ++ [TraceSweep (ev_x q)])).
Proof.
  intros Hq Hd. unfold TracedCrossVerifier.process_event. rewrite Hq.
  change (String.eqb "query" "add") with false.
  change (String.eqb "query" "query") with true. cbv iota.
  unfold TracedCrossVerifier.trace_sweep_line,
    TracedCrossVerifier.trace_append, TracedCrossVerifier.index_list,
    TracedCrossVerifier.on_base, CrossVerifier.on_index,
    RangeIndex.list, RangeIndex.self_data.
  unfold mbind, M_bind, mret, M_ret.
  cbn [TracedCrossVerifier.base TracedCrossVerifier.trace].
  rewrite Hd. by rewrite on_index_id.
Qed.

Lemma until_first_query_app la lq :
  Forall (λ e, ev_type e = "add") la →
  Forall (λ e, ev_type e = "query") lq →
  until_first_query (la ++ lq) = la ++ take 1 lq.
Proof.
  intros Hla Hlq. induction Hla as [|a la Ha _ IH].
  - destruct Hlq as [|q lq Hq _]; [done|]. cbn. by rewrite Hq.
  - cbn. rewrite Ha, IH. done.
Qed.

Lemma untraced_run fuel count_only la lq i :
  Forall (λ e, ev_type e = "add") la →
  Forall (λ e, ev_type e = "query") lq →
  run_ops fuel (Add <$> (key_of_wire <$> (ev_wire <$> la)))
    RangeIndex.__init__ = Ret tt i →
  data i = None →
  CrossVerifier._compute_crossings fuel count_only
    (CrossVerifier.mk (la ++ lq) RangeIndex.__init__ ResultSet.__init__ true)
  = match lq with
    | [] => Ret (if count_only then CountResult 0
                 else SetResult ResultSet.__init__)
    | _ :: _ => Raise AttributeError
    end (CrossVerifier.mk (la ++ lq) i ResultSet.__init__ true).
Proof.
  intros Hla Hlq Hrun Hd.
  unfold CrossVerifier._compute_crossings, get_state.
  unfold mbind at 1, M_bind at 1. cbn [CrossVerifier.events].
  unfold mbind at 1, M_bind at 1.
  rewrite event_loop_adds by done. cbn [CrossVerifier.index].
  rewrite Hrun.
  cbn [CrossVerifier.events CrossVerifier.result_set CrossVerifier.performed].
  destruct lq as [|q lq].
  - cbn [CrossVerifier.event_loop]. unfold mret, M_ret.
    by destruct count_only.
  - cbn [CrossVerifier.event_loop]. unfold mbind, M_bind.
    rewrite query_event_raises; [done|by inversion Hlq|done].
Qed.

Lemma traced_run fuel count_only la lq i :
  Forall (λ e, ev_type e = "add") la →
  Forall (λ e, ev_type e = "query") lq →
  run_ops fuel (Add <$> (key_of_wire <$> (ev_wire <$> la)))
    RangeIndex.__init__ = Ret tt i →
  data i = None →
  TracedCrossVerifier._compute_crossings fuel count_only
    (TracedCrossVerifier.mk
       (CrossVerifier.mk (la ++ lq) RangeIndex.__init__ ResultSet.__init__
          true) [])
  = match lq with
    | [] => Ret (if count_only then CountResult 0
                 else SetResult ResultSet.__init__)
    | _ :: _ => Raise AttributeError
    end (TracedCrossVerifier.mk
           (CrossVerifier.mk (la ++ lq) i ResultSet.__init__ true)
           (entry_of_event <$> until_first_query (la ++ lq))).
Proof.
  intros Hla Hlq Hrun Hd.
  rewrite until_first_query_app by done.
  unfold TracedCrossVerifier._compute_crossings, get_state.
  unfold mbind at 1, M_bind at 1.
  cbn [CrossVerifier.events TracedCrossVerifier.base].
  unfold mbind at 1, M_bind at 1.
  rewrite (traced_event_loop_adds _ _ _ _ _ _ i) by done.
  cbn [CrossVerifier.events CrossVerifier.result_set CrossVerifier.performed
         TracedCrossVerifier.base TracedCrossVerifier.trace app].
  destruct lq as [|q lq].
  - cbn [TracedCrossVerifier.event_loop take]. rewrite app_nil_r.
    unfold mret, M_ret. by destruct count_only.
  - cbn [TracedCrossVerifier.event_loop take]. unfold mbind, M_bind.
    rewrite traced_query_event_raises; [|by inversion Hlq|done].
    cbn [TracedCrossVerifier.base TracedCrossVerifier.trace].
    inversion Hlq as [|?? Hq _]; subst.
    assert (Hq' : entry_of_event q = TraceSweep (ev_x q)).
    { unfold entry_of_event. by rewrite Hq. }
    rewrite fmap_app. cbn [fmap list_fmap]. rewrite Hq'. done.
Qed.

Lemma traced_calls_eq fuel b tr :
  CrossVerifier.performed b = false →
  TracedCrossVerifier.count_crossings fuel (TracedCrossVerifier.mk b tr)
  = TracedCrossVerifier._compute_crossings fuel true
      (TracedCrossVerifier.mk
         (CrossVerifier.mk (CrossVerifier.events b) (CrossVerifier.index b)
            (CrossVerifier.result_set b) true) tr)
  ∧ TracedCrossVerifier.wire_crossings fuel (TracedCrossVerifier.mk b tr)
    = TracedCrossVerifier._compute_crossings fuel false
        (TracedCrossVerifier.mk
           (CrossVerifier.mk (CrossVerifier.events b) (CrossVerifier.index b)
              (CrossVerifier.result_set b) true) tr).
Proof.
  intros Hp.
  unfold TracedCrossVerifier.count_crossings,
    TracedCrossVerifier.wire_crossings, get_state,
    TracedCrossVerifier.on_base, CrossVerifier.set_performed.
  unfold mbind, M_bind, mret, M_ret.
  cbn [TracedCrossVerifier.base TracedCrossVerifier.trace].
  rewrite Hp. done.
Qed.

(** X20: tracing does not change what the verifier does.  On a layer with
    pairwise distinct identifiers, the first call of [count_crossings] or
    [wire_crossings] on a new [TracedCrossVerifier] returns or raises what
    the call on a new [CrossVerifier] returns or raises and leaves the
    same verifier state.  The trace then holds one entry per event up to
    and including the first [query] event, in the order of the events: an
    [add] entry with the name of the wire for an [add] event, and a
    [sweep] entry with the position of the sweep line for the [query]
    event. *)
Theorem tracing_is_transparent (layer : WireLayer.t) (fuel : nat) :
  WireLayer.values layer ≠ [] →
  NoDup (Wire.object_id <$> WireLayer.values layer) →
  (2 * length (WireLayer.values layer) + 1 ≤ fuel)%nat →
  ∃ cv tv s,
    CrossVerifier.__init__ layer = inr cv
    ∧ TracedCrossVerifier.__init__ layer = inr tv
    ∧ TracedCrossVerifier.trace_as_json tv = []
    ∧ let ts := TracedCrossVerifier.mk s
                  (entry_of_event
                   <$> until_first_query (CrossVerifier.events cv)) in
      match CrossVerifier.count_crossings fuel cv with
      | Ret r s0 =>
          s0 = s ∧ TracedCrossVerifier.count_crossings fuel tv = Ret r ts
      | Raise e s0 =>
          s0 = s ∧ TracedCrossVerifier.count_crossings fuel tv = Raise e ts
      | OutOfFuel | Dangling => False
      end
      ∧ match CrossVerifier.wire_crossings fuel cv with
        | Ret r s0 =>
            s0 = s ∧ TracedCrossVerifier.wire_crossings fuel tv = Ret r ts
        | Raise e s0 =>
            s0 = s ∧ TracedCrossVerifier.wire_crossings fuel tv = Raise e ts
        | OutOfFuel | Dangling => False
        end.
Proof.
  intros Hne Hnd Hfuel.
  destruct (CrossVerifier_init_succeeds layer Hnd Hne) as [cv Hinit].
  destruct (new_verifier_adds layer cv fuel Hinit Hnd Hfuel)
    as (la & lq & i & t & -> & Hla & Hlq & Hrun & Hok).
  assert (Hd : data i = None) by apply Hok.
  eexists _, _, (CrossVerifier.mk (la ++ lq) i ResultSet.__init__ true).
  split; [exact Hinit|].
  split; [unfold TracedCrossVerifier.__init__; rewrite Hinit; reflexivity|].
  split; [reflexivity|].
  cbn [CrossVerifier.events CrossVerifier.index CrossVerifier.result_set
         CrossVerifier.performed]. cbv zeta.
  rewrite count_crossings_eq, wire_crossings_eq.
  cbn [CrossVerifier.events CrossVerifier.index CrossVerifier.result_set
         CrossVerifier.performed].
  rewrite !(untraced_run fuel _ la lq i Hla Hlq Hrun Hd).
  destruct (traced_calls_eq fuel
              (CrossVerifier.mk (la ++ lq) RangeIndex.__init__
                 ResultSet.__init__ false) [] eq_refl) as [-> ->].
  cbn [CrossVerifier.events CrossVerifier.index CrossVerifier.result_set
         CrossVerifier.performed].
  rewrite !(traced_run fuel _ la lq i Hla Hlq Hrun Hd).
  by destruct lq.
Qed.

Lemma tracing_is_transparent_witness :
  ∃ cv tv s,
    CrossVerifier.__init__
      (WireLayer.mk [("h", Wire.mk "h" 0 0 10 0 0);
                     ("v", Wire.mk "v" 5 (-5) 5 5 1)]) = inr cv
    ∧ TracedCrossVerifier.__init__
        (WireLayer.mk [("h", Wire.mk "h" 0 0 10 0 0);
                       ("v", Wire.mk "v" 5 (-5) 5 5 1)]) = inr tv
    ∧ TracedCrossVerifier.trace_as_json tv = []
    ∧ let ts := TracedCrossVerifier.mk s
                  (entry_of_event
                   <$> until_first_query (CrossVerifier.events cv)) in
      match CrossVerifier.count_crossings 5 cv with
      | Ret r s0 =>
          s0 = s ∧ TracedCrossVerifier.count_crossings 5 tv = Ret r ts
      | Raise e s0 =>
          s0 = s ∧ TracedCrossVerifier.count_crossings 5 tv = Raise e ts
      | OutOfFuel | Dangling => False
      end
      ∧ match CrossVerifier.wire_crossings 5 cv with
        | Ret r s0 =>
            s0 = s ∧ TracedCrossVerifier.wire_crossings 5 tv = Ret r ts
        | Raise e s0 =>
            s0 = s ∧ TracedCrossVerifier.wire_crossings 5 tv = Raise e ts
        | OutOfFuel | Dangling => False
        end.
Proof.
  apply (tracing_is_transparent
           (WireLayer.mk [("h", Wire.mk "h" 0 0 10 0 0);
                          ("v", Wire.mk "v" 5 (-5) 5 5 1)]) 5).
  - done.
  - cbn. repeat constructor; rewrite ?not_elem_of_cons, ?elem_of_nil;
      intuition discriminate.
  - cbn. lia.
Defined.

(** ** Insertion sorts the keys *)

(** X21: after the keys [ks], pairwise distinct, have been added to a new
    index, the in-order traversal of the stored tree is the list [ks]
    sorted in strictly ascending order: it holds every added key once and
    no other key. *)
Theorem adds_sort_the_keys (fuel : nat) (ks : list KeyWirePair.t) :
  NoDup (kwp_id <$> ks) →
  (2 * length ks + 1 ≤ fuel)%nat →
  ∃ s t,
    run_ops fuel (Add <$> ks) RangeIndex.__init__ = Ret tt s
    ∧ index_tree s = Some t
    ∧ inorder t ≡ₚ ks
    ∧ StronglySorted kwp_lt (inorder t)
    ∧ count_is_number_below t.
Proof.
  intros Hnd Hfuel.
  destruct (run_adds_spec fuel ks _ E index_ok_init Hnd)
    as (s & t & Hrun & Hok & Hperm).
  { intros k _ Hin. by apply elem_of_nil in Hin. }
  { cbn [inorder length]. lia. }
  rewrite app_nil_r in Hperm.
  exists s, t. split; [done|]. split; [by apply index_ok_tree|].
  split; [done|]. destruct Hok as (_ & Havl & Hsorted & _).
  split; [done|]. by apply avl_count_is_number_below.
Qed.

Lemma adds_sort_the_keys_witness :
  ∃ s t,
    run_ops 7 (Add <$> (sample_key <$> [3; 1; 2])) RangeIndex.__init__
    = Ret tt s
    ∧ index_tree s = Some t
    ∧ inorder t ≡ₚ sample_key <$> [3; 1; 2]
    ∧ StronglySorted kwp_lt (inorder t)
    ∧ count_is_number_below t.
Proof.
  apply (adds_sort_the_keys 7 (sample_key <$> [3; 1; 2])).
  - cbn. repeat constructor; rewrite ?not_elem_of_cons, ?elem_of_nil;
      intuition discriminate.
  - cbn. lia.
Defined.
